(** * niuniu analyzer: a shallow embedding of [niuniu/analyzer.py]

    The development follows the Python engine component by component:
    string helpers, the call graph and its reverse, the sink-to-entry-point
    search [_trace_back], rule matching, chain scoring, the parsed-AST cache
    and the template scanner; then the class index and the forward call graph
    that [build_ast] fills, the extraction of a method body, the call-chain
    pass of [find_vulnerabilities] and the cache manager of
    [utils/performance.py] that holds the compiled patterns.  Python [str]
    values are [string]s (ASCII),
    [int]s are [Z] or [nat] where the value is a length or an index, [float]s
    are binary64 primitive floats, [dict]s and [set]s are [gmap]s and [gset]s
    unless the insertion order is observable.

    What lies outside the engine is an input of the model: the stop predicate
    is a function of the number of times it has been polled, the clock is an
    argument of each cache call, [os.walk] and file reading are the list of
    directories and files they yield, and the [re] module is a pair of
    functions (does the pattern compile, does it match the line).  Exceptions
    that leave a function are an explicit outcome.  The definitions come
    first, module by module; the facts about them follow. *)

From Stdlib Require Import ZArith Floats Ascii String List Lia Bool.
From stdpp Require Import gmap strings list fin_maps fin_sets sorting pretty.

#[local] Set Warnings "-inexact-float,-clear-no-such-hyp".

(** ** Python string operations *)
Module PyStr.

(** [str.isspace] on ASCII: TAB..CR, FS..US and the blank. *)
Definition is_space (c : ascii) : bool :=
  let n := nat_of_ascii c in
  (((9 <=? n) && (n <=? 13)) || ((28 <=? n) && (n <=? 32)))%nat.

Definition lower_char (c : ascii) : ascii :=
  let n := nat_of_ascii c in
  if ((65 <=? n) && (n <=? 90))%nat then ascii_of_nat (n + 32) else c.

Definition upper_char (c : ascii) : ascii :=
  let n := nat_of_ascii c in
  if ((97 <=? n) && (n <=? 122))%nat then ascii_of_nat (n - 32) else c.

Fixpoint map_chars (f : ascii -> ascii) (s : string) : string :=
  match s with
  | EmptyString => EmptyString
  | String c t => String (f c) (map_chars f t)
  end.

(** [s.isascii()]: every character is below 128.  On such strings the
    operations of this module are those of Python's [str]; beyond them
    [strip], [lower] and [upper] leave alone what Unicode would change. *)
Definition isascii (s : string) : bool :=
  forallb (λ c, (nat_of_ascii c <? 128)%nat) (list_ascii_of_string s).

(** [s.lower()] and [s.upper()]. *)
Definition lower : string -> string := map_chars lower_char.
Definition upper : string -> string := map_chars upper_char.

(** [s.startswith(p)]. *)
Fixpoint startswith (s p : string) : bool :=
  match p, s with
  | EmptyString, _ => true
  | String _ _, EmptyString => false
  | String a p', String b s' => if Ascii.eqb a b then startswith s' p' else false
  end.

(** [sub in s]. *)
Fixpoint str_in (sub s : string) : bool :=
  startswith s sub ||
  match s with
  | EmptyString => false
  | String _ t => str_in sub t
  end.

(** [s.find(sub)], [None] standing for -1; [i] is the offset of [s]. *)
Fixpoint find_from (sub s : string) (i : nat) : option nat :=
  if startswith s sub then Some i
  else match s with
       | EmptyString => None
       | String _ t => find_from sub t (S i)
       end.

Definition find (sub s : string) : option nat := find_from sub s 0.

(** [s[n:]] and [s[:n]]. *)
Fixpoint drop (n : nat) (s : string) : string :=
  match n, s with
  | O, _ => s
  | S n', String _ t => drop n' t
  | S _, EmptyString => EmptyString
  end.

Fixpoint take (n : nat) (s : string) : string :=
  match n, s with
  | S n', String c t => String c (take n' t)
  | _, _ => EmptyString
  end.

(** [s.find(sub, start)] for [start <= len(s)]. *)
Definition find_at (sub s : string) (start : nat) : option nat :=
  if (String.length s <? start)%nat then None
  else find_from sub (drop start s) start.

(** [s.rfind(sub)]: the last position where [sub] starts. *)
Fixpoint rfind_from (sub s : string) (i : nat) : option nat :=
  match s with
  | EmptyString => if startswith s sub then Some i else None
  | String _ t =>
      match rfind_from sub t (S i) with
      | Some j => Some j
      | None => if startswith s sub then Some i else None
      end
  end.

(** [s.rfind(sub, 0, stop)]. *)
Definition rfind_upto (sub s : string) (stop : nat) : option nat :=
  rfind_from sub (take stop s) 0.

(** [s.count(c)] for a one-character [c]. *)
Fixpoint count_char (c : ascii) (s : string) : nat :=
  match s with
  | EmptyString => 0
  | String a t => (if Ascii.eqb a c then 1 else 0) + count_char c t
  end.

Fixpoint rev_acc (s acc : string) : string :=
  match s with
  | EmptyString => acc
  | String c t => rev_acc t (String c acc)
  end.

Definition rev (s : string) : string := rev_acc s EmptyString.

Fixpoint lstrip_by (p : ascii -> bool) (s : string) : string :=
  match s with
  | EmptyString => EmptyString
  | String c t => if p c then lstrip_by p t else s
  end.

Definition rstrip_by (p : ascii -> bool) (s : string) : string :=
  rev (lstrip_by p (rev s)).

(** [s.strip()] and [s.lstrip(c)] for a one-character [c]. *)
Definition strip (s : string) : string := rstrip_by is_space (lstrip_by is_space s).
Definition lstrip_char (c : ascii) (s : string) : string := lstrip_by (Ascii.eqb c) s.

Definition endswith (s p : string) : bool := startswith (rev s) (rev p).

(** [s.split(sep)] for a one-character [sep]: the pieces between the
    separators, always at least one. *)
Fixpoint split_acc (sep : ascii) (s : string) (cur : string) : list string :=
  match s with
  | EmptyString => [rev cur]
  | String c t =>
      if Ascii.eqb c sep then rev cur :: split_acc sep t EmptyString
      else split_acc sep t (String c cur)
  end.

Definition split (sep : ascii) (s : string) : list string := split_acc sep s EmptyString.

(** [s.split(sep, 1)]: cut at the first separator only. *)
Fixpoint split1_acc (sep : ascii) (s : string) (cur : string) : list string :=
  match s with
  | EmptyString => [rev cur]
  | String c t =>
      if Ascii.eqb c sep then [rev cur; t]
      else split1_acc sep t (String c cur)
  end.

Definition split1 (sep : ascii) (s : string) : list string := split1_acc sep s EmptyString.

(** [l[-1]] of a non-empty list of strings. *)
Definition last_piece (l : list string) : string := List.last l EmptyString.

(** [sep.join(l)]. *)
Definition join (sep : string) (l : list string) : string := String.concat sep l.

(** Python truthiness of an optional string: [None] and [''] are falsy. *)
Definition truthy (o : option string) : bool :=
  match o with
  | Some (String _ _) => true
  | _ => false
  end.

(** [a or b] on optional strings. *)
Definition por (a b : option string) : option string := if truthy a then a else b.

End PyStr.

(** ** CallGraph: forward edges and their inversion *)
Module CallGraph.

(** [if callee not in rev: rev[callee] = []] then [rev[callee].append(caller)]. *)
Definition add_edge (caller : string) (rev : gmap string (list string)) (callee : string)
  : gmap string (list string) :=
  <[callee := (default [] (rev !! callee) ++ [caller])%list]> rev.

(** The first loop of [_build_reverse_call_graph], over [call_graph.items()]. *)
Definition invert_edges (items : list (string * list string)) (rev : gmap string (list string))
  : gmap string (list string) :=
  foldl (fun acc item => foldl (add_edge item.1) acc item.2) rev items.

(** [list(set(l))]: the elements of the set of [l], in the set's own order. *)
Definition list_of_set (l : list string) : list string :=
  elements (list_to_set l : gset string).

(** [_build_reverse_call_graph]: the reverse graph is cleared, filled from
    the forward graph and every caller list is replaced by [list(set(.))]. *)
Definition _build_reverse_call_graph (call_graph : gmap string (list string))
  : gmap string (list string) :=
  list_of_set <$> invert_edges (map_to_list call_graph) ∅.

(** [d.get(k, [])]. *)
Definition get_list (d : gmap string (list string)) (k : string) : list string :=
  default [] (d !! k).

End CallGraph.

(** ** ChainFinder: backtracking from a sink to the HTTP entry points *)
Module ChainFinder.

(** What a Python call can do in the model: return, raise, or (for the
    fuel-bounded [while] loop) run out of fuel. *)
Inductive outcome (A : Type) : Type :=
| Returned (a : A)
| Raised
| OutOfFuel.
Arguments Returned {A} a.
Arguments Raised {A}.
Arguments OutOfFuel {A}.

(** [class_methods[cls]['methods'][m]]. *)
Record method_info := MethodInfo {
  requires_params : bool;
  has_mapping_annotation : bool }.

Record class_record := ClassRecord {
  file_path : string;
  methods : gmap string method_info }.

(** The part of the [Analyzer] object the search reads. *)
Record analyzer := Analyzer {
  class_methods : gmap string class_record;
  reverse_call_graph : gmap string (list string) }.

(** [is_has_parameters]: [requires_params], [True] when the class or the
    method is unknown. *)
Definition is_has_parameters (a : analyzer) (class_name method_name : string) : bool :=
  match class_methods a !! class_name with
  | None => true
  | Some info =>
      match methods info !! method_name with
      | None => true
      | Some m => requires_params m
      end
  end.

(** [is_entry_point]: [class_name, method_name = method.split(':')] raises
    [ValueError] ([None]) unless there are exactly two pieces. *)
Definition is_entry_point (a : analyzer) (method : string) : option bool :=
  match PyStr.split ":" method with
  | [class_name; method_name] =>
      Some match class_methods a !! class_name with
           | None => false
           | Some info =>
               match methods info !! method_name with
               | None => false
               | Some m => has_mapping_annotation m
               end
           end
  | _ => None
  end.

(** [max(max_depth, 15) if max_depth < 10 else max_depth]. *)
Definition effective_max_depth (max_depth : Z) : Z :=
  if (max_depth <? 10)%Z then Z.max max_depth 15 else max_depth.

(** A queue entry [(current_path, current_depth, path_nodes, start_ts)];
    the time stamp is never read (the timeout test is commented out). *)
Record entry := Entry {
  current_path : list string;
  current_depth : Z;
  path_nodes : gset string }.

(** The local variables [paths], [visited_states] and [queue]. *)
Record search := Search {
  paths : list (list string);
  visited_states : gset (string * Z);
  queue : list entry }.

(** One pass of the body of [for caller in caller_methods]; [None] is an
    exception leaving [_trace_back]. *)
Definition visit_caller (a : analyzer) (cur : entry) (st : search) (caller : string)
  : option search :=
  if bool_decide (caller ∈ path_nodes cur) then Some st
  else
    let state_key := (caller, (current_depth cur + 1)%Z) in
    if bool_decide (state_key ∈ visited_states st) then Some st
    else
      let st := Search (paths st) ({[state_key]} ∪ visited_states st) (queue st) in
      match PyStr.split1 ":" caller with
      | [cls; mtd] =>
          if negb (is_has_parameters a cls mtd) then Some st
          else
            let new_path := caller :: current_path cur in
            let new_nodes := path_nodes cur ∪ {[caller]} in
            match is_entry_point a caller with
            | None => None
            | Some true =>
                Some (Search (paths st ++ [new_path])%list (visited_states st) (queue st))
            | Some false =>
                Some (Search (paths st) (visited_states st)
                        (queue st ++ [Entry new_path (current_depth cur + 1)%Z new_nodes])%list)
            end
      | _ => None
      end.

(** A [for] loop whose body may raise. *)
Fixpoint for_each {S A : Type} (body : S -> A -> option S) (st : S) (l : list A) : option S :=
  match l with
  | [] => Some st
  | x :: l' =>
      match body st x with
      | None => None
      | Some st' => for_each body st' l'
      end
  end.

(** The [while queue:] loop.  [should_stop] is the stop predicate, asked for
    the [polls]-th time. *)
Fixpoint search_loop (a : analyzer) (should_stop : nat -> bool) (eff : Z)
    (fuel polls : nat) (st : search) : outcome (list (list string)) :=
  match queue st with
  | [] => Returned (paths st)
  | cur :: rest =>
      match fuel with
      | O => OutOfFuel
      | S fuel' =>
          if should_stop polls then Returned (paths st)
          else
            let st := Search (paths st) (visited_states st) rest in
            if (eff <=? current_depth cur)%Z then
              search_loop a should_stop eff fuel' (S polls) st
            else
              match current_path cur with
              | [] => Raised
              | current_sink :: _ =>
                  let caller_methods :=
                    CallGraph.get_list (reverse_call_graph a) current_sink in
                  match for_each (visit_caller a cur) st caller_methods with
                  | None => Raised
                  | Some st' => search_loop a should_stop eff fuel' (S polls) st'
                  end
              end
      end
  end.

(** [_trace_back(sink, max_depth)] once [max_seconds] has been read: the
    queue is set up and served. *)
Definition _trace_back (a : analyzer) (should_stop : nat -> bool)
    (sink : string) (max_depth : Z) (fuel : nat) : outcome (list (list string)) :=
  search_loop a should_stop (effective_max_depth max_depth) fuel 0
    (Search [] ∅ [Entry [sink] 0 {[sink]}]).

(** The whole call [self._trace_back(sink, max_depth)].  Before the loop,
    [max_seconds = int(self.rules.get('max_seconds', 600))] raises when the
    configured value is no number ([null], a list, a word); [max_seconds] is
    the number it gives, [None] when it raises.  The number is never read:
    the timeout test is commented out. *)
Definition trace_back_call (max_seconds : option Z) (a : analyzer)
    (should_stop : nat -> bool) (sink : string) (max_depth : Z) (fuel : nat)
  : outcome (list (list string)) :=
  match max_seconds with
  | None => Raised
  | Some _ => _trace_back a should_stop sink max_depth fuel
  end.

(** [find_vulnerabilities]: [depth = self.rules.get('depth', 15)] followed by
    [depth = max(depth, 15)]. *)
Definition configured_depth (rules_depth : option Z) : Z :=
  Z.max (default 15%Z rules_depth) 15.

(** The call [self._trace_back(sink_point, depth)] of [find_vulnerabilities]. *)
Definition find_vulnerabilities_trace (a : analyzer) (should_stop : nat -> bool)
    (rules_depth : option Z) (sink_point : string) (fuel : nat)
  : outcome (list (list string)) :=
  _trace_back a should_stop sink_point (configured_depth rules_depth) fuel.

(** Every caller named by the reverse graph, and the [(caller, depth)]
    states the search can ever mark below the cap [eff]. *)
Definition all_callers (a : analyzer) : list string :=
  concat (map snd (map_to_list (reverse_call_graph a))).

Definition state_space (a : analyzer) (eff : Z) : gset (string * Z) :=
  list_to_set (c ← all_callers a; d ← seqZ 1 eff; [(c, d)]).

(** Enough fuel for any run: one iteration per queued entry. *)
Definition enough_fuel (a : analyzer) (max_depth : Z) : nat :=
  S (S (size (state_space a (effective_max_depth max_depth)))).

End ChainFinder.

(** ** RuleMatcher: signatures against sink, source and sanitizer rules *)
Module RuleMatcher.

(** A rule of [sink_rules], [source_rules] or [sanitizer_rules]: its optional
    names, and the signature lists stored under ['sinks'], ['sources'] or
    ['sanitizers'].  Entries that are not dicts, and list items that are not
    strings, are skipped by the source and excluded here by typing. *)
Record rule := Rule {
  sanitizer_name : option string;
  source_name : option string;
  sink_name : option string;
  items : gmap string (list string) }.

(** [r.get(key, [])]. *)
Definition rule_items (r : rule) (key : string) : list string :=
  default [] (items r !! key).

(** [cls.split('.')[-1]]. *)
Definition short_name (cls : string) : string :=
  PyStr.last_piece (PyStr.split "." cls).

(** [[m.strip() for m in sm.split('|')]]. *)
Definition method_names (sm : string) : list string :=
  map PyStr.strip (PyStr.split "|" sm).

(** The test made on one rule entry [s] for the parsed signature. *)
Definition entry_matches (cls mtd s : string) : bool :=
  if negb (PyStr.str_in ":" s) then false
  else
    match PyStr.split1 ":" s with
    | [sc; sm] =>
        let sc := PyStr.strip sc in
        let sm := PyStr.strip sm in
        let cls_short := short_name cls in
        let sc_short := short_name sc in
        let methods := method_names sm in
        (String.eqb cls sc || String.eqb cls_short sc_short)
        && bool_decide (mtd ∈ methods)
    | _ => false
    end.

(** [r.get('sanitizer_name') or r.get('source_name') or r.get('sink_name') or s]. *)
Definition hit_name (r : rule) (s : string) : option string :=
  PyStr.por (sanitizer_name r)
    (PyStr.por (source_name r) (PyStr.por (sink_name r) (Some s))).

(** [if hit_name and hit_name not in hits: hits.append(hit_name)]. *)
Definition add_hit (hits : list string) (h : option string) : list string :=
  match h with
  | Some n =>
      if PyStr.truthy h && negb (bool_decide (n ∈ hits)) then hits ++ [n] else hits
  | None => hits
  end.

Definition match_entry (cls mtd : string) (r : rule) (hits : list string) (s : string)
  : list string :=
  if entry_matches cls mtd s then add_hit hits (hit_name r s) else hits.

Definition match_rule (cls mtd key : string) (hits : list string) (r : rule)
  : list string :=
  foldl (match_entry cls mtd r) hits (rule_items r key).

(** [_rule_matches(sig, rules, key)]. *)
Definition _rule_matches (sig : string) (rules : list rule) (key : string) : list string :=
  if negb (PyStr.truthy (Some sig)) || negb (PyStr.str_in ":" sig) then []
  else
    match PyStr.split1 ":" sig with
    | [cls; mtd] =>
        let cls := PyStr.strip cls in
        let mtd := PyStr.strip mtd in
        if negb (PyStr.truthy (Some cls)) || negb (PyStr.truthy (Some mtd)) then []
        else foldl (match_rule cls mtd key) [] rules
    | _ => []
    end.

(** The rule bundle as far as chain enrichment reads it; [pattern_rules] is a
    JSON object from pattern names to signature lists. *)
Record rules := Rules {
  sanitizer_rules : list rule;
  source_rules : list rule;
  pattern_rules : list (string * list string) }.

(** ['sanitizers' if 'sanitizers' in rs[0] else 'sinks'] and its sibling. *)
Definition key_of (preferred : string) (rs : list rule) : string :=
  match rs with
  | r :: _ => if bool_decide (is_Some (items r !! preferred)) then preferred else "sinks"
  | [] => "sinks"
  end.

Definition matches_in_chain (rs : list rule) (key : string) (chain : list string)
  : list string :=
  foldl (λ found sig,
           if negb (PyStr.truthy (Some sig)) then found
           else found ++ _rule_matches sig rs key) [] chain.

(** [_is_sanitized(chain)] and [_find_sources(chain)]. *)
Definition _is_sanitized (rs : rules) (chain : list string) : list string :=
  match sanitizer_rules rs with
  | [] => []
  | sanitizers =>
      CallGraph.list_of_set
        (matches_in_chain sanitizers (key_of "sanitizers" sanitizers) chain)
  end.

Definition _find_sources (rs : rules) (chain : list string) : list string :=
  match source_rules rs with
  | [] => []
  | sources =>
      CallGraph.list_of_set (matches_in_chain sources (key_of "sources" sources) chain)
  end.

(** The set comprehension of [_get_pattern_hits]: every listed signature with
    its class shortened; an entry without [':'] raises, which empties the set. *)
Definition pattern_sigs (sig_list : list string) : list string :=
  if forallb (PyStr.str_in ":") sig_list then
    map (λ s, match PyStr.split1 ":" s with
              | [c; m] => short_name c +:+ ":" +:+ m
              | _ => s
              end) sig_list
  else [].

(** [_get_pattern_hits(chain)]; [sql_concat_text] is the outcome of
    [_detect_sql_concat_text(chain)], which reads the project's sources. *)
Definition _get_pattern_hits (rs : rules) (sql_concat_text : bool) (chain : list string)
  : list string :=
  let hits :=
    foldl (λ hits p,
             foldl (λ hits sig,
                      if bool_decide (sig ∈ pattern_sigs p.2) then hits ++ [p.1] else hits)
               hits chain) [] (pattern_rules rs) in
  let hits := if sql_concat_text then hits ++ ["SQL_CONCAT_TEXT"] else hits in
  CallGraph.list_of_set hits.

End RuleMatcher.

(** ** ChainScorer *)
Module ChainScorer.
Import RuleMatcher.

#[local] Open Scope float_scope.

(** Python's [max(a, b)] and [min(a, b)] on floats: the first argument unless
    the second is strictly better. *)
Definition pymax (a b : float) : float := if PrimFloat.ltb a b then b else a.
Definition pymin (a b : float) : float := if PrimFloat.ltb b a then b else a.

(** [max(0.0, min(1.0, score))]. *)
Definition clamp (score : float) : float := pymax 0.0 (pymin 1.0 score).

(** The body of [_score_chain] once the evidence lists are known. *)
Definition score_of (sanitizers sources pattern_hits : list string)
    (sink_name : string) (chain_length : nat) : float :=
  let score := 1.0 in
  let sink_name_upper := PyStr.upper sink_name in
  let score :=
    match sanitizers with
    | [] => score
    | _ => if (2 <=? length sanitizers)%nat then score - 0.5 else score - 0.4
    end in
  let score :=
    match sources with
    | [] => score
    | _ => if (2 <=? length sources)%nat then score + 0.4 else score + 0.3
    end in
  let score :=
    if String.eqb sink_name_upper "SQLI"
       && (bool_decide ("SQL_CONCAT" ∈ pattern_hits)
           || bool_decide ("SQL_CONCAT_TEXT" ∈ pattern_hits))
    then score + 0.3 else score in
  let score :=
    if (20 <? chain_length)%nat then score - 0.1
    else if (chain_length <? 3)%nat then score + 0.1
    else score in
  clamp score.

(** [_score_chain(chain, sink_name)]. *)
Definition _score_chain (rs : rules) (sql_concat_text : bool)
    (chain : list string) (sink_name : string) : float :=
  match chain with
  | [] => 0.0
  | _ =>
      score_of (_is_sanitized rs chain) (_find_sources rs chain)
        (_get_pattern_hits rs sql_concat_text chain) sink_name (length chain)
  end.

(** Whether the SQL pattern bonus applies. *)
Definition pattern_bonus (sink_name : string) (pattern_hits : list string) : bool :=
  String.eqb (PyStr.upper sink_name) "SQLI"
  && (bool_decide ("SQL_CONCAT" ∈ pattern_hits)
      || bool_decide ("SQL_CONCAT_TEXT" ∈ pattern_hits)).

End ChainScorer.

(** ** JavaParser: the parsed-AST cache *)
Module AstCache.

#[local] Open Scope float_scope.

(** [self._file_cache]: a dict in insertion order, from file paths to
    [(tree, timestamp)]; [Tree] stands for [javalang]'s compilation units. *)
Section Cache.
Variable Tree : Type.

Definition cache := list (string * (Tree * float)).

(** [CACHE_TTL] and the size above which expired entries are dropped. *)
Definition cache_ttl : float := 300.0.
Definition cache_limit : nat := 1000.
Definition evict_batch : nat := 100.

(** [d[k]] when [k in d]. *)
Fixpoint dict_get (d : cache) (k : string) : option (Tree * float) :=
  match d with
  | [] => None
  | (k', v) :: d' => if String.eqb k' k then Some v else dict_get d' k
  end.

(** [d[k] = v]: in place when the key is present, appended otherwise. *)
Fixpoint dict_set (d : cache) (k : string) (v : Tree * float) : cache :=
  match d with
  | [] => [(k, v)]
  | (k', v') :: d' =>
      if String.eqb k' k then (k', v) :: d' else (k', v') :: dict_set d' k v
  end.

(** [del d[k]]. *)
Fixpoint dict_del (d : cache) (k : string) : cache :=
  match d with
  | [] => []
  | (k', v') :: d' => if String.eqb k' k then d' else (k', v') :: dict_del d' k
  end.

(** [current_time - t > self._cache_ttl]. *)
Definition is_expired (current_time : float) (e : string * (Tree * float)) : bool :=
  PrimFloat.ltb cache_ttl (current_time - e.2.2).

(** [[k for k, (_, t) in self._file_cache.items() if current_time - t > ttl]]. *)
Definition expired_keys (d : cache) (current_time : float) : list string :=
  map fst (filter (λ e, is_expired current_time e = true) d).

(** The clean-up that follows a store. *)
Definition evict (d : cache) (current_time : float) : cache :=
  if (cache_limit <? length d)%nat then
    foldl dict_del d (take evict_batch (expired_keys d current_time))
  else d.

(** [_parse_file_with_cache(file_path)] at the clock value [current_time];
    [parsed] is what reading and parsing the file gives at that moment
    ([None] for too many lines or any exception).  The result is the returned
    tree and the cache afterwards. *)
Definition _parse_file_with_cache (d : cache) (file_path : string)
    (current_time : float) (parsed : option Tree) : option Tree * cache :=
  let fresh :=
    match dict_get d file_path with
    | Some (cached_tree, cache_time) =>
        if PrimFloat.ltb (current_time - cache_time) cache_ttl
        then Some cached_tree else None
    | None => None
    end in
  match fresh with
  | Some cached_tree => (Some cached_tree, d)
  | None =>
      match parsed with
      | None => (None, d)
      | Some tree =>
          let d := dict_set d file_path (tree, current_time) in
          (Some tree, evict d current_time)
      end
  end.

(** A sequence of calls [(file_path, current_time, parsed)]. *)
Definition parse_all (calls : list (string * float * option Tree)) (d : cache) : cache :=
  foldl (λ d c, (_parse_file_with_cache d c.1.1 c.1.2 c.2).2) d calls.

End Cache.

Arguments dict_get {Tree}.
Arguments dict_set {Tree}.
Arguments dict_del {Tree}.
Arguments is_expired {Tree}.
Arguments expired_keys {Tree}.
Arguments evict {Tree}.
Arguments _parse_file_with_cache {Tree}.
Arguments parse_all {Tree}.

End AstCache.

(** ** TemplateScanner: the line heuristics *)
Module Heuristics.

#[local] Open Scope float_scope.

(** A rule of [template_rules]. *)
Record template_rule := TemplateRule {
  name : option string;
  vul_type : option string;
  desc : option string;
  severity : option string;
  file_exts : list string;
  patterns : list string;
  must_substrings : list string;
  exclude_substrings : list string;
  force_regex : bool;
  rule_file_path : string }.

(** The double quote, and a text between double quotes. *)
Definition dq : string := String (ascii_of_nat 34) EmptyString.
Definition quoted (s : string) : string := dq +:+ s +:+ dq.

(** [o or ''] and [o or 'dflt']. *)
Definition or_else (o : option string) (dflt : string) : string :=
  match o with
  | Some s => if PyStr.truthy o then s else dflt
  | None => dflt
  end.

(** [any(w in text for w in words)] and [sum(1 for w in words if w in text)]. *)
Definition any_in (words : list string) (text : string) : bool :=
  existsb (λ w, PyStr.str_in w text) words.

Definition count_in (words : list string) (text : string) : nat :=
  length (filter (λ w, PyStr.str_in w text = true) words).

(** [l[a:b]] for [0 <= a]. *)
Definition slice {A : Type} (l : list A) (a b : nat) : list A := take (b - a) (drop a l).

(** [score += delta] and [score -= delta] under a condition. *)
Definition raise_if (c : bool) (delta score : float) : float :=
  if c then score + delta else score.
Definition lower_if (c : bool) (delta score : float) : float :=
  if c then score - delta else score.

(** The regex [kw\s*=\s*["']?\*+["']?] matched at the start of [rest], the
    keyword already consumed. *)
Definition is_quote (c : ascii) : bool :=
  Ascii.eqb c (ascii_of_nat 34) || Ascii.eqb c "'".

Definition masked_value (rest : string) : bool :=
  match PyStr.lstrip_by PyStr.is_space rest with
  | String c r1 =>
      if Ascii.eqb c "=" then
        let r2 := PyStr.lstrip_by PyStr.is_space r1 in
        let r3 := match r2 with
                  | String q t => if is_quote q then t else r2
                  | EmptyString => r2
                  end in
        PyStr.startswith r3 "*"
      else false
  | EmptyString => false
  end.

(** [re.search(pattern, line, re.I)] for one of the [safe_patterns]. *)
Fixpoint masked_credential (kw line : string) : bool :=
  (PyStr.startswith (PyStr.lower line) kw
   && masked_value (PyStr.drop (String.length kw) line))
  || match line with
     | EmptyString => false
     | String _ t => masked_credential kw t
     end.

(** The multi-line comment test of [_is_false_positive]. *)
Definition in_comment_context (line : string) (lines : list string)
    (line_no context_window : nat) : bool :=
  let context_start := (line_no - context_window - 1)%nat in
  let context_end := Nat.min (length lines) (line_no + context_window) in
  let context := PyStr.join "" (slice lines context_start context_end) in
  match PyStr.find line context with
  | None => false
  | Some line_pos =>
      let before_line := PyStr.take line_pos context in
      if PyStr.str_in "<!--" before_line && negb (PyStr.str_in "-->" before_line)
      then true
      else
        let comment_start := PyStr.rfind_upto "/*" context line_pos in
        let comment_end := PyStr.find_at "*/" context line_pos in
        match comment_start, comment_end with
        | None, _ => false
        | Some _, None => true
        | Some _, Some ce => (line_pos <? ce)%nat
        end
  end.

(** [_is_false_positive(line, lines, line_no, context_window, rule)]. *)
Definition _is_false_positive (line : string) (lines : list string)
    (line_no context_window : nat) (rule : template_rule) : bool :=
  let line_stripped := PyStr.strip line in
  let line_lower := PyStr.lower line in
  if PyStr.startswith line_stripped "//" || PyStr.startswith line_stripped "#" then true
  else if (0 <? context_window)%nat
          && in_comment_context line lines line_no context_window then true
  else if Nat.even (PyStr.count_char (ascii_of_nat 34) line)
          && Nat.even (PyStr.count_char "'" line)
          && PyStr.startswith line_stripped dq && PyStr.endswith line_stripped dq
          && negb (PyStr.str_in "${" line || PyStr.str_in "<%=" line
                   || PyStr.str_in "$!" line) then true
  else if any_in ["test"; "mock"; "stub"; "fake"; "dummy"; "example"] line_lower
          && PyStr.str_in "test" (PyStr.lower (rule_file_path rule)) then true
  else existsb (λ kw, masked_credential kw line) ["password"; "secret"; "key"].

(** [[i for i, line in enumerate(ls) if p(line)]] and [min] of such a list. *)
Definition positions (p : string → bool) (ls : list string) : list nat :=
  map fst (filter (λ x, p x.2 = true) (imap pair ls)).

Definition min_below (l : list nat) (bound : nat) : bool :=
  match l with
  | [] => false
  | x :: xs => (foldl Nat.min x xs <? bound)%nat
  end.

Definition sanitizer_keywords : list string :=
  ["escapehtml"; "htmlutils"; "stringescapeutils"; "owasp.encoder"; "sanitize";
   "filter"; "encode"; "encodeurl"; "encodeuri"; "escapexml"; "escapejavascript";
   "escapejava"; "preparedstatement"; "parameterized"; "setstring"; "setint";
   "setparameter"; "escapelike"; "quote"; "canonicalize"].

(** [_analyze_context(lines, line_no, context_window, rule)]. *)
Definition _analyze_context (lines : list string) (line_no context_window : nat)
    (rule : template_rule) : float :=
  if (context_window <=? 0)%nat || (line_no <? 1)%nat || (length lines <? line_no)%nat
  then 0.5
  else
    let context_start := (line_no - context_window - 1)%nat in
    let context_end := Nat.min (length lines) (line_no + context_window) in
    let context_lines := slice lines context_start context_end in
    let score := 0.5 in
    let context_text := PyStr.lower (PyStr.join " " context_lines) in
    let vul_type := PyStr.upper (or_else (vul_type rule) "") in
    let rule_name := PyStr.upper (or_else (name rule) "") in
    let has w := PyStr.str_in w context_text in
    let is_jsp_context :=
      existsb (λ l, PyStr.str_in "jsp" (PyStr.lower l) || PyStr.str_in "jspx" (PyStr.lower l))
        (take 5 context_lines) in
    let score :=
      raise_if (is_jsp_context
                && (PyStr.str_in "XSS" vul_type || PyStr.str_in "INJECTION" vul_type))
        0.1 score in
    let score :=
      if PyStr.str_in "SQLI" vul_type || PyStr.str_in "SQL" rule_name then
        let score :=
          raise_if (any_in ["select"; "from"; "where"; "insert"; "update"; "delete";
                            "executequery"; "preparedstatement"] context_text) 0.2 score in
        let score := raise_if (has "request.getparameter" || has "request.get") 0.2 score in
        raise_if (has "stringbuilder" || has "stringbuffer") 0.1 score
      else score in
    let score :=
      if PyStr.str_in "XSS" vul_type then
        let score :=
          raise_if (any_in ["out.print"; "response.getwriter"; "document.write"; "innerhtml"]
                      context_text) 0.2 score in
        let score := raise_if (has "request.getparameter") 0.2 score in
        lower_if (any_in ["escapehtml"; "encode"; "sanitize"; "escape"] context_text) 0.3 score
      else score in
    let score :=
      if PyStr.str_in "PATH_TRAVERSAL" vul_type || PyStr.str_in "FILE" rule_name then
        let score :=
          raise_if (any_in ["../"; "..\"; "getrealpath"; "file"; "filestream"] context_text)
            0.2 score in
        let score := raise_if (has "request.getparameter") 0.2 score in
        lower_if (any_in ["canonical"; "normalize"; "getcanonical"] context_text) 0.3 score
      else score in
    let score :=
      if PyStr.str_in "RCE" vul_type then
        let score :=
          raise_if (any_in ["runtime.exec"; "processbuilder"; "command"; "exec"] context_text)
            0.3 score in
        raise_if (has "request.getparameter") 0.2 score
      else score in
    let score :=
      if PyStr.str_in "UNSERIALIZE" vul_type || PyStr.str_in "DESERIALIZE" rule_name then
        let score :=
          raise_if (any_in ["readobject"; "objectinputstream"; "json.parse"; "fastjson"]
                      context_text) 0.2 score in
        raise_if (has "request.getinputstream" || has "request.getreader") 0.2 score
      else score in
    let score :=
      if PyStr.str_in "EL_INJECTION" vul_type || PyStr.str_in "JSP" rule_name then
        let score :=
          raise_if (any_in ["${"; "<%="; "param."; "requestscope"; "sessionScope"] context_text)
            0.15 score in
        raise_if (has "out.print" || has "response.getwriter") 0.1 score
      else score in
    let input_count :=
      count_in ["request.getparameter"; "request.get"; "request.getinputstream";
                "request.getreader"; "request.getattribute"; "session.getattribute";
                "param."; "header."; "cookie."] context_text in
    let score :=
      if (2 <=? input_count)%nat then score + 0.15
      else if (1 <=? input_count)%nat then score + 0.1
      else score in
    let sanitizer_count := count_in sanitizer_keywords context_text in
    let score :=
      if (2 <=? sanitizer_count)%nat then score - 0.4
      else if (1 <=? sanitizer_count)%nat then
        let sanitizer_positions :=
          positions (λ l, any_in sanitizer_keywords (PyStr.lower l)) context_lines in
        let current_pos := (line_no - context_start - 1)%nat in
        if min_below sanitizer_positions current_pos then score - 0.3 else score - 0.2
      else score in
    let score :=
      lower_if (any_in ["catch"; "exception"; "logger"; "log."; "printstacktrace"] context_text)
        0.1 score in
    let score :=
      if (has "<%" && has "%>") || PyStr.str_in "<jsp:" (PyStr.lower context_text) then
        raise_if (has "request.getparameter") 0.1 score
      else score in
    ChainScorer.clamp score.

(** The table [dangerous_patterns], in the order of the dict. *)
Definition dangerous_patterns : list (string * list string) :=
  [("SQLI", ["executequery"; "executestatement"; "preparedstatement"; "createstatement";
             "executeupdate"; "executebatch"; "query"; "update"; "jdbctemplate";
             "hibernate"]);
   ("XSS", ["print"; "println"; "write"; "innerhtml"; "getwriter"; "out.print";
            "response.getwriter"; "document.write"; "eval"]);
   ("RCE", ["exec"; "eval"; "runtime"; "processbuilder"; "getruntime"; "command"]);
   ("PATH_TRAVERSAL", ["../"; "..\"; "filestream"; "fileoutputstream"; "filewriter";
                       "fileinputstream"; "filereader"; "getrealpath"; "getcanonicalpath"]);
   ("XXE", ["documentbuilder"; "saxparser"; "dom4j"; "jdom"; "xpath"; "xmlreader"]);
   ("DESERIALIZE", ["readobject"; "objectinputstream"; "readresolve"; "readunsafe";
                    "fastjson"; "jackson"; "gson"; "xstream"])].

(** Steps 5 and 6 of [_calculate_confidence]: the block of seven lines around
    the hit. *)
Definition context_block_bonus (lines : list string) (line_no : nat) (score : float) : float :=
  let context_window := 7%nat in
  if (context_window <=? line_no)%nat
     && (Z.of_nat line_no <? Z.of_nat (length lines) - Z.of_nat context_window)%Z
  then
    let context_start := (line_no - context_window)%nat in
    let context_end := Nat.min (length lines) (line_no + context_window + 1) in
    let context_block := slice lines context_start context_end in
    let context_block_text := PyStr.lower (PyStr.join " " context_block) in
    let input_count :=
      count_in ["request"; "parameter"; "input"; "getparameter"; "getinputstream";
                "getattribute"; "getheader"; "getcookie"; "requestparam"; "pathvariable";
                "requestbody"; "queryparam"; "bodytomono"; "getquery"; "getpathinfo"]
        context_block_text in
    let output_count :=
      count_in ["response"; "output"; "print"; "write"; "send"; "setheader"; "getwriter";
                "sendredirect"; "forward"; "render"; "view"; "model"] context_block_text in
    let score :=
      if (2 <=? input_count)%nat && (1 <=? output_count)%nat then score + 0.3
      else if (1 <=? input_count)%nat && (1 <=? output_count)%nat then score + 0.2
      else if (2 <=? input_count)%nat then score + 0.15
      else if (1 <=? input_count)%nat || (1 <=? output_count)%nat then score + 0.1
      else score in
    let spring_count :=
      count_in ["@requestmapping"; "@getmapping"; "@postmapping"; "@putmapping";
                "@deletemapping"; "@requestparam"; "@pathvariable"; "@requestbody";
                "@modelattribute"; "@valid"; "@responsebody"; "@controller";
                "@restcontroller"; "@service"; "@repository"] context_block_text in
    if (2 <=? spring_count)%nat then score + 0.1
    else if (1 <=? spring_count)%nat then score + 0.05
    else score
  else score.

(** [_calculate_confidence(line, lines, line_no, rule, base_score)]. *)
Definition _calculate_confidence (line : string) (lines : list string) (line_no : nat)
    (rule : template_rule) (base_score : float) : float :=
  if negb (PyStr.truthy (Some line)) || bool_decide (lines = [])
     || (line_no <? 1)%nat || (length lines <? line_no)%nat
  then base_score
  else
    let score := base_score in
    let line_lower := PyStr.lower line in
    let vul_type := PyStr.upper (or_else (vul_type rule) "") in
    let keywords_in_line :=
      count_in ["request"; "getparameter"; "getinputstream"; "response"; "execute"]
        line_lower in
    let score := raise_if (2 <=? keywords_in_line)%nat 0.1 score in
    let score :=
      raise_if ((3 <? PyStr.count_char "(" line)%nat || (5 <? PyStr.count_char "." line)%nat)
        0.05 score in
    let score :=
      raise_if ((PyStr.str_in "+" line || PyStr.str_in "concat" line_lower
                 || PyStr.str_in "append" line_lower) && PyStr.str_in "SQL" vul_type)
        0.1 score in
    let score :=
      foldl (λ score vp,
               if PyStr.str_in vp.1 vul_type then
                 let pattern_count := count_in vp.2 line_lower in
                 if (2 <=? pattern_count)%nat then score + 0.25
                 else if (1 <=? pattern_count)%nat then score + 0.15
                 else score
               else score) score dangerous_patterns in
    let score := context_block_bonus lines line_no score in
    let score :=
      if PyStr.str_in "return" line_lower then
        raise_if (any_in ["request"; "parameter"; "input"; "getparameter"] line_lower) 0.1 score
      else score in
    let score :=
      if any_in ["list"; "array"; "map"; "set"; "collection"] line_lower then
        raise_if (PyStr.str_in "getparameter" line_lower || PyStr.str_in "request" line_lower)
          0.05 score
      else score in
    let score :=
      if any_in ["tostring"; "valueof"; "parse"; "convert"] line_lower then
        raise_if (PyStr.str_in "request" line_lower || PyStr.str_in "parameter" line_lower)
          0.05 score
      else score in
    ChainScorer.clamp score.

End Heuristics.

(** ** TemplateScanner: [_scan_template_files] *)
Module TemplateScanner.
Import Heuristics.

#[local] Open Scope float_scope.

(** A template finding.  [confidence] holds [group_conf] (0.8 for
    FORM_NO_CSRF); the source stores [round(group_conf, 2)] in the item. *)
Record finding := Finding {
  f_vul_type : option string;
  f_sink_desc : string;
  f_severity : string;
  f_sink : option string;
  f_call_chains : list (list string);
  f_chain_count : nat;
  f_confidence : float;
  f_patterns : list (option string);
  f_file_path : string;
  f_file_path_abs : string;
  f_group_lines : list nat;
  f_scan_mode : string }.

(** The flags of the rule bundle the scanner reads, and whether a progress
    callback was given. *)
Record config := Config {
  template_rules : list template_rule;
  lite_fast : bool;
  include_exts : list string;
  ignore_skip_dirs : bool;
  apply_must_substrings : bool;
  on_partial : bool }.

(** What [os.walk] yields: directories with their files; [content] is the
    list of lines read, [None] when the file is skipped (resource limits,
    size, read errors). *)
Record file := File {
  file_name : string;
  rel : string;
  file_path : string;
  content : option (list string) }.

Record directory := Directory {
  root : string;
  files : list file }.

(** The mutable locals of the scanner and [self.partial_results]; [polls]
    counts the calls of the stop predicate, [callbacks] those of [on_partial]. *)
Record scan := Scan {
  findings : list finding;
  partial_results : list finding;
  seen : gset (option string * string * nat);
  per_file_rule_count : gmap (option string * string) nat;
  file_vul_type_seen : gset (string * option string);
  partial_since_last : nat;
  regex_evals : nat;
  polls : nat;
  callbacks : nat }.

(** How a loop body ends: go on with the next element, or [break]. *)
Inductive flow := Next | Break.

Fixpoint loop {S A : Type} (body : S → A → S * flow) (st : S) (l : list A) : S :=
  match l with
  | [] => st
  | x :: l' =>
      match body st x with
      | (st', Break) => st'
      | (st', Next) => loop body st' l'
      end
  end.

Definition tick (st : scan) : scan :=
  Scan (findings st) (partial_results st) (seen st) (per_file_rule_count st)
    (file_vul_type_seen st) (partial_since_last st) (regex_evals st) (S (polls st))
    (callbacks st).

Definition set_regex_evals (n : nat) (st : scan) : scan :=
  Scan (findings st) (partial_results st) (seen st) (per_file_rule_count st)
    (file_vul_type_seen st) (partial_since_last st) n (polls st) (callbacks st).

Definition mark_seen (key : option string * string * nat) (st : scan) : scan :=
  Scan (findings st) (partial_results st) ({[key]} ∪ seen st) (per_file_rule_count st)
    (file_vul_type_seen st) (partial_since_last st) (regex_evals st) (polls st)
    (callbacks st).

(** [per_file_rule_count[fr_key] = count + 1] and
    [file_vul_type_seen.add(file_vul_key)]. *)
Definition mark_emitted (fr_key : option string * string) (count : nat)
    (file_vul_key : string * option string) (st : scan) : scan :=
  Scan (findings st) (partial_results st) (seen st)
    (<[fr_key := S count]> (per_file_rule_count st))
    ({[file_vul_key]} ∪ file_vul_type_seen st) (partial_since_last st) (regex_evals st)
    (polls st) (callbacks st).

(** [self.on_partial(self.partial_results)]. *)
Definition notify (st : scan) : scan :=
  Scan (findings st) (partial_results st) (seen st) (per_file_rule_count st)
    (file_vul_type_seen st) (partial_since_last st) (regex_evals st) (polls st)
    (S (callbacks st)).

Definition set_partial_since_last (n : nat) (st : scan) : scan :=
  Scan (findings st) (partial_results st) (seen st) (per_file_rule_count st)
    (file_vul_type_seen st) n (regex_evals st) (polls st) (callbacks st).

Definition append_item (item : finding) (st : scan) : scan :=
  Scan (findings st ++ [item]) (partial_results st ++ [item]) (seen st)
    (per_file_rule_count st) (file_vul_type_seen st) (S (partial_since_last st))
    (regex_evals st) (polls st) (callbacks st).

Definition MAX_FINDINGS : Z := 999999.
Definition PARTIAL_FLUSH_INTERVAL : nat := 50.
Definition CONTEXT_WINDOW : nat := 15.

Definition max_findings_reached (st : scan) : bool :=
  (MAX_FINDINGS <=? Z.of_nat (length (findings st)))%Z.

Definition BASE_HINTS : list string :=
  ["request.getparameter"; "out.print"; "out.println"; "${"; "<%="; "document.write";
   "response.setheader"; "response.addheader"; "pagecontext.getout"; "sendredirect";
   "http-equiv=" +:+ quoted "refresh"; "location.href";
   "<#"; "#include"; "#import"; "#assign"; "#if"; "#list"; "${";
   "$!"; "#set"; "#parse"; "#foreach";
   "th:"; "@{"].

(** [re.findall(r'[A-Za-z][A-Za-z0-9_.]{2,}', pat_str)], lowercased: the
    maximal runs of word characters from their first letter on, when at least
    three characters long.  [cur] is the run being read, reversed. *)
Definition is_alpha (c : ascii) : bool :=
  let n := nat_of_ascii c in
  (((65 <=? n) && (n <=? 90)) || ((97 <=? n) && (n <=? 122)))%nat.

Definition is_word (c : ascii) : bool :=
  let n := nat_of_ascii c in
  (is_alpha c || ((48 <=? n) && (n <=? 57)) || (n =? 95) || (n =? 46))%nat.

Definition flush_word (cur : string) : list string :=
  if (3 <=? String.length cur)%nat then [PyStr.lower (PyStr.rev cur)] else [].

Fixpoint hint_scan (s cur : string) : list string :=
  match s with
  | EmptyString => flush_word cur
  | String c t =>
      match cur with
      | EmptyString =>
          if is_alpha c then hint_scan t (String c EmptyString) else hint_scan t EmptyString
      | String _ _ =>
          if is_word c then hint_scan t (String c cur)
          else flush_word cur ++ hint_scan t EmptyString
      end
  end.

Definition _hint_words (pat_str : string) : list string := hint_scan pat_str EmptyString.

(** The hint set of a rule: empty under [force_regex]. *)
Definition rule_hints (rule : template_rule) : list string :=
  if force_regex rule then []
  else map PyStr.lower BASE_HINTS ++ concat (map _hint_words (patterns rule)).

(** [file.split('.')[-1].lower() if '.' in file else '']. *)
Definition ext_of (file_name : string) : string :=
  if PyStr.str_in "." file_name
  then PyStr.lower (PyStr.last_piece (PyStr.split "." file_name)) else "".

Definition java_related (ext : string) : bool :=
  bool_decide (ext ∈ ["java"; "jsp"; "jspx"; "class"]).

Definition is_jsp (ext : string) : bool := bool_decide (ext ∈ ["jsp"; "jspx"]).

(** [s.replace(old, new)] for a non-empty [old]. *)
Fixpoint replace_fuel (n : nat) (old new s : string) : string :=
  match n with
  | O => s
  | S n' =>
      match s with
      | EmptyString => EmptyString
      | String c t =>
          if PyStr.startswith s old
          then new +:+ replace_fuel n' old new (PyStr.drop (String.length old) s)
          else String c (replace_fuel n' old new t)
      end
  end.

Definition replace (old new s : string) : string := replace_fuel (String.length s) old new s.

Section Scanner.

(** The [re] module: whether a pattern passes the complexity check and
    compiles, and [re.compile(pat, re.I | re.S).search(line)]. *)
Variable re_ok : string → bool.
Variable re_search : string → string → bool.
(** The stop predicate, by the number of times it has been asked. *)
Variable should_stop : nat → bool.
Variable cfg : config.

Definition is_lite_mode : bool := lite_fast cfg.
Definition PER_FILE_RULE_CAP : nat := if is_lite_mode then 1%nat else 5%nat.
Definition MAX_REGEX_EVALS_PER_FILE : nat := if is_lite_mode then 500%nat else 2000%nat.
Definition scan_mode : string := if is_lite_mode then "lite" else "full".

Definition SKIP_DIRS : list string :=
  if ignore_skip_dirs cfg then []
  else ["/target/"; "/build/"; "/dist/"; "/out/"; "/node_modules/"].

Definition normal_ext (e : string) : string := PyStr.lstrip_char "." (PyStr.lower e).

(** The extensions under which a rule is entered in [ext_map]. *)
Definition rule_exts (r : template_rule) : list string :=
  let exts := map normal_ext (file_exts r) in
  match include_exts cfg with
  | [] => exts
  | _ => filter (λ e, e ∈ map normal_ext (include_exts cfg)) exts
  end.

(** [ext_map.get(ext, [])]: a rule once for each time it lists [ext]. *)
Definition ext_map (ext : string) : list template_rule :=
  concat (map (λ r, concat (map (λ e, if String.eqb e ext then [r] else []) (rule_exts r)))
            (template_rules cfg)).

(** [findings.append(item)], [self.partial_results.append(item)] and the
    flush every [PARTIAL_FLUSH_INTERVAL] items. *)
Definition publish (item : finding) (st : scan) : scan :=
  let st := append_item item st in
  if on_partial cfg && (PARTIAL_FLUSH_INTERVAL <=? partial_since_last st)%nat
  then set_partial_since_last 0 (notify st)
  else st.

Definition after_publish (st : scan) : scan * flow :=
  if max_findings_reached st then (st, Break) else (st, Next).

(** [rule.get('vul_type') or rule.get('name')]. *)
Definition rule_vul_type (rule : template_rule) : option string :=
  PyStr.por (vul_type rule) (name rule).

Definition form_item (rule : template_rule) (f : file) (i : nat) : finding :=
  Finding (rule_vul_type rule) (or_else (desc rule) "模板文本风险")
    (or_else (severity rule) "Medium") (name rule)
    [[rel f +:+ ":" +:+ pretty (i + 1)%nat]] 1 0.8 [name rule]
    (rel f) (file_path f) [(i + 1)%nat] scan_mode.

(** One step of the [while i < len(lines)] loop of the FORM_NO_CSRF rule. *)
Definition form_line (rule : template_rule) (f : file) (lines : list string)
    (st : scan) (il : nat * string) : scan * flow :=
  let i := il.1 in
  let line := il.2 in
  if PyStr.str_in "<form" line && PyStr.str_in ("method=" +:+ quoted "post") line then
    let window := PyStr.join "" (slice lines i (i + 50)) in
    if negb (PyStr.str_in ("name=" +:+ quoted "csrf") window)
       && negb (PyStr.str_in "_csrf" window) then
      let key := (name rule, rel f, (i + 1)%nat) in
      let fr_key := (name rule, rel f) in
      let file_vul_key := (rel f, rule_vul_type rule) in
      let count := default 0%nat (per_file_rule_count st !! fr_key) in
      if negb (bool_decide (key ∈ seen st)) && (count <? PER_FILE_RULE_CAP)%nat
         && negb (bool_decide (file_vul_key ∈ file_vul_type_seen st)) then
        after_publish
          (publish (form_item rule f i)
             (mark_emitted fr_key count file_vul_key (mark_seen key st)))
      else (st, Next)
    else (st, Next)
  else (st, Next).

(** The body of [for pat in pats] on line [i]. *)
Definition try_pattern (rule : template_rule) (f : file) (ext : string)
    (lines : list string) (i : nat) (line : string)
    (sh : scan * list (nat * float)) (pat : string)
  : scan * list (nat * float) * flow :=
  let st := sh.1 in
  let hit_lines := sh.2 in
  let stop := should_stop (polls st) in
  let st := tick st in
  if stop then (st, hit_lines, Break)
  else if (MAX_REGEX_EVALS_PER_FILE <=? regex_evals st)%nat then (st, hit_lines, Break)
  else
    let st := set_regex_evals (S (regex_evals st)) st in
    if negb (re_search pat line) then (st, hit_lines, Next)
    else
      let line_lower := PyStr.lower line in
      let ms := map PyStr.lower (must_substrings rule) in
      let es := map PyStr.lower (exclude_substrings rule) in
      if apply_must_substrings cfg
         && (any_in es line_lower
             || negb (forallb (λ x, PyStr.str_in x line_lower) ms))
      then (st, hit_lines, Next)
      else
        let is_fp := _is_false_positive line lines i CONTEXT_WINDOW rule in
        let base_conf := if is_jsp ext then 0.6 else 0.5 in
        if is_fp && PrimFloat.ltb (_calculate_confidence line lines i rule base_conf) 0.3
        then (st, hit_lines, Next)
        else
          let context_score := _analyze_context lines i CONTEXT_WINDOW rule in
          let threshold := if is_jsp ext then 0.25 else 0.3 in
          if PrimFloat.ltb context_score threshold then (st, hit_lines, Next)
          else
            let key := (name rule, rel f, i) in
            if bool_decide (key ∈ seen st) then (st, hit_lines, Break)
            else
              let st := mark_seen key st in
              let confidence := _calculate_confidence line lines i rule context_score in
              let confidence :=
                if is_jsp ext && PrimFloat.ltb 0.5 confidence
                then ChainScorer.pymin 1.0 (confidence + 0.05) else confidence in
              (st, hit_lines ++ [(i, confidence)], Break).

(** The body of [for i, line in enumerate(lines, start=1)]. *)
Definition scan_line (rule : template_rule) (f : file) (ext : string)
    (lines : list string) (pats hints : list string)
    (sh : scan * list (nat * float)) (il : nat * string)
  : scan * list (nat * float) * flow :=
  let st := sh.1 in
  let i := il.1 in
  let line := il.2 in
  let stop := should_stop (polls st) in
  let st := tick st in
  if stop then (st, sh.2, Break)
  else if (10000 <? Z.of_nat (String.length line))%Z then (st, sh.2, Next)
  else
    let line_lower := PyStr.lower line in
    if negb (force_regex rule) && negb (bool_decide (hints = []))
       && negb (any_in hints line_lower)
    then (st, sh.2, Next)
    else
      let count := default 0%nat (per_file_rule_count st !! (name rule, rel f)) in
      if (PER_FILE_RULE_CAP <=? count)%nat then (st, sh.2, Break)
      else (loop (try_pattern rule f ext lines i line) (st, sh.2) pats, Next).

(** [max(c for l, c in hit_lines if l == ln)].  Python raises on an empty
    sequence; [ln] is always taken from [hit_lines], so the first branch is
    never reached. *)
Definition conf_at (hit_lines : list (nat * float)) (ln : nat) : float :=
  match map snd (filter (λ h, h.1 = ln) hit_lines) with
  | [] => 0.0
  | c :: cs => foldl ChainScorer.pymax c cs
  end.

(** Folding adjacent line numbers into [(start, end, max_confidence)]. *)
Fixpoint fold_groups (hit_lines : list (nat * float)) (start_ln prev_ln : nat)
    (max_conf_in_group : float) (rest : list nat) : list (nat * nat * float) :=
  match rest with
  | [] => [(start_ln, prev_ln, max_conf_in_group)]
  | ln :: rest' =>
      if (ln =? prev_ln + 1)%nat then
        fold_groups hit_lines start_ln ln
          (ChainScorer.pymax max_conf_in_group (conf_at hit_lines ln)) rest'
      else
        (start_ln, prev_ln, max_conf_in_group)
          :: fold_groups hit_lines ln ln (conf_at hit_lines ln) rest'
  end.

Definition hit_lines_nums (hit_lines : list (nat * float)) : list nat :=
  merge_sort Nat.le (map fst hit_lines).

Definition groups_of (hit_lines : list (nat * float)) : list (nat * nat * float) :=
  match hit_lines_nums hit_lines with
  | [] => []
  | ln :: rest => fold_groups hit_lines ln ln (conf_at hit_lines ln) rest
  end.

(** The severity written into a grouped finding. *)
Definition adjust_severity (severity : string) (group_conf : float) : string :=
  if PrimFloat.ltb group_conf 0.5 && String.eqb severity "High" then "Medium"
  else if PrimFloat.ltb group_conf 0.3 then "Low"
  else severity.

Definition group_item (rule : template_rule) (f : file) (nums : list nat)
    (g : nat * nat * float) : finding :=
  let gs := g.1.1 in
  let ge := g.1.2 in
  let group_conf := g.2 in
  let range_str :=
    if (gs =? ge)%nat then rel f +:+ ":" +:+ pretty gs
    else rel f +:+ ":" +:+ pretty gs +:+ "-" +:+ pretty ge in
  let detail_lines := filter (λ ln, (gs ≤ ln ∧ ln ≤ ge)%nat) nums in
  Finding (rule_vul_type rule) (or_else (desc rule) "模板文本风险")
    (adjust_severity (or_else (severity rule) "Medium") group_conf) (name rule)
    [[range_str]] 1 group_conf [name rule] (rel f) (file_path f) detail_lines scan_mode.

(** The body of [for gs, ge, group_conf in groups]. *)
Definition emit_group (rule : template_rule) (f : file) (nums : list nat)
    (st : scan) (g : nat * nat * float) : scan * flow :=
  let fr_key := (name rule, rel f) in
  let count := default 0%nat (per_file_rule_count st !! fr_key) in
  if (PER_FILE_RULE_CAP <=? count)%nat then (st, Break)
  else
    let file_vul_key := (rel f, rule_vul_type rule) in
    if bool_decide (file_vul_key ∈ file_vul_type_seen st) then (st, Break)
    else
      after_publish
        (publish (group_item rule f nums g) (mark_emitted fr_key count file_vul_key st)).

(** The body of [for rule in rules_to_check]. *)
Definition scan_rule (f : file) (ext : string) (lines : list string)
    (st : scan) (rule : template_rule) : scan * flow :=
  if String.eqb (PyStr.upper (or_else (name rule) "")) "FORM_NO_CSRF" then
    let st := loop (form_line rule f lines) st (imap pair lines) in
    if max_findings_reached st then (st, Break) else (st, Next)
  else
    let pats := filter (λ p, re_ok p = true) (patterns rule) in
    let hints := rule_hints rule in
    let sh :=
      loop (scan_line rule f ext lines pats hints) (st, [])
        (imap (λ i l, (S i, l)) lines) in
    match sh.2 with
    | [] => (sh.1, Next)
    | _ =>
        (loop (emit_group rule f (hit_lines_nums sh.2)) sh.1 (groups_of sh.2), Next)
    end.

(** The body of [for file in files]. *)
Definition scan_file (st : scan) (f : file) : scan * flow :=
  let ext := ext_of (file_name f) in
  if bool_decide (ext_map ext = []) && negb (java_related ext) then (st, Next)
  else
    match content f with
    | None => (st, Next)
    | Some lines =>
        let st := set_regex_evals 0 st in
        let rules_to_check := if java_related ext then template_rules cfg else ext_map ext in
        let st := loop (scan_rule f ext lines) st rules_to_check in
        if max_findings_reached st then (st, Break) else (st, Next)
    end.

(** The body of [for root, _, files in os.walk(self.project_path)]. *)
Definition scan_dir (st : scan) (d : directory) : scan :=
  let norm_root := replace "\" "/" (replace "\\" "/" (root d)) in
  if any_in SKIP_DIRS norm_root then st else loop scan_file st (files d).

(** [_scan_template_files()], run with [self.partial_results = partial0].
    [findings] of the result is the returned list. *)
Definition _scan_template_files (walk : list directory) (partial0 : list finding) : scan :=
  let st := Scan [] partial0 ∅ ∅ ∅ 0 0 0 0 in
  match template_rules cfg with
  | [] => st
  | _ =>
      let st := foldl scan_dir st walk in
      let st :=
        if on_partial cfg && (0 <? partial_since_last st)%nat then notify st else st in
      if on_partial cfg then notify st else st
  end.

End Scanner.

(** A regex made of letters and digits only, under [re.I]: a
    case-insensitive substring test. *)
Definition word_search (pat line : string) : bool :=
  PyStr.str_in (PyStr.lower pat) (PyStr.lower line).

End TemplateScanner.

(** ** AstBuilder: the class index and the forward call graph

    A parsed compilation unit is given by what iterating over it yields: the
    list of [(path, node)] pairs in walk order, [path] being the ancestors of
    [node], outermost first.  Only the node classes the analyzer tests for
    carry data; anything else on a path, a Python list included, is [Other]. *)
Module AstBuilder.
Import ChainFinder.

(** A [FormalParameter]: its [name] and [type.name]. *)
Record formal_parameter := FormalParameter {
  param_name : string;
  param_type : string }.

(** What the analyzer reads of a [MethodDeclaration]. *)
Record method_declaration := Method {
  method_name : string;
  parameters : list formal_parameter;
  annotations : list string }.

Inductive node :=
| ClassDeclaration (name : string) (methods : list method_declaration)
| InterfaceDeclaration (name : string)
| EnumDeclaration (name : string)
| MethodDeclaration (m : method_declaration)
| MethodInvocation (qualifier : option string) (member : string)
| LocalVariableDeclaration (type_name : string) (declarators : list string)
| FieldDeclaration (type_name : string) (declarators : list string)
| ClassCreator (type_name : string)
| ClassReference (type_name : string)
| Other.

Definition tree := list (list node * node).

(** The dictionaries [build_ast] fills, and the counter [_parsed_files]. *)
Record index := Index {
  class_to_file_map : gmap string string;
  class_methods : gmap string class_record;
  call_graph : gmap string (list string);
  _parsed_files : nat }.

Definition MAPPING_ANNOTATIONS : list string :=
  ["GetMapping"; "PostMapping"; "RequestMapping"; "PutMapping"; "DeleteMapping";
   "Path"; "GET"; "POST"; "PUT"; "DELETE"].

(** The inner loop over [method_node.annotations]. *)
Definition has_mapping (m : method_declaration) : bool :=
  existsb (λ annotation,
             bool_decide (PyStr.lstrip_char "@" annotation ∈ MAPPING_ANNOTATIONS))
    (annotations m).

(** The dictionary [methods_info] of one class: a later method of the same
    name overwrites an earlier one. *)
Definition methods_info (ms : list method_declaration) : gmap string method_info :=
  foldl (λ acc m,
           <[method_name m := MethodInfo (0 <? length (parameters m))%nat (has_mapping m)]> acc)
    ∅ ms.

(** [_extract_class_info(code_tree, file_path)]. *)
Definition _extract_class_info (ix : index) (code_tree : tree) (file_path : string) : index :=
  foldl (λ ix pn,
           match pn.2 with
           | ClassDeclaration class_name ms =>
               Index (<[class_name := file_path]> (class_to_file_map ix))
                     (<[class_name := ClassRecord file_path (methods_info ms)]>
                        (class_methods ix))
                     (call_graph ix) (_parsed_files ix)
           | _ => ix
           end)
    ix code_tree.

(** [get_variable_symbols]: variable, field and parameter names to the name
    of their declared type, for the whole file. *)
Definition get_variable_symbols (file_code_tree : tree) : gmap string string :=
  foldl (λ variable_symbols pn,
           match pn.2 with
           | LocalVariableDeclaration var_type declarators
           | FieldDeclaration var_type declarators =>
               foldl (λ acc d, <[d := var_type]> acc) variable_symbols declarators
           | MethodDeclaration m =>
               foldl (λ acc p, <[param_name p := param_type p]> acc)
                 variable_symbols (parameters m)
           | _ => variable_symbols
           end)
    ∅ file_code_tree.

Definition is_type_declaration (n : node) : bool :=
  match n with
  | ClassDeclaration _ _ | InterfaceDeclaration _ | EnumDeclaration _ => true
  | _ => false
  end.

Definition is_method_declaration (n : node) : bool :=
  match n with MethodDeclaration _ => true | _ => false end.

(** [find_parent_class]: the innermost type declaration on the path. *)
Definition find_parent_class (path : list node) : option node :=
  List.find is_type_declaration (reverse path).

Definition declared_name (n : node) : string :=
  match n with
  | ClassDeclaration name _ | InterfaceDeclaration name | EnumDeclaration name => name
  | MethodDeclaration m => method_name m
  | _ => "unknown"
  end.

(** [_get_current_method_from_path]. *)
Definition _get_current_method_from_path (path : list node) : string :=
  match List.find is_method_declaration (reverse path) with
  | Some n =>
      let cls_name :=
        match find_parent_class path with
        | Some class_node => declared_name class_node
        | None => "unknown"
        end in
      cls_name +:+ ":" +:+ declared_name n
  | None => "unknown:unknown"
  end.

(** [c.isupper()] for one ASCII character. *)
Definition isupper (c : ascii) : bool :=
  let n := nat_of_ascii c in ((65 <=? n) && (n <=? 90))%nat.

(** The default handed to [variable_symbols.get]: the first dotted piece of
    the qualifier when it starts with a capital.  [None] is the [IndexError]
    of [split('.')[0][0]] on a qualifier that starts with a dot. *)
Definition qualifier_default (qualifier : string) : option string :=
  if PyStr.str_in "." qualifier then
    match hd EmptyString (PyStr.split "." qualifier) with
    | EmptyString => None
    | String c _ as first => Some (if isupper c then first else qualifier)
    end
  else Some qualifier.

(** [l[-1]] of a list of signatures. *)
Definition last_callee (l : list string) : string := List.last l EmptyString.

(** The receiver type of an unqualified call: the created or referenced
    class when the parent is one, else the receiver of the previous call
    recorded for the same caller. *)
Definition unqualified_base_type (cg : gmap string (list string)) (path : list node)
    (caller : string) : string :=
  let parent_node := if (1 <? length path)%nat then last (removelast path) else None in
  match parent_node with
  | Some (ClassCreator type_name) => type_name
  | Some (ClassReference type_name) => type_name
  | _ =>
      match cg !! caller with
      | Some ((_ :: _) as callees) => hd EmptyString (PyStr.split ":" (last_callee callees))
      | _ => "[!]base_type解析失败"
      end
  end.

(** The callee signature of one [MethodInvocation]; [None] when computing it
    raises. *)
Definition callee_of (variable_symbols : gmap string string) (cg : gmap string (list string))
    (path : list node) (caller : string) (qualifier : option string) (member : string)
  : option string :=
  if PyStr.truthy qualifier then
    let q := default EmptyString qualifier in
    match qualifier_default q with
    | None => None
    | Some dflt =>
        let base_type := default dflt (variable_symbols !! q) in
        let base_type := hd EmptyString (PyStr.split "<" base_type) in
        Some (base_type +:+ ":" +:+ member)
    end
  else Some (unqualified_base_type cg path caller +:+ ":" +:+ member).

(** [self.call_graph.setdefault(caller, []).append(callee)]. *)
Definition record_call (cg : gmap string (list string)) (caller callee : string)
  : gmap string (list string) :=
  <[caller := (default [] (cg !! caller) ++ [callee])%list]> cg.

(** The loop of [_build_call_graph] over the method invocations.  The
    boolean tells whether the loop ran to its end; the graph is the one
    reached, an exception leaving the earlier calls recorded. *)
Fixpoint record_calls (variable_symbols : gmap string string) (cg : gmap string (list string))
    (nodes : tree) : gmap string (list string) * bool :=
  match nodes with
  | [] => (cg, true)
  | (path, MethodInvocation qualifier member) :: rest =>
      let caller := _get_current_method_from_path path in
      match callee_of variable_symbols cg path caller qualifier member with
      | None => (cg, false)
      | Some callee => record_calls variable_symbols (record_call cg caller callee) rest
      end
  | _ :: rest => record_calls variable_symbols cg rest
  end.

Definition _build_call_graph (cg : gmap string (list string)) (file_code_tree : tree)
  : gmap string (list string) * bool :=
  record_calls (get_variable_symbols file_code_tree) cg file_code_tree.

(** The locked block of [parse_single_file] for a file that parsed: the
    counter moves only when neither step raised. *)
Definition parse_single_file (ix : index) (file_path : string) (code_tree : tree) : index :=
  let ix := _extract_class_info ix code_tree file_path in
  let (cg, completed) := _build_call_graph (call_graph ix) code_tree in
  Index (class_to_file_map ix) (class_methods ix) cg
        (if completed then S (_parsed_files ix) else _parsed_files ix).

(** The dictionaries of a fresh [Analyzer]. *)
Definition fresh : index := Index ∅ ∅ ∅ 0.

(** The parsing loop of [build_ast] over the files that parsed, in the
    order in which they took the lock. *)
Definition parse_all (ix : index) (parsed : list (string * tree)) : index :=
  foldl (λ ix ft, parse_single_file ix ft.1 ft.2) ix parsed.

(** [build_ast] on a fresh analyzer, up to the final
    [_build_reverse_call_graph]: what [_trace_back] then reads. *)
Definition build_ast (parsed : list (string * tree)) : analyzer :=
  let ix := parse_all fresh parsed in
  Analyzer (class_methods ix) (CallGraph._build_reverse_call_graph (call_graph ix)).

End AstBuilder.

(** ** CodeBlock: cutting a method body out of a source file *)
Module CodeBlock.

(** [line.count('{') - line.count('}')]. *)
Definition brace_delta (line : string) : Z :=
  Z.of_nat (PyStr.count_char "{" line) - Z.of_nat (PyStr.count_char "}" line).

(** The loop of [_extract_code_block] over the remaining lines, from the
    locals [brace_depth] and [started]; the result is what it appends to
    [code_lines]. *)
Fixpoint block_loop (lines : list string) (brace_depth : Z) (started : bool)
  : list string :=
  match lines with
  | [] => []
  | line :: rest =>
      let brace_depth' :=
        if negb started && PyStr.str_in "{" line then (brace_depth + brace_delta line)%Z
        else if started then (brace_depth + brace_delta line)%Z
        else brace_depth in
      let started' := (negb started && PyStr.str_in "{" line) || started in
      if started' && (brace_depth' =? 0)%Z then [line]
      else line :: block_loop rest brace_depth' started'
  end.

(** [code_lines] when the loop is left, for [0 <= start_index]. *)
Definition code_lines (lines : list string) (start_index : nat) : list string :=
  block_loop (drop start_index lines) 0 false.

(** [_extract_code_block(lines, start_index)]. *)
Definition _extract_code_block (lines : list string) (start_index : nat) : string :=
  PyStr.join "" (code_lines lines start_index).

End CodeBlock.

(** ** VulnFinder: the call-chain pass of [find_vulnerabilities] *)
Module VulnFinder.
Import ChainFinder.

#[local] Open Scope float_scope.

(** An entry of [sink_rules]. *)
Record sink_rule := SinkRule {
  sink_name : option string;
  sink_desc : option string;
  severity_level : option string;
  sinks : list string }.

(** What the full mode adds to an item: [confidence], [sanitized_by],
    [sources] and [patterns]. *)
Record enrichment := Enrichment {
  confidence : float;
  sanitized_by : list string;
  sources : list string;
  patterns : list string }.

(** An item of the call-chain pass; [enriched] is [None] in fast mode. *)
Record item := Item {
  vul_type : option string;
  item_sink_desc : option string;
  severity : option string;
  sink : string;
  call_chains : list (list string);
  chain_count : nat;
  enriched : option enrichment }.

(** [results], [self.partial_results], the number of polls of the stop
    predicate and of calls of [on_partial]. *)
Record progress := Progress {
  results : list item;
  partial_results : list item;
  polls : nat;
  callbacks : nat }.

(** The polls [search_loop] makes: the counter when the loop is left. *)
Fixpoint search_polls (a : analyzer) (should_stop : nat -> bool) (eff : Z)
    (fuel polls : nat) (st : search) : nat :=
  match queue st with
  | [] => polls
  | cur :: rest =>
      match fuel with
      | O => polls
      | S fuel' =>
          if should_stop polls then S polls
          else
            let st := Search (paths st) (visited_states st) rest in
            if (eff <=? current_depth cur)%Z then
              search_polls a should_stop eff fuel' (S polls) st
            else
              match current_path cur with
              | [] => S polls
              | current_sink :: _ =>
                  let caller_methods :=
                    CallGraph.get_list (reverse_call_graph a) current_sink in
                  match for_each (visit_caller a cur) st caller_methods with
                  | None => S polls
                  | Some st' => search_polls a should_stop eff fuel' (S polls) st'
                  end
              end
      end
  end.

Section Pass.
Variable a : analyzer.
Variable rs : RuleMatcher.rules.
(** [_detect_sql_concat_text], which reads the sources of the project. *)
Variable sql_concat_text : list string → bool.
Variable should_stop : nat → bool.
(** [self.rules.get('depth')], [self.rules.get('__lite_fast__')] and whether a
    callback was given. *)
Variable rules_depth : option Z.
Variable fast : bool.
Variable on_partial : bool.

Definition depth : Z := configured_depth rules_depth.

(** [max(c['confidence'] for c in enriched)] of a non-empty list. *)
Definition max_confidence (scores : list float) : float :=
  match scores with
  | [] => 0.0
  | c :: cs => foldl ChainScorer.pymax c cs
  end.

(** [list(set(sum([...], [])))]. *)
Definition merged (ls : list (list string)) : list string :=
  CallGraph.list_of_set (concat ls).

(** The enrichment of the chains of one sink point.  None of the four
    functions raises here, so the fall-back values of the handler around them
    are never used. *)
Definition enrich (rule : sink_rule) (paths : list (list string)) : enrichment :=
  Enrichment
    (max_confidence
       (map (λ chain,
               ChainScorer._score_chain rs (sql_concat_text chain) chain
                 (default "" (sink_name rule))) paths))
    (merged (map (RuleMatcher._is_sanitized rs) paths))
    (merged (map (RuleMatcher._find_sources rs) paths))
    (merged (map (λ chain, RuleMatcher._get_pattern_hits rs (sql_concat_text chain) chain)
               paths)).

Definition make_item (rule : sink_rule) (sink_point : string)
    (paths : list (list string)) : item :=
  Item (sink_name rule) (sink_desc rule) (severity_level rule) sink_point paths
    (length paths) (if fast then None else Some (enrich rule paths)).

(** [results.append(item)], [self.partial_results.append(item)] and the
    callback. *)
Definition publish (x : item) (st : progress) : progress :=
  Progress (results st ++ [x]) (partial_results st ++ [x]) (polls st)
    (if on_partial then S (callbacks st) else callbacks st).

(** The body of [for method in methods.split('|')].  The search shares the
    stop predicate, so its polls are counted on; an exception in it, like
    an empty result, moves on to the next method. *)
Definition visit_method (rule : sink_rule) (class_name : string)
    (st : progress) (method : string) : progress * TemplateScanner.flow :=
  let stop := should_stop (polls st) in
  let st := Progress (results st) (partial_results st) (S (polls st)) (callbacks st) in
  if stop then (st, TemplateScanner.Break)
  else
    let sink_point := class_name +:+ ":" +:+ method in
    let stop_from n := should_stop (polls st + n)%nat in
    let fuel := enough_fuel a depth in
    let outcome := _trace_back a stop_from sink_point depth fuel in
    let polls' :=
      (polls st + search_polls a stop_from (effective_max_depth depth) fuel 0
                    (Search [] ∅ [Entry [sink_point] 0 {[sink_point]}]))%nat in
    let st := Progress (results st) (partial_results st) polls' (callbacks st) in
    match outcome with
    | Returned ((_ :: _) as paths) => (publish (make_item rule sink_point paths) st,
                                     TemplateScanner.Next)
    | _ => (st, TemplateScanner.Next)
    end.

(** The body of [for sink in rule.get('sinks', [])]: an entry that does not
    split into two pieces at [':'] raises and is passed over. *)
Definition visit_sink (rule : sink_rule) (st : progress) (entry : string)
  : progress * TemplateScanner.flow :=
  let stop := should_stop (polls st) in
  let st := Progress (results st) (partial_results st) (S (polls st)) (callbacks st) in
  if stop then (st, TemplateScanner.Break)
  else
    match PyStr.split ":" entry with
    | [class_name; methods] =>
        let class_name := RuleMatcher.short_name class_name in
        (TemplateScanner.loop (visit_method rule class_name) st (PyStr.split "|" methods),
         TemplateScanner.Next)
    | _ => (st, TemplateScanner.Next)
    end.

(** The body of [for rule in self.rules.get('sink_rules', [])]. *)
Definition visit_rule (st : progress) (rule : sink_rule)
  : progress * TemplateScanner.flow :=
  let stop := should_stop (polls st) in
  let st := Progress (results st) (partial_results st) (S (polls st)) (callbacks st) in
  if stop then (st, TemplateScanner.Break)
  else (TemplateScanner.loop (visit_sink rule) st (sinks rule), TemplateScanner.Next).

(** Part 1 of [find_vulnerabilities], run with
    [self.partial_results = partial0]. *)
Definition find_chains (sink_rules : list sink_rule) (partial0 : list item) : progress :=
  TemplateScanner.loop visit_rule (Progress [] partial0 0 0) sink_rules.

End Pass.

End VulnFinder.

(** ** CacheManager: the in-memory cache of [utils/performance.py]

    [self.cache] is a dict in insertion order from keys to
    [(value, expire_time)]; the clock is an argument of each call. *)
Module CacheManager.

#[local] Open Scope float_scope.

(** The conversion Python makes of the [int] operand of [float + int]: the
    nearest binary64 number, ties to even; [None] is the [OverflowError]
    raised for an [int] that rounds beyond the largest one. *)
Definition float_of_int (z : Z) : option float :=
  let f := SF2Prim (SpecFloat.binary_normalize FloatOps.prec FloatOps.emax z 0 false) in
  if PrimFloat.is_infinity f then None else Some f.

(** The exceptions that leave a call of the manager. *)
Inductive exn := ValueError | OverflowError.

Section Manager.
Variable Value : Type.

Record manager := Manager {
  cache : AstCache.cache Value;
  max_size : Z;
  ttl : Z }.

(** [min(self.cache.keys(), key=lambda k: self.cache[k][1])]: the first key
    with the least expiry time; [None] is the [ValueError] of [min] on an
    empty dict. *)
Definition oldest_key (d : AstCache.cache Value) : option string :=
  match d with
  | [] => None
  | (k, (_, t)) :: rest =>
      Some (foldl (λ best e, if PrimFloat.ltb e.2.2 best.2 then (e.1, e.2.2) else best)
              (k, t) rest).1
  end.

(** [get(key)] at the clock value [now]: the value, and the manager after
    an expired entry has been dropped. *)
Definition get (m : manager) (key : string) (now : float) : option Value * manager :=
  match AstCache.dict_get (cache m) key with
  | None => (None, m)
  | Some (value, expire_time) =>
      if PrimFloat.ltb expire_time now
      then (None, Manager (AstCache.dict_del (cache m) key) (max_size m) (ttl m))
      else (Some value, m)
  end.

(** [ttl or self.ttl]. *)
Definition ttl_or (ttl_arg : option Z) (dflt : Z) : Z :=
  match ttl_arg with
  | Some t => if (t =? 0)%Z then dflt else t
  | None => dflt
  end.

(** [set(key, value, ttl)] at the clock value [now]: the manager the call
    leaves behind, and the exception it raises, if any.  [min] raises on an
    empty dict before anything is changed; the sum [time.time() + ttl] raises
    after the eviction, which is kept. *)
Definition set (m : manager) (key : string) (value : Value) (ttl_arg : option Z)
    (now : float) : manager * option exn :=
  let kept :=
    if (max_size m <=? Z.of_nat (length (cache m)))%Z then
      match oldest_key (cache m) with
      | None => None
      | Some oldest => Some (AstCache.dict_del (cache m) oldest)
      end
    else Some (cache m) in
  match kept with
  | None => (m, Some ValueError)
  | Some d =>
      match float_of_int (ttl_or ttl_arg (ttl m)) with
      | None => (Manager d (max_size m) (ttl m), Some OverflowError)
      | Some seconds =>
          let expire_time := now + seconds in
          (Manager (AstCache.dict_set d key (value, expire_time)) (max_size m) (ttl m),
           None)
      end
  end.

(** [clear()] and [delete(key)]. *)
Definition clear (m : manager) : manager := Manager [] (max_size m) (ttl m).

Definition delete (m : manager) (key : string) : manager :=
  Manager (AstCache.dict_del (cache m) key) (max_size m) (ttl m).

(** A call of the manager, and a sequence of calls. *)
Inductive call :=
| CallGet (key : string) (now : float)
| CallSet (key : string) (value : Value) (ttl_arg : option Z) (now : float)
| CallClear
| CallDelete (key : string).

Definition step (m : manager) (c : call) : manager * option exn :=
  match c with
  | CallGet key now => ((get m key now).2, None)
  | CallSet key value ttl_arg now => set m key value ttl_arg now
  | CallClear => (clear m, None)
  | CallDelete key => (delete m key, None)
  end.

(** The calls are made in turn until one raises. *)
Fixpoint run (m : manager) (calls : list call) : manager * option exn :=
  match calls with
  | [] => (m, None)
  | c :: calls' =>
      match step m c with
      | (m', None) => run m' calls'
      | (m', Some e) => (m', Some e)
      end
  end.

(** The time-to-live of every [set] among the calls converts to a float, for
    a manager whose own is [dflt]. *)
Definition ttl_converts (dflt : Z) (c : call) : bool :=
  match c with
  | CallSet _ _ ttl_arg _ => bool_decide (is_Some (float_of_int (ttl_or ttl_arg dflt)))
  | _ => true
  end.

End Manager.

Arguments Manager {Value}.
Arguments cache {Value}.
Arguments max_size {Value}.
Arguments ttl {Value}.
Arguments oldest_key {Value}.
Arguments get {Value}.
Arguments set {Value}.
Arguments clear {Value}.
Arguments delete {Value}.
Arguments CallGet {Value}.
Arguments CallSet {Value}.
Arguments CallClear {Value}.
Arguments CallDelete {Value}.
Arguments step {Value}.
Arguments ttl_converts {Value}.
Arguments run {Value}.

(** [cache_manager = CacheManager(max_size=2000, ttl=600)]. *)
Definition cache_manager (Value : Type) : manager Value := Manager [] 2000 600.

End CacheManager.

Module CallGraphFacts.
Import CallGraph.

Lemma add_edge_spec caller rev callee c e :
  c ∈ get_list (add_edge caller rev callee) e ↔
  c ∈ get_list rev e ∨ (c = caller ∧ e = callee).
Proof.
  unfold get_list, add_edge.
  destruct (decide (callee = e)) as [->|Hne].
  - rewrite lookup_insert_eq. simpl. rewrite elem_of_app, list_elem_of_singleton.
    naive_solver.
  - rewrite lookup_insert_ne by done. naive_solver.
Qed.

Lemma add_edges_spec caller callees : ∀ rev c e,
  c ∈ get_list (foldl (add_edge caller) rev callees) e ↔
  c ∈ get_list rev e ∨ (c = caller ∧ e ∈ callees).
Proof.
  induction callees as [|x xs IH]; intros rev c e; simpl.
  - rewrite elem_of_nil. naive_solver.
  - rewrite IH, add_edge_spec, elem_of_cons. naive_solver.
Qed.

Lemma invert_edges_spec items : ∀ rev c e,
  c ∈ get_list (invert_edges items rev) e ↔
  c ∈ get_list rev e ∨ ∃ callees, (c, callees) ∈ items ∧ e ∈ callees.
Proof.
  unfold invert_edges.
  induction items as [|[k v] items IH]; intros rev c e; simpl.
  - split; [auto|]. intros [H|(x & H & _)]; [done|]. by apply elem_of_nil in H.
  - rewrite IH, add_edges_spec. split.
    + intros [[H|[-> H]]|(x & H1 & H2)].
      * by left.
      * right. exists v. split; [left|done].
      * right. exists x. split; [by right|done].
    + intros [H|(x & H1 & H2)]; [by left; left|].
      apply elem_of_cons in H1 as [[= -> ->]|H1].
      * left. right. done.
      * right. eauto.
Qed.

Lemma list_of_set_elem l c : c ∈ list_of_set l ↔ c ∈ l.
Proof. unfold list_of_set. rewrite elem_of_elements, elem_of_list_to_set. done. Qed.

Lemma list_of_set_NoDup l : NoDup (list_of_set l).
Proof. unfold list_of_set. apply NoDup_elements. Qed.

(** C3: the reverse call graph is the transpose of the forward call graph,
    and none of its caller lists has a duplicate. *)
Theorem reverse_call_graph_is_transpose (call_graph : gmap string (list string)) :
  (∀ c e : string,
      e ∈ get_list call_graph c ↔
      c ∈ get_list (_build_reverse_call_graph call_graph) e) ∧
  (∀ (e : string) (callers : list string),
      _build_reverse_call_graph call_graph !! e = Some callers → NoDup callers).
Proof.
  split.
  - intros c e. unfold _build_reverse_call_graph.
    assert (Hfmap : ∀ m : gmap string (list string),
               c ∈ get_list (list_of_set <$> m) e ↔ c ∈ get_list m e).
    { intros m. unfold get_list. rewrite lookup_fmap.
      destruct (m !! e); simpl; [apply list_of_set_elem|done]. }
    rewrite Hfmap, invert_edges_spec. unfold get_list at 2.
    rewrite lookup_empty. simpl. split.
    + intros H. right. unfold get_list in H.
      destruct (call_graph !! c) as [l|] eqn:E; simpl in H.
      * exists l. split; [by apply elem_of_map_to_list|done].
      * by apply elem_of_nil in H.
    + intros [H|(l & H1 & H2)]; [by apply elem_of_nil in H|].
      apply elem_of_map_to_list in H1. unfold get_list. by rewrite H1.
  - intros e callers. unfold _build_reverse_call_graph. rewrite lookup_fmap.
    destruct (invert_edges _ _ !! e); simpl; [|done].
    intros [= <-]. apply list_of_set_NoDup.
Qed.

End CallGraphFacts.

Module ChainFinderFacts.
Import ChainFinder.

Section SearchInvariant.
Variable a : analyzer.
Variable sink : string.
Variable eff : Z.

(** What holds of every queued entry. *)
Definition good_entry (e : entry) : Prop :=
  NoDup (current_path e) ∧
  last (current_path e) = Some sink ∧
  (∀ x, x ∈ path_nodes e ↔ x ∈ current_path e) ∧
  Z.of_nat (length (current_path e)) = (current_depth e + 1)%Z.

(** What holds of every emitted chain. *)
Definition good_chain (chain : list string) : Prop :=
  NoDup chain ∧
  (∃ first, head chain = Some first ∧ is_entry_point a first = Some true) ∧
  last chain = Some sink ∧
  (Z.of_nat (length chain) ≤ eff + 1)%Z.

Definition search_inv (st : search) : Prop :=
  Forall good_entry (queue st) ∧ Forall good_chain (paths st).

Definition measure (st : search) : nat :=
  size (state_space a eff ∖ visited_states st) + length (queue st).

Lemma good_entry_depth e : good_entry e → (0 ≤ current_depth e)%Z.
Proof.
  intros (_ & Hl & _ & Hn). destruct (current_path e); [done|].
  simpl in Hn. lia.
Qed.

Lemma last_cons_Some (x : string) l y : last l = Some y → last (x :: l) = Some y.
Proof. destruct l; [done|]. simpl. done. Qed.

Lemma visit_caller_inv cur st caller st' :
  good_entry cur → (current_depth cur < eff)%Z → search_inv st →
  visit_caller a cur st caller = Some st' → search_inv st'.
Proof.
  intros (Hnd & Hl & Hn & Hlen) Hd [Hq Hp]. unfold visit_caller.
  case_bool_decide as Hin; [by intros [= <-]|].
  case_bool_decide as Hvis; [by intros [= <-]|].
  destruct (PyStr.split1 ":" caller) as [|cls [|mtd [|? ?]]]; try done.
  destruct (is_has_parameters a cls mtd); simpl; [|by intros [= <-]].
  destruct (is_entry_point a caller) as [[|]|] eqn:Hep; [| |done]; intros [= <-].
  - split; [done|]. simpl. apply Forall_app. split; [done|].
    apply Forall_singleton. repeat split.
    + apply NoDup_cons. split; [by rewrite <- Hn|done].
    + exists caller. done.
    + by apply last_cons_Some.
    + simpl length. lia.
  - split; [|done]. simpl. apply Forall_app. split; [done|].
    apply Forall_singleton. repeat split; simpl.
    + apply NoDup_cons. split; [by rewrite <- Hn|done].
    + by apply last_cons_Some.
    + rewrite elem_of_union, elem_of_singleton, elem_of_cons, Hn. tauto.
    + rewrite elem_of_union, elem_of_singleton, elem_of_cons, Hn. tauto.
    + lia.
Qed.

Lemma for_each_inv cur callers : ∀ st st',
  good_entry cur → (current_depth cur < eff)%Z → search_inv st →
  for_each (visit_caller a cur) st callers = Some st' → search_inv st'.
Proof.
  induction callers as [|c cs IH]; intros st st' Hc Hd Hi; simpl.
  - by intros [= <-].
  - destruct (visit_caller a cur st c) as [st1|] eqn:E; [|done].
    apply IH; eauto using visit_caller_inv.
Qed.

Lemma search_loop_inv should_stop fuel : ∀ polls st ps,
  search_inv st → search_loop a should_stop eff fuel polls st = Returned ps →
  Forall good_chain ps.
Proof.
  induction fuel as [|fuel IH]; intros polls st ps [Hq Hp]; simpl.
  - destruct (queue st); [by intros [= <-]|done].
  - destruct (queue st) as [|cur rest] eqn:Eq; [by intros [= <-]|].
    destruct (should_stop polls); [by intros [= <-]|].
    apply Forall_cons in Hq as [Hcur Hrest].
    destruct (eff <=? current_depth cur)%Z eqn:Hd.
    + apply IH. by split.
    + apply Z.leb_gt in Hd.
      destruct (current_path cur) as [|current_sink ?] eqn:Ep; [done|].
      destruct (for_each _ _ _) as [st'|] eqn:Ef; [|done].
      apply IH. eapply for_each_inv; [exact Hcur|exact Hd| |exact Ef].
      by split.
Qed.

(** *** Termination: the marked states only grow inside a finite space *)

Lemma size_mark (U V : gset (string * Z)) k :
  k ∈ U → k ∉ V → S (size (U ∖ ({[k]} ∪ V))) = size (U ∖ V).
Proof.
  intros HU HV.
  assert (U ∖ V = {[k]} ∪ U ∖ ({[k]} ∪ V)) as ->.
  { apply set_eq. intros x. rewrite elem_of_union, !elem_of_difference,
      elem_of_union, elem_of_singleton.
    destruct (decide (x = k)) as [->|]; naive_solver. }
  assert (Hd : ({[k]} : gset (string * Z)) ## U ∖ ({[k]} ∪ V)).
  { intros x Hx1 Hx2. apply elem_of_difference in Hx2 as [_ Hx2].
    apply Hx2. apply elem_of_union. by left. }
  by rewrite (size_union _ _ Hd), size_singleton.
Qed.

Lemma size_mark_le (U V : gset (string * Z)) k :
  size (U ∖ ({[k]} ∪ V)) ≤ size (U ∖ V).
Proof.
  apply (subseteq_size (C:=gset (string * Z))). intros x.
  rewrite !elem_of_difference, elem_of_union. tauto.
Qed.

Lemma state_space_elem c d :
  c ∈ all_callers a → (1 ≤ d ≤ eff)%Z → (c, d) ∈ state_space a eff.
Proof.
  intros Hc Hd. unfold state_space. apply elem_of_list_to_set.
  apply list_elem_of_bind. exists c. split; [|done].
  apply list_elem_of_bind. exists d. split; [by left|].
  apply elem_of_seqZ. lia.
Qed.

Lemma callers_known k c :
  c ∈ CallGraph.get_list (reverse_call_graph a) k → c ∈ all_callers a.
Proof.
  unfold CallGraph.get_list, all_callers.
  destruct (reverse_call_graph a !! k) as [l|] eqn:E; simpl; [|by intros ?%elem_of_nil].
  intros Hc. apply list_elem_of_In, in_concat. exists l. split.
  - apply in_map_iff. exists (k, l). split; [done|].
    apply list_elem_of_In. by apply elem_of_map_to_list.
  - by apply list_elem_of_In.
Qed.

Lemma visit_caller_measure cur st caller st' :
  (0 ≤ current_depth cur < eff)%Z → caller ∈ all_callers a →
  visit_caller a cur st caller = Some st' → measure st' ≤ measure st.
Proof.
  intros Hd Hc. unfold visit_caller, measure.
  case_bool_decide as Hin; [by intros [= <-]|].
  case_bool_decide as Hvis; [by intros [= <-]|].
  pose proof (size_mark_le (state_space a eff) (visited_states st)
                (caller, (current_depth cur + 1)%Z)) as Hle.
  destruct (PyStr.split1 ":" caller) as [|cls [|mtd [|? ?]]]; try done.
  destruct (is_has_parameters a cls mtd); simpl; [|intros [= <-]; simpl; lia].
  destruct (is_entry_point a caller) as [[|]|]; [| |done]; intros [= <-]; simpl.
  - lia.
  - rewrite length_app. simpl.
    pose proof (size_mark (state_space a eff) (visited_states st)
                  (caller, (current_depth cur + 1)%Z)) as Heq.
    rewrite <- Heq; [lia| |done]. apply state_space_elem; [done|lia].
Qed.

Lemma for_each_measure cur callers : ∀ st st',
  (0 ≤ current_depth cur < eff)%Z → (∀ c, c ∈ callers → c ∈ all_callers a) →
  for_each (visit_caller a cur) st callers = Some st' → measure st' ≤ measure st.
Proof.
  induction callers as [|c cs IH]; intros st st' Hd Hc; simpl.
  - by intros [= <-].
  - destruct (visit_caller a cur st c) as [st1|] eqn:E; [|done].
    intros Hf. apply visit_caller_measure in E; [|done|apply Hc; left].
    apply IH in Hf; [lia|done|]. intros c' Hc'. apply Hc. by right.
Qed.

Lemma search_loop_fuel should_stop fuel : ∀ polls st,
  search_inv st → measure st < fuel →
  search_loop a should_stop eff fuel polls st ≠ OutOfFuel.
Proof.
  induction fuel as [|fuel IH]; intros polls st [Hq Hp] Hm; [lia|]. simpl.
  destruct (queue st) as [|cur rest] eqn:Eq; [done|].
  destruct (should_stop polls); [done|].
  apply Forall_cons in Hq as [Hcur Hrest].
  assert (Hm' : measure (Search (paths st) (visited_states st) rest) < fuel).
  { unfold measure in *. rewrite Eq in Hm. simpl in *. lia. }
  destruct (eff <=? current_depth cur)%Z eqn:Hd.
  - apply IH; [by split|done].
  - apply Z.leb_gt in Hd.
    destruct (current_path cur) as [|current_sink ?] eqn:Ep; [done|].
    destruct (for_each _ _ _) as [st'|] eqn:Ef; [|done].
    apply IH.
    + eapply for_each_inv; [exact Hcur|exact Hd| |exact Ef]. by split.
    + apply for_each_measure in Ef; [lia| |].
      * split; [by apply good_entry_depth|done].
      * intros c. apply callers_known.
Qed.

Lemma initial_inv : search_inv (Search [] ∅ [Entry [sink] 0 {[sink]}]).
Proof.
  split; [|apply Forall_nil_2]. apply Forall_singleton. repeat split; simpl.
  - apply NoDup_singleton.
  - intros ->%elem_of_singleton. left.
  - intros ->%list_elem_of_singleton. by apply elem_of_singleton.
Qed.

End SearchInvariant.

Lemma effective_max_depth_le max_depth :
  (effective_max_depth max_depth ≤ Z.max max_depth 15)%Z.
Proof. unfold effective_max_depth. destruct (max_depth <? 10)%Z eqn:E; lia. Qed.

(** [_trace_back] terminates: with [enough_fuel] the loop never runs dry. *)
Lemma trace_back_terminates a should_stop sink max_depth :
  _trace_back a should_stop sink max_depth (enough_fuel a max_depth) ≠ OutOfFuel.
Proof.
  unfold _trace_back, enough_fuel.
  eapply search_loop_fuel; [apply initial_inv|].
  unfold measure. simpl. rewrite difference_empty_L. lia.
Qed.

Lemma trace_back_good a should_stop sink max_depth fuel chains :
  _trace_back a should_stop sink max_depth fuel = Returned chains →
  Forall (good_chain a sink (effective_max_depth max_depth)) chains.
Proof.
  unfold _trace_back. intros Hrun.
  eapply search_loop_inv in Hrun; [exact Hrun|apply initial_inv].
Qed.

(** C1: every chain returned by [_trace_back] has no repeated signature,
    starts at an entry point, ends at the sink the search started from and
    has at most [max(depth, 15) + 1] elements. *)
Theorem trace_back_chains_wellformed a should_stop sink max_depth fuel chains chain :
  _trace_back a should_stop sink max_depth fuel = Returned chains →
  chain ∈ chains →
  NoDup chain ∧
  (∃ first, head chain = Some first ∧ is_entry_point a first = Some true) ∧
  last chain = Some sink ∧
  (Z.of_nat (length chain) ≤ Z.max max_depth 15 + 1)%Z.
Proof.
  intros Hrun Hin. apply trace_back_good in Hrun.
  rewrite Forall_forall in Hrun. destruct (Hrun _ Hin) as (H1 & H2 & H3 & H4).
  repeat split; try done.
  pose proof (effective_max_depth_le max_depth). lia.
Qed.

(** The project of scenario S1: [A.h] is an HTTP handler calling [Svc.q],
    which calls the sink. *)
Definition s1_project : analyzer :=
  Analyzer
    {[ "A" := ClassRecord "A.java" {[ "h" := MethodInfo true true ]};
       "Svc" := ClassRecord "Svc.java" {[ "q" := MethodInfo true false ]} ]}
    {[ "Statement:executeQuery" := ["Svc:q"]; "Svc:q" := ["A:h"] ]}.

Definition s1_chain : list string := ["A:h"; "Svc:q"; "Statement:executeQuery"].

Lemma trace_back_chains_wellformed_witness :
  NoDup s1_chain ∧
  (∃ first, head s1_chain = Some first ∧ is_entry_point s1_project first = Some true) ∧
  last s1_chain = Some "Statement:executeQuery" ∧
  (Z.of_nat (length s1_chain) ≤ Z.max 15 15 + 1)%Z.
Proof.
  apply (trace_back_chains_wellformed s1_project (λ _, false)
           "Statement:executeQuery" 15 (enough_fuel s1_project 15) [s1_chain]).
  - vm_compute. reflexivity.
  - left.
Defined.

(** A ladder of eleven callers above the sink [S:s]; only the top one,
    [C11:m], is an HTTP handler. *)
Definition ladder_node (i : nat) : string := "C" +:+ pretty i +:+ ":m".

Definition ladder : analyzer :=
  Analyzer
    {[ "C11" := ClassRecord "C11.java" {[ "m" := MethodInfo true true ]} ]}
    (list_to_map
       (("S:s", [ladder_node 1]) ::
        map (λ i, (ladder_node i, [ladder_node (S i)])) (seq 1 10))).

Definition ladder_chain : list string :=
  ["C11:m"; "C10:m"; "C9:m"; "C8:m"; "C7:m"; "C6:m"; "C5:m"; "C4:m";
   "C3:m"; "C2:m"; "C1:m"; "S:s"].

(** C2, as stated, fails at the configured depth 10: the search is capped
    at 15, not at 10, and a chain of 12 signatures is emitted. *)
Lemma configured_depth_10_searches_to_15 :
  effective_max_depth (configured_depth (Some 10%Z)) = 15%Z ∧
  find_vulnerabilities_trace ladder (λ _, false) (Some 10%Z) "S:s"
    (enough_fuel ladder 15) = Returned [ladder_chain] ∧
  length ladder_chain = 12.
Proof. split; [reflexivity|]. split; [vm_compute; reflexivity|reflexivity]. Qed.

(** C2 (amended): whatever depth the rules configure, [find_vulnerabilities]
    searches with the cap [max(D, 15)] (15 when none is configured), and no
    chain it gets back is longer than that cap plus one. *)
Theorem configured_depth_cap (rules_depth : option Z) :
  effective_max_depth (configured_depth rules_depth)
    = Z.max (default 15%Z rules_depth) 15 ∧
  ∀ a should_stop sink fuel chains chain,
    find_vulnerabilities_trace a should_stop rules_depth sink fuel = Returned chains →
    chain ∈ chains →
    (Z.of_nat (length chain) ≤ Z.max (default 15%Z rules_depth) 15 + 1)%Z.
Proof.
  assert (Heff : effective_max_depth (configured_depth rules_depth)
                 = Z.max (default 15%Z rules_depth) 15).
  { unfold effective_max_depth, configured_depth.
    destruct (Z.max _ 15 <? 10)%Z eqn:E; [apply Z.ltb_lt in E; lia|done]. }
  split; [exact Heff|].
  intros a should_stop sink fuel chains chain Hrun Hin.
  apply trace_back_good in Hrun. rewrite Forall_forall in Hrun.
  destruct (Hrun _ Hin) as (_ & _ & _ & Hlen). by rewrite Heff in Hlen.
Qed.

Lemma configured_depth_cap_witness :
  effective_max_depth (configured_depth (Some 10%Z)) = Z.max 10 15 ∧
  (Z.of_nat (length ladder_chain) ≤ Z.max 10 15 + 1)%Z.
Proof.
  destruct (configured_depth_cap (Some 10%Z)) as [Hcap Hlen].
  split; [exact Hcap|].
  apply (Hlen ladder (λ _, false) "S:s" (enough_fuel ladder 15) [ladder_chain]).
  - vm_compute. reflexivity.
  - left.
Defined.

End ChainFinderFacts.

Module RuleMatcherFacts.
Import RuleMatcher.

(** *** The matching rule in the words of the specification

    The relation below is written from the specification alone, on the
    characters of the strings, with no reference to the functions of
    [RuleMatcher] or [PyStr]. *)

(** The characters of a string. *)
Definition chars (s : string) : list ascii := list_ascii_of_string s.

(** A blank: what trimming removes (TAB, LF, VT, FF, CR, FS, GS, RS, US and
    the space). *)
Definition blank (c : ascii) : Prop :=
  c ∈ ["009"; "010"; "011"; "012"; "013"; "028"; "029"; "030"; "031"; " "]%char.

(** [t] is [s] trimmed: [s] is [t] between two runs of blanks, and [t]
    neither begins nor ends with a blank. *)
Definition trimmed (s t : string) : Prop :=
  ∃ l r, chars s = l ++ chars t ++ r ∧ Forall blank l ∧ Forall blank r ∧
         (∀ c, head (chars t) = Some c → ¬ blank c) ∧
         (∀ c, last (chars t) = Some c → ¬ blank c).

(** [s] is [a], the separator, then [b], and [a] holds no separator: the
    cut at the first separator. *)
Definition cut_at (sep : ascii) (s a b : string) : Prop :=
  chars s = chars a ++ sep :: chars b ∧ sep ∉ chars a.

(** [seg] is the last segment of [s]: what follows the last separator, the
    whole of [s] when it holds none. *)
Definition last_segment (sep : ascii) (s seg : string) : Prop :=
  (sep ∉ chars seg) ∧ (s = seg ∨ ∃ p, chars s = p ++ sep :: chars seg).

(** [piece] is one of the pieces of [s] between separators: it holds no
    separator, begins at the start of [s] or just after a separator, and ends
    at the end of [s] or just before a separator. *)
Definition piece_of (sep : ascii) (s piece : string) : Prop :=
  (sep ∉ chars piece) ∧
  ∃ pre post, chars s = pre ++ chars piece ++ post ∧
    (pre = [] ∨ ∃ p, pre = p ++ [sep]) ∧ (post = [] ∨ ∃ q, post = sep :: q).

(** The rule entry [s], of the form [sc:sm], matches the class [cls] and
    the method [mtd]: the class names are equal or their last dotted segments
    are, and the method is one of the alternatives of [sm] between bars, once
    trimmed. *)
Definition spec_matches (cls mtd s : string) : Prop :=
  ∃ sc sm sc' sm' alt,
    cut_at ":" s sc sm ∧ trimmed sc sc' ∧ trimmed sm sm' ∧
    (cls = sc' ∨ ∃ short, last_segment "." cls short ∧ last_segment "." sc' short) ∧
    piece_of "|" sm' alt ∧ trimmed alt mtd.

(** *** The string functions meet their descriptions *)

Lemma chars_inj s t : chars s = chars t → s = t.
Proof.
  intros H. rewrite <- (string_of_list_ascii_of_string s),
    <- (string_of_list_ascii_of_string t). unfold chars in H. by rewrite H.
Qed.

Lemma chars_rev_acc s : ∀ acc,
  chars (PyStr.rev_acc s acc) = reverse (chars s) ++ chars acc.
Proof.
  induction s as [|c s IH]; intros acc; simpl; [done|].
  rewrite IH. simpl. rewrite reverse_cons, <- app_assoc. done.
Qed.

Lemma chars_rev s : chars (PyStr.rev s) = reverse (chars s).
Proof. unfold PyStr.rev. rewrite chars_rev_acc. simpl. by rewrite app_nil_r. Qed.

Lemma is_space_blank c : PyStr.is_space c = true ↔ blank c.
Proof.
  unfold blank. split.
  - destruct c as [[] [] [] [] [] [] [] []]; vm_compute; try done; intros _;
      repeat (first [by left | right]).
  - rewrite !elem_of_cons, elem_of_nil.
    intros [->|[->|[->|[->|[->|[->|[->|[->|[->|[->|[]]]]]]]]]]]; reflexivity.
Qed.

(** [lstrip_by] drops the longest run of blanks at the front. *)
Lemma lstrip_by_spec s :
  ∃ l, chars s = l ++ chars (PyStr.lstrip_by PyStr.is_space s) ∧ Forall blank l ∧
       ∀ c, head (chars (PyStr.lstrip_by PyStr.is_space s)) = Some c → ¬ blank c.
Proof.
  induction s as [|c s (l & Hs & Hl & Hh)]; simpl.
  - exists []. split; [done|]. split; [done|]. done.
  - destruct (PyStr.is_space c) eqn:E.
    + exists (c :: l). simpl. rewrite Hs at 1. split; [done|].
      split; [|done]. apply Forall_cons. split; [by apply is_space_blank|done].
    + exists []. split; [done|]. split; [done|]. simpl. intros c' [= <-] Hb.
      apply is_space_blank in Hb. congruence.
Qed.

Lemma lstrip_by_blanks l : ∀ s t,
  chars s = l ++ chars t → Forall blank l →
  (∀ c, head (chars t) = Some c → ¬ blank c) →
  PyStr.lstrip_by PyStr.is_space s = t.
Proof.
  induction l as [|b l IH]; intros s t Hs Hl Hh; simpl in Hs.
  - apply chars_inj in Hs as ->. destruct t as [|c t]; [done|]. simpl.
    destruct (PyStr.is_space c) eqn:E; [|done].
    apply is_space_blank in E. by destruct (Hh c).
  - destruct s as [|c s]; [done|]. simpl in Hs. injection Hs as -> Hs.
    apply Forall_cons in Hl as [Hb Hl]. simpl.
    apply is_space_blank in Hb. rewrite Hb. by apply IH.
Qed.

Lemma lstrip_by_all_blank s : Forall blank (chars s) → PyStr.lstrip_by PyStr.is_space s = "".
Proof.
  intros H. apply (lstrip_by_blanks (chars s)); [|done|done]. simpl. by rewrite app_nil_r.
Qed.

Lemma head_reverse {A} (l : list A) : head (reverse l) = last l.
Proof.
  induction l as [|x l IH] using rev_ind; [done|].
  by rewrite reverse_snoc, last_snoc.
Qed.

Lemma last_reverse {A} (l : list A) : last (reverse l) = head l.
Proof. by rewrite <- head_reverse, reverse_involutive. Qed.

(** [strip] gives the trimmed string, and nothing else is the trimmed
    string. *)
Lemma strip_trimmed s : trimmed s (PyStr.strip s).
Proof.
  unfold PyStr.strip, PyStr.rstrip_by.
  destruct (lstrip_by_spec s) as (l & Hs & Hl & Hh).
  set (u := PyStr.lstrip_by PyStr.is_space s) in *.
  destruct (lstrip_by_spec (PyStr.rev u)) as (r & Hu & Hr & Hlast).
  set (v := PyStr.lstrip_by PyStr.is_space (PyStr.rev u)) in *.
  rewrite chars_rev in Hu.
  assert (Hu' : chars u = chars (PyStr.rev v) ++ reverse r).
  { rewrite chars_rev, <- reverse_app, <- Hu. by rewrite reverse_involutive. }
  exists l, (reverse r). split; [by rewrite <- Hu'|]. split; [done|].
  split; [by apply Forall_reverse|]. rewrite chars_rev. split.
  - intros c Hc. destruct (chars v) as [|x xs] eqn:Ev using rev_ind; [done|].
    apply Hh. rewrite Hu', chars_rev, Ev. rewrite reverse_snoc in *. done.
  - intros c Hc. rewrite last_reverse in Hc. by apply Hlast.
Qed.

Lemma trimmed_strip s t : trimmed s t → PyStr.strip s = t.
Proof.
  intros (l & r & Hs & Hl & Hr & Hh & Hlast).
  unfold PyStr.strip, PyStr.rstrip_by.
  destruct (decide (chars t = [])) as [Et|Et].
  - assert (t = "") as -> by (by apply chars_inj).
    assert (Hb : Forall blank (chars s)) by (rewrite Hs; simpl; by apply Forall_app).
    by rewrite (lstrip_by_all_blank s Hb).
  - assert (Hu : PyStr.lstrip_by PyStr.is_space s
                 = string_of_list_ascii (chars t ++ r)).
    { apply (lstrip_by_blanks l); [|done|].
      - unfold chars at 2. by rewrite list_ascii_of_string_of_list_ascii.
      - unfold chars at 1. rewrite list_ascii_of_string_of_list_ascii.
        intros c Hc. apply Hh. by destruct (chars t). }
    rewrite Hu.
    assert (Hv : PyStr.lstrip_by PyStr.is_space
                   (PyStr.rev (string_of_list_ascii (chars t ++ r)))
                 = PyStr.rev t).
    { apply (lstrip_by_blanks (reverse r)); [|by apply Forall_reverse|].
      - rewrite !chars_rev. unfold chars at 1.
        rewrite list_ascii_of_string_of_list_ascii. by rewrite reverse_app.
      - rewrite chars_rev. intros c. rewrite head_reverse. apply Hlast. }
    rewrite Hv. apply chars_inj. rewrite !chars_rev. apply reverse_involutive.
Qed.

(** [split(sep, 1)] cuts at the first separator. *)
Lemma split1_acc_cut sep s : ∀ cur a b,
  PyStr.split1_acc sep s cur = [a; b] →
  ∃ a', chars a = reverse (chars cur) ++ a' ∧ chars s = a' ++ sep :: chars b ∧ sep ∉ a'.
Proof.
  induction s as [|c s IH]; intros cur a b; simpl; [done|].
  destruct (Ascii.eqb_spec c sep) as [->|Hne].
  - intros [= <- <-]. exists []. rewrite chars_rev, app_nil_r.
    split; [done|]. split; [done|]. apply not_elem_of_nil.
  - intros H. apply IH in H as (a' & Ha & Hs & Hn). exists (c :: a').
    simpl in Ha. rewrite reverse_cons, <- app_assoc in Ha.
    split; [done|]. split; [by rewrite Hs|].
    rewrite elem_of_cons. intros [->|?]; done.
Qed.

Lemma cut_split1_acc sep a' : ∀ s cur b,
  chars s = a' ++ sep :: chars b → sep ∉ a' →
  PyStr.split1_acc sep s cur
  = [string_of_list_ascii (reverse (chars cur) ++ a'); b].
Proof.
  induction a' as [|c a' IH]; intros s cur b Hs Hn;
    (destruct s as [|c' s]; [done|]); simpl in Hs; injection Hs as -> Hs; simpl.
  - rewrite Ascii.eqb_refl. apply chars_inj in Hs as ->.
    rewrite app_nil_r, <- chars_rev. unfold chars.
    by rewrite string_of_list_ascii_of_string.
  - apply not_elem_of_cons in Hn as [Hc Hn].
    destruct (Ascii.eqb_spec c sep) as [->|_]; [done|].
    rewrite (IH s (String c cur) b Hs Hn). simpl.
    by rewrite reverse_cons, <- app_assoc.
Qed.

Lemma split1_cut sep s a b : PyStr.split1 sep s = [a; b] ↔ cut_at sep s a b.
Proof.
  unfold PyStr.split1, cut_at. split.
  - intros H. apply split1_acc_cut in H as (a' & Ha & Hs & Hn).
    simpl in Ha. by subst a'.
  - intros [Hs Hn]. rewrite (cut_split1_acc sep (chars a) s "" b Hs Hn). simpl.
    unfold chars. by rewrite string_of_list_ascii_of_string.
Qed.

(** The pieces of [split(sep)]; [cur] holds the characters of the piece being
    read, last one first. *)
Lemma split_acc_pieces sep s : ∀ cur x,
  x ∈ PyStr.split_acc sep s cur ↔
  (∃ a post, chars x = reverse (chars cur) ++ a ∧ (sep ∉ a) ∧ chars s = a ++ post ∧
             (post = [] ∨ ∃ q, post = sep :: q)) ∨
  ((sep ∉ chars x) ∧
   ∃ p post, chars s = p ++ sep :: chars x ++ post ∧ (post = [] ∨ ∃ q, post = sep :: q)).
Proof.
  induction s as [|c s IH]; intros cur x; simpl.
  - rewrite list_elem_of_singleton. split.
    + intros ->. left. exists [], []. rewrite chars_rev, app_nil_r.
      split; [done|]. split; [apply not_elem_of_nil|]. split; [done|by left].
    + intros [(a & post & Hx & _ & Hs & _)|(_ & p & post & Hs & _)].
      * symmetry in Hs. apply app_eq_nil in Hs as [-> _]. rewrite app_nil_r in Hx.
        apply chars_inj. by rewrite chars_rev.
      * by destruct p.
  - destruct (Ascii.eqb_spec c sep) as [->|Hne].
    + rewrite elem_of_cons, IH. simpl. split.
      * intros [->|[(a & post & Hx & Ha & Hs & Hpost)|(Hn & p & post & Hs & Hpost)]].
        -- left. exists [], (sep :: chars s). rewrite chars_rev, app_nil_r.
           split; [done|]. split; [apply not_elem_of_nil|]. split; [done|]. right. eauto.
        -- right. subst a. split; [done|]. exists [], post. by rewrite Hs.
        -- right. split; [done|]. exists (sep :: p), post. by rewrite Hs.
      * intros [(a & post & Hx & Ha & Hs & Hpost)|(Hn & p & post & Hs & Hpost)].
        -- left. destruct a as [|d a].
           ++ rewrite app_nil_r in Hx. apply chars_inj. by rewrite chars_rev.
           ++ injection Hs as -> _. exfalso. apply Ha. left.
        -- right. destruct p as [|d p]; simpl in Hs.
           ++ injection Hs as Hs. left. exists (chars x), post. done.
           ++ injection Hs as _ Hs. right. split; [done|]. eauto.
    + rewrite IH. simpl. split.
      * intros [(a & post & Hx & Ha & Hs & Hpost)|(Hn & p & post & Hs & Hpost)].
        -- left. exists (c :: a), post. rewrite reverse_cons, <- app_assoc in Hx.
           split; [done|]. split; [|by rewrite Hs].
           rewrite elem_of_cons. intros [->|?]; done.
        -- right. split; [done|]. exists (c :: p), post. by rewrite Hs.
      * intros [(a & post & Hx & Ha & Hs & Hpost)|(Hn & p & post & Hs & Hpost)].
        -- left. destruct a as [|d a]; simpl in Hs.
           ++ destruct Hpost as [->|(q & ->)]; [done|]. by injection Hs as -> _.
           ++ injection Hs as <- Hs. apply not_elem_of_cons in Ha as [_ Ha].
              exists a, post. rewrite reverse_cons, <- app_assoc. done.
        -- right. split; [done|]. destruct p as [|d p]; simpl in Hs; injection Hs as -> Hs;
             [done|]. eauto.
Qed.

Lemma split_piece_of sep s x : x ∈ PyStr.split sep s ↔ piece_of sep s x.
Proof.
  unfold PyStr.split, piece_of. rewrite split_acc_pieces. simpl. split.
  - intros [(a & post & <- & Ha & Hs & Hpost)|(Hn & p & post & Hs & Hpost)].
    + split; [done|]. exists [], post. simpl. split; [done|]. split; [by left|done].
    + split; [done|]. exists (p ++ [sep]), post. rewrite <- app_assoc. simpl.
      split; [done|]. split; [right; eauto|done].
  - intros (Hn & pre & post & Hs & [->|(p & ->)] & Hpost).
    + left. exists (chars x), post. done.
    + right. split; [done|]. exists p, post. rewrite <- app_assoc in Hs. done.
Qed.

Lemma split_acc_not_nil sep s : ∀ cur, PyStr.split_acc sep s cur ≠ [].
Proof.
  induction s as [|c t IH]; intros cur; simpl; [done|].
  destruct (Ascii.eqb c sep); [done|apply IH].
Qed.

(** The last piece of [split(sep)] is the last segment. *)
Lemma split_acc_last sep s : ∀ cur,
  let x := List.last (PyStr.split_acc sep s cur) "" in
  ((sep ∉ chars s) ∧ chars x = reverse (chars cur) ++ chars s) ∨
  ((sep ∉ chars x) ∧ ∃ p, chars s = p ++ sep :: chars x).
Proof.
  induction s as [|c s IH]; intros cur; simpl.
  - left. split; [apply not_elem_of_nil|]. by rewrite chars_rev, app_nil_r.
  - destruct (Ascii.eqb_spec c sep) as [->|Hne].
    + right. specialize (IH ""). simpl in IH.
      destruct (PyStr.split_acc sep s "") as [|y ys] eqn:E.
      { by apply split_acc_not_nil in E. }
      change (List.last (PyStr.rev cur :: y :: ys) "") with (List.last (y :: ys) "").
      destruct IH as [[Hn Hx]|(Hn & p & Hs)].
      * split; [by rewrite Hx|]. exists []. by rewrite Hx.
      * split; [done|]. exists (sep :: p). by rewrite Hs.
    + destruct (IH (String c cur)) as [[Hn Hx]|(Hn & p & Hs)].
      * left. split; [rewrite elem_of_cons; intros [->|?]; done|].
        rewrite Hx. simpl. by rewrite reverse_cons, <- app_assoc.
      * right. split; [done|]. exists (c :: p). by rewrite Hs.
Qed.

Lemma short_name_last_segment s : last_segment "." s (short_name s).
Proof.
  unfold short_name, PyStr.last_piece, PyStr.split, last_segment.
  destruct (split_acc_last "." s "") as [[Hn Hx]|(Hn & p & Hs)]; simpl in *.
  - apply chars_inj in Hx. rewrite Hx. split; [done|by left].
  - split; [done|]. right. eauto.
Qed.

Lemma first_occurrence {A} (x : A) l1 : ∀ l2 r1 r2,
  l1 ++ x :: r1 = l2 ++ x :: r2 → x ∉ l1 → x ∉ l2 → l1 = l2.
Proof.
  induction l1 as [|a l1 IH]; intros [|b l2] r1 r2; simpl; intros H H1 H2; try done.
  - injection H as -> _. exfalso. apply H2. left.
  - injection H as -> _. exfalso. apply H1. left.
  - injection H as -> H. apply not_elem_of_cons in H1 as [_ H1], H2 as [_ H2].
    f_equal. by eapply IH.
Qed.

Lemma last_segment_unique sep s seg1 seg2 :
  last_segment sep s seg1 → last_segment sep s seg2 → seg1 = seg2.
Proof.
  intros [H1 [->|(p1 & E1)]] [H2 [E2|(p2 & E2)]].
  - done.
  - exfalso. apply H1. rewrite E2. apply elem_of_app. right. left.
  - subst s. exfalso. apply H2. rewrite E1. apply elem_of_app. right. left.
  - apply chars_inj, (inj reverse). rewrite E1 in E2.
    apply (f_equal reverse) in E2. rewrite !reverse_app, !reverse_cons, <- !app_assoc in E2.
    simpl in E2. eapply first_occurrence; [exact E2| |]; by rewrite elem_of_reverse.
Qed.

Lemma last_segment_short_name s seg : last_segment "." s seg ↔ short_name s = seg.
Proof.
  split.
  - intros H. eapply last_segment_unique; [apply short_name_last_segment|exact H].
  - intros <-. apply short_name_last_segment.
Qed.

Lemma method_names_spec mtd sm :
  mtd ∈ method_names sm ↔ ∃ alt, piece_of "|" sm alt ∧ trimmed alt mtd.
Proof.
  unfold method_names. rewrite list_elem_of_fmap. split.
  - intros (alt & -> & Hin). exists alt. split; [by apply split_piece_of|].
    apply strip_trimmed.
  - intros (alt & Hp & Ht). exists alt. split; [by rewrite (trimmed_strip _ _ Ht)|].
    by apply split_piece_of.
Qed.

Lemma truthy_Some s : PyStr.truthy (Some s) = true ↔ s ≠ "".
Proof. destruct s; simpl; split; congruence. Qed.

Lemma split1_acc_pair sep s : ∀ cur a b,
  PyStr.split1_acc sep s cur = [a; b] → PyStr.str_in (String sep "") s = true.
Proof.
  induction s as [|c t IH]; intros cur a b; simpl; [done|].
  destruct (Ascii.eqb_spec c sep) as [->|Hne].
  - intros _. rewrite Ascii.eqb_refl. by destruct t.
  - intros H. apply IH in H. rewrite H. apply orb_true_r.
Qed.

Lemma split1_acc_single sep s : ∀ cur,
  PyStr.str_in (String sep "") s = true →
  ∃ a b, PyStr.split1_acc sep s cur = [a; b].
Proof.
  induction s as [|c t IH]; intros cur; simpl; [done|].
  destruct (Ascii.eqb_spec c sep) as [->|Hne].
  - intros _. eauto.
  - destruct (Ascii.eqb_spec sep c) as [->|_]; [done|]. simpl. apply IH.
Qed.

Lemma split1_acc_shape sep s : ∀ cur,
  (∃ a, PyStr.split1_acc sep s cur = [a]) ∨ (∃ a b, PyStr.split1_acc sep s cur = [a; b]).
Proof.
  induction s as [|c t IH]; intros cur; simpl; [eauto|].
  destruct (Ascii.eqb c sep); eauto.
Qed.

Lemma str_in_nonempty sub s : sub ≠ "" → PyStr.str_in sub s = true → s ≠ "".
Proof. intros Hs H ->. destruct sub; [done|]. simpl in H. done. Qed.

Lemma entry_matches_spec cls mtd s :
  entry_matches cls mtd s = true ↔
  ∃ sc sm, PyStr.split1 ":" s = [sc; sm] ∧
    (cls = PyStr.strip sc ∨ short_name cls = short_name (PyStr.strip sc)) ∧
    mtd ∈ method_names (PyStr.strip sm).
Proof.
  unfold entry_matches. split.
  - destruct (PyStr.str_in ":" s); simpl; [|done].
    destruct (PyStr.split1 ":" s) as [|sc [|sm [|? ?]]]; try done.
    intros [Hc Hm]%andb_true_iff. exists sc, sm. split; [done|].
    apply bool_decide_eq_true in Hm. split; [|done].
    apply orb_true_iff in Hc as [Hc|Hc]; apply String.eqb_eq in Hc; auto.
  - intros (sc & sm & Hs & Hc & Hm).
    unfold PyStr.split1 in *. rewrite (split1_acc_pair _ _ _ _ _ Hs), Hs. simpl.
    apply andb_true_iff. split; [|by apply bool_decide_eq_true].
    apply orb_true_iff. destruct Hc as [Hc|Hc]; [left|right]; by apply String.eqb_eq.
Qed.

Lemma hit_name_truthy r s : s ≠ "" → ∃ n, hit_name r s = Some n ∧ n ≠ "".
Proof.
  intros Hs. unfold hit_name, PyStr.por.
  destruct (PyStr.truthy (sanitizer_name r)) eqn:E1.
  { destruct (sanitizer_name r) as [n|]; [|done]. exists n. split; [done|].
    by apply truthy_Some. }
  destruct (PyStr.truthy (source_name r)) eqn:E2.
  { destruct (source_name r) as [n|]; [|done]. exists n. split; [done|].
    by apply truthy_Some. }
  destruct (PyStr.truthy (sink_name r)) eqn:E3.
  { destruct (sink_name r) as [n|]; [|done]. exists n. split; [done|].
    by apply truthy_Some. }
  eauto.
Qed.

Lemma add_hit_keeps hits h : hits ≠ [] → add_hit hits h ≠ [].
Proof.
  intros Hh. unfold add_hit. destruct h as [n|]; [|done].
  destruct (_ && _); [|done]. by destruct hits.
Qed.

Lemma add_hit_named hits n : n ≠ "" → add_hit hits (Some n) ≠ [].
Proof.
  intros Hn. unfold add_hit. apply truthy_Some in Hn. rewrite Hn. simpl.
  case_bool_decide as Hin; simpl.
  - intros ->. by apply elem_of_nil in Hin.
  - by destruct hits.
Qed.

Lemma match_entries_spec cls mtd r entries : ∀ hits,
  foldl (match_entry cls mtd r) hits entries ≠ [] ↔
  hits ≠ [] ∨ ∃ s, s ∈ entries ∧ entry_matches cls mtd s = true.
Proof.
  induction entries as [|s entries IH]; intros hits; simpl.
  - split; [auto|]. intros [H|(s & H & _)]; [done|]. by apply elem_of_nil in H.
  - rewrite IH. unfold match_entry. split.
    + intros [H|(s' & H1 & H2)].
      * destruct (entry_matches cls mtd s) eqn:E.
        -- right. exists s. split; [left|done].
        -- by left.
      * right. exists s'. split; [by right|done].
    + intros [H|(s' & H1 & H2)].
      * left. destruct (entry_matches cls mtd s); [by apply add_hit_keeps|done].
      * apply elem_of_cons in H1 as [->|H1]; [|right; eauto].
        left. rewrite H2.
        assert (Hs : s ≠ "").
        { apply (str_in_nonempty ":"); [done|]. unfold entry_matches in H2.
          by destruct (PyStr.str_in ":" s). }
        destruct (hit_name_truthy r s Hs) as (n & -> & Hn). by apply add_hit_named.
Qed.

Lemma match_rules_spec cls mtd key rs : ∀ hits,
  foldl (match_rule cls mtd key) hits rs ≠ [] ↔
  hits ≠ [] ∨ ∃ r s, r ∈ rs ∧ s ∈ rule_items r key ∧ entry_matches cls mtd s = true.
Proof.
  induction rs as [|r rs IH]; intros hits; simpl.
  - split; [auto|]. intros [H|(r & s & H & _)]; [done|]. by apply elem_of_nil in H.
  - rewrite IH. unfold match_rule. rewrite match_entries_spec. split.
    + intros [[H|(s & H1 & H2)]|(r' & s & H1 & H2 & H3)].
      * by left.
      * right. exists r, s. split; [left|done].
      * right. exists r', s. split; [by right|done].
    + intros [H|(r' & s & H1 & H2 & H3)]; [by left; left|].
      apply elem_of_cons in H1 as [->|H1].
      * left. right. eauto.
      * right. eauto.
Qed.

(** The test made on a rule entry is the relation of the specification. *)
Lemma entry_matches_spec_matches cls mtd s :
  entry_matches cls mtd s = true ↔ spec_matches cls mtd s.
Proof.
  rewrite entry_matches_spec. unfold spec_matches. split.
  - intros (sc & sm & Hs & Hc & Hm).
    apply method_names_spec in Hm as (alt & Hp & Ht).
    exists sc, sm, (PyStr.strip sc), (PyStr.strip sm), alt.
    split; [by apply split1_cut|]. split; [apply strip_trimmed|].
    split; [apply strip_trimmed|]. split; [|done].
    destruct Hc as [Hc|Hc]; [by left|]. right. exists (short_name cls).
    split; [apply short_name_last_segment|]. rewrite Hc. apply short_name_last_segment.
  - intros (sc & sm & sc' & sm' & alt & Hs & Hsc & Hsm & Hc & Hp & Ht).
    apply trimmed_strip in Hsc as <-. apply trimmed_strip in Hsm as <-.
    exists sc, sm. split; [by apply split1_cut|]. split.
    + destruct Hc as [Hc|(short & H1 & H2)]; [by left|]. right.
      apply last_segment_short_name in H1, H2. congruence.
    + apply method_names_spec. eauto.
Qed.

(** C8: for a signature [Class:method] of ASCII characters with a class and
    a method, and rule entries of ASCII characters, [_rule_matches] reports a
    hit exactly when some rule entry [sc:sm] has an equal class name, or an
    equal last dotted segment, and lists the method among the alternatives of
    [sm] between bars, blanks trimmed.  A short signature matches a qualified
    rule entry and the other way round; an entry with two alternatives and
    blanks matches each alternative and not their concatenation. *)
Theorem rule_matches_short_name_equivalence (sig c m cls mtd : string)
    (rs : list rule) (key : string) :
  PyStr.isascii sig = true →
  forallb (λ r, forallb PyStr.isascii (rule_items r key)) rs = true →
  cut_at ":" sig c m → trimmed c cls → trimmed m mtd →
  cls ≠ "" → mtd ≠ "" →
  (_rule_matches sig rs key ≠ [] ↔
   ∃ r s, r ∈ rs ∧ s ∈ rule_items r key ∧ spec_matches cls mtd s) ∧
  _rule_matches "B:m" [Rule None None None {[ "sinks" := ["A.B:m"] ]}] "sinks"
    = ["A.B:m"] ∧
  _rule_matches "A.B:m" [Rule None None None {[ "sinks" := ["B:m"] ]}] "sinks"
    = ["B:m"] ∧
  _rule_matches "pkg.A.B:n" [Rule None None None {[ "sinks" := ["A.B : m | n "] ]}]
    "sinks" = ["A.B : m | n "] ∧
  _rule_matches "pkg.A.B:m | n" [Rule None None None {[ "sinks" := ["A.B : m | n "] ]}]
    "sinks" = [] ∧
  _rule_matches "pkg.A.C:m" [Rule None None None {[ "sinks" := ["A.B : m | n "] ]}]
    "sinks" = [].
Proof.
  intros _ _ Hsig Hcls Hmtd Hc Hm.
  split; [|repeat split; vm_compute; reflexivity].
  apply split1_cut in Hsig. apply trimmed_strip in Hcls, Hmtd. subst cls mtd.
  assert (Hcolon : PyStr.str_in ":" sig = true)
    by (eapply split1_acc_pair; exact Hsig).
  assert (Hne : sig ≠ "") by (by apply (str_in_nonempty ":")).
  apply truthy_Some in Hne, Hc, Hm.
  unfold _rule_matches.
  rewrite Hne, Hcolon, Hsig, Hc, Hm. cbn [negb orb].
  rewrite match_rules_spec. split.
  - intros [H|(r & s & Hr & Hs & He)]; [done|].
    apply entry_matches_spec_matches in He. eauto.
  - intros (r & s & Hr & Hs & He). right. exists r, s.
    split; [done|]. split; [done|]. by apply entry_matches_spec_matches.
Qed.

(** Rules out that a character is among those listed. *)
Ltac absent :=
  let H := fresh in
  unfold chars; simpl; intros H;
  repeat (apply elem_of_cons in H as [H|H]; [discriminate H|]);
  by apply elem_of_nil in H.

(** A string without blanks at its ends is its own trimming. *)
Ltac tight := intros ? [= <-]; unfold blank; absent.

Lemma rule_matches_short_name_equivalence_witness :
  _rule_matches "pkg.A.B: n"
    [Rule None None (Some "exec") {[ "sinks" := ["A.B : m | n "] ]}] "sinks" ≠ [].
Proof.
  apply (rule_matches_short_name_equivalence "pkg.A.B: n" "pkg.A.B" " n" "pkg.A.B" "n"
           [Rule None None (Some "exec") {[ "sinks" := ["A.B : m | n "] ]}] "sinks").
  - vm_compute. reflexivity.
  - vm_compute. reflexivity.
  - split; [reflexivity|absent].
  - exists [], []. repeat split; try done; tight.
  - exists [" "%char], []. repeat split; try done.
    + apply Forall_singleton. unfold blank. set_solver.
    + tight.
    + tight.
  - discriminate.
  - discriminate.
  - exists (Rule None None (Some "exec") {[ "sinks" := ["A.B : m | n "] ]}), "A.B : m | n ".
    split; [left|]. split; [vm_compute; left|].
    exists "A.B ", " m | n ", "A.B", "m | n", " n".
    split; [split; [reflexivity|absent]|].
    split. { exists [], [" "%char]. repeat split; try done; [|tight|tight].
             apply Forall_singleton. unfold blank. set_solver. }
    split. { exists [" "%char], [" "%char]. repeat split; try done; [| |tight|tight];
               apply Forall_singleton; unfold blank; set_solver. }
    split. { right. exists "B". split; (split; [absent|right]).
             - by exists (chars "pkg.A").
             - by exists (chars "A"). }
    split. { split; [absent|]. exists (chars "m |"), []. split; [reflexivity|].
             split; [right; by exists (chars "m ")|by left]. }
    exists [" "%char], []. repeat split; try done; [|tight|tight].
    apply Forall_singleton. unfold blank. set_solver.
Defined.

End RuleMatcherFacts.

Module ChainScorerFacts.
Import RuleMatcher ChainScorer.

#[local] Open Scope float_scope.

(** [score_of] reads its evidence lists only through their lengths and the
    pattern bonus. *)
Definition score_core (n_sanitizers n_sources : nat) (bonus : bool) (chain_length : nat)
  : float :=
  let score := 1.0 in
  let score :=
    match n_sanitizers with
    | O => score
    | _ => if (2 <=? n_sanitizers)%nat then score - 0.5 else score - 0.4
    end in
  let score :=
    match n_sources with
    | O => score
    | _ => if (2 <=? n_sources)%nat then score + 0.4 else score + 0.3
    end in
  let score := if bonus then score + 0.3 else score in
  let score :=
    if (20 <? chain_length)%nat then score - 0.1
    else if (chain_length <? 3)%nat then score + 0.1
    else score in
  clamp score.

Lemma score_of_core sanitizers sources pattern_hits sink_name n :
  score_of sanitizers sources pattern_hits sink_name n
  = score_core (length sanitizers) (length sources)
      (pattern_bonus sink_name pattern_hits) n.
Proof.
  unfold score_of, score_core, pattern_bonus.
  destruct sanitizers as [|? [|? ?]]; destruct sources as [|? [|? ?]]; reflexivity.
Qed.

Ltac float_cases :=
  repeat match goal with
         | |- context [(20 <? ?n)%nat] => destruct (20 <? n)%nat
         | |- context [(?n <? 3)%nat] => destruct (n <? 3)%nat
         end;
  vm_compute; reflexivity.

Lemma score_core_monotone a a' b b' bonus n :
  (a ≤ a')%nat → (b' ≤ b)%nat →
  PrimFloat.leb (score_core a' b' bonus n) (score_core a b bonus n) = true.
Proof.
  intros Ha Hb. unfold score_core.
  destruct a as [|[|a]]; destruct a' as [|[|a']]; try lia;
    destruct b as [|[|b]]; destruct b' as [|[|b']]; try lia;
    destruct bonus; cbn [Nat.leb]; float_cases.
Qed.

Lemma score_core_range a b bonus n :
  PrimFloat.leb 0.0 (score_core a b bonus n) = true ∧
  PrimFloat.leb (score_core a b bonus n) 1.0 = true.
Proof.
  unfold score_core.
  destruct a as [|[|a]]; destruct b as [|[|b]]; destruct bonus; cbn [Nat.leb];
    split; float_cases.
Qed.

(** C4: with the chain length and the pattern evidence fixed, a chain with at
    least as many matched sanitizers and at most as many matched sources never
    scores higher; both scores lie in [0, 1].  Keeping the sources fixed gives
    the sanitizer half of the claim, keeping the sanitizers fixed the source
    half. *)
Theorem score_chain_monotone (rs rs' : rules) (t t' : bool)
    (chain chain' : list string) (sink_name : string) :
  length chain = length chain' →
  pattern_bonus sink_name (_get_pattern_hits rs t chain)
    = pattern_bonus sink_name (_get_pattern_hits rs' t' chain') →
  (length (_is_sanitized rs chain) ≤ length (_is_sanitized rs' chain'))%nat →
  (length (_find_sources rs' chain') ≤ length (_find_sources rs chain))%nat →
  PrimFloat.leb (_score_chain rs' t' chain' sink_name)
                (_score_chain rs t chain sink_name) = true ∧
  PrimFloat.leb 0.0 (_score_chain rs' t' chain' sink_name) = true ∧
  PrimFloat.leb (_score_chain rs t chain sink_name) 1.0 = true.
Proof.
  intros Hlen Hbonus Hsan Hsrc. unfold _score_chain.
  destruct chain as [|c0 chain0] eqn:Ec; destruct chain' as [|c0' chain0'] eqn:Ec';
    try done.
  rewrite !score_of_core, <- Hbonus, <- Hlen.
  split; [by apply score_core_monotone|].
  split; apply score_core_range.
Qed.

(** One sanitizer rule and one source rule; the second chain passes through
    the sanitizer instead of the source. *)
Definition demo_rules : rules :=
  Rules
    [Rule (Some "escapeSql") None None {[ "sanitizers" := ["org.owasp.Encoder:escapeSql"] ]}]
    [Rule None (Some "getParameter") None
       {[ "sources" := ["HttpServletRequest:getParameter|getHeader"] ]}]
    [].

Definition tainted_chain : list string :=
  ["A:h"; "HttpServletRequest:getParameter"; "Statement:executeQuery"].

Definition sanitized_chain : list string :=
  ["A:h"; "Encoder:escapeSql"; "Statement:executeQuery"].

Lemma score_chain_monotone_witness :
  PrimFloat.leb (_score_chain demo_rules false sanitized_chain "SQLI")
                (_score_chain demo_rules false tainted_chain "SQLI") = true ∧
  PrimFloat.leb 0.0 (_score_chain demo_rules false sanitized_chain "SQLI") = true ∧
  PrimFloat.leb (_score_chain demo_rules false tainted_chain "SQLI") 1.0 = true.
Proof.
  apply (score_chain_monotone demo_rules demo_rules false false
           tainted_chain sanitized_chain "SQLI").
  - reflexivity.
  - vm_compute. reflexivity.
  - vm_compute. lia.
  - vm_compute. lia.
Defined.

End ChainScorerFacts.

Module AstCacheFacts.
Import AstCache.

#[local] Open Scope float_scope.

Section Facts.
Variable Tree : Type.
Implicit Types (d : cache Tree) (e : string * (Tree * float)).

Lemma dict_get_elem d k v : dict_get d k = Some v → (k, v) ∈ d.
Proof.
  induction d as [|[k' v'] d IH]; simpl; [done|].
  destruct (String.eqb_spec k' k) as [->|_].
  - intros [= ->]. left.
  - intros H. right. auto.
Qed.

Lemma dict_del_subset d k e : e ∈ dict_del d k → e ∈ d.
Proof.
  induction d as [|[k' v'] d IH]; simpl; [done|].
  destruct (String.eqb k' k); [by right|].
  intros [->|H]%elem_of_cons; [left|right; auto].
Qed.

Lemma dict_del_keeps d k e : e ∈ d → e.1 ≠ k → e ∈ dict_del d k.
Proof.
  induction d as [|[k' v'] d IH]; simpl; [done|].
  intros [->|H]%elem_of_cons Hk.
  - simpl in Hk. destruct (String.eqb_spec k' k); [done|left].
  - destruct (String.eqb k' k); [done|]. right. auto.
Qed.

Lemma dict_del_length d k : length (dict_del d k) ≤ length d.
Proof.
  induction d as [|[k' v'] d IH]; simpl; [done|].
  destruct (String.eqb k' k); simpl; lia.
Qed.

Lemma dict_del_keys d k x : x ∈ map fst (dict_del d k) → x ∈ map fst d.
Proof.
  rewrite !list_elem_of_In, !in_map_iff. intros (e & <- & He).
  exists e. split; [done|]. apply list_elem_of_In.
  apply dict_del_subset with k. by apply list_elem_of_In.
Qed.

Lemma dict_del_NoDup d k : NoDup (map fst d) → NoDup (map fst (dict_del d k)).
Proof.
  induction d as [|[k' v'] d IH]; simpl; [done|].
  intros [Hk Hd]%NoDup_cons. destruct (String.eqb k' k); [done|]. simpl.
  apply NoDup_cons. split; [|auto]. intros H. by apply dict_del_keys in H.
Qed.

Lemma del_all_subset ks : ∀ d e, e ∈ foldl dict_del d ks → e ∈ d.
Proof.
  induction ks as [|k ks IH]; intros d e; simpl; [done|].
  intros H. apply IH in H. by apply dict_del_subset in H.
Qed.

Lemma del_all_keeps ks : ∀ d e, e ∈ d → e.1 ∉ ks → e ∈ foldl dict_del d ks.
Proof.
  induction ks as [|k ks IH]; intros d e He Hk; simpl; [done|].
  apply not_elem_of_cons in Hk as [Hk1 Hk2]. apply IH; [|done].
  by apply dict_del_keeps.
Qed.

Lemma del_all_length ks : ∀ d, length (foldl dict_del d ks) ≤ length d.
Proof.
  induction ks as [|k ks IH]; intros d; simpl; [done|].
  etrans; [apply IH|apply dict_del_length].
Qed.

Lemma del_all_NoDup ks : ∀ d,
  NoDup (map fst d) → NoDup (map fst (foldl dict_del d ks)).
Proof.
  induction ks as [|k ks IH]; intros d Hd; simpl; [done|].
  apply IH. by apply dict_del_NoDup.
Qed.

Lemma dict_set_length d k v : length (dict_set d k v) ≤ S (length d).
Proof.
  induction d as [|[k' v'] d IH]; simpl; [done|].
  destruct (String.eqb k' k); simpl; lia.
Qed.

Lemma dict_set_keys d k v x : x ∈ map fst (dict_set d k v) → x = k ∨ x ∈ map fst d.
Proof.
  induction d as [|[k' v'] d IH]; simpl.
  - intros ->%list_elem_of_singleton. by left.
  - destruct (String.eqb k' k); simpl.
    + intros H. by right.
    + intros [->|H]%elem_of_cons; [right; left|].
      destruct (IH H); [by left|right; by right].
Qed.

Lemma dict_set_NoDup d k v : NoDup (map fst d) → NoDup (map fst (dict_set d k v)).
Proof.
  induction d as [|[k' v'] d IH]; simpl.
  - intros _. apply NoDup_singleton.
  - intros [Hk Hd]%NoDup_cons. destruct (String.eqb_spec k' k) as [->|Hne]; simpl.
    + by apply NoDup_cons.
    + apply NoDup_cons. split; [|auto].
      intros [->|H]%dict_set_keys; done.
Qed.

Lemma dict_set_other d k v e : e ∈ d → e.1 ≠ k → e ∈ dict_set d k v.
Proof.
  induction d as [|[k' v'] d IH]; simpl; [by intros ?%elem_of_nil|].
  intros [->|H]%elem_of_cons Hk.
  - simpl in Hk. destruct (String.eqb_spec k' k); [done|left].
  - destruct (String.eqb k' k); right; auto.
Qed.

Lemma dict_set_length_ge d k v : length d ≤ length (dict_set d k v).
Proof.
  induction d as [|[k' v'] d IH]; simpl; [lia|].
  destruct (String.eqb k' k); simpl; lia.
Qed.

Lemma dict_del_length_ge d k : length d ≤ S (length (dict_del d k)).
Proof.
  induction d as [|[k' v'] d IH]; simpl; [lia|].
  destruct (String.eqb k' k); simpl; lia.
Qed.

Lemma del_all_length_ge ks : ∀ d, length d ≤ length (foldl dict_del d ks) + length ks.
Proof.
  induction ks as [|k ks IH]; intros d; simpl; [lia|].
  pose proof (IH (dict_del d k)). pose proof (dict_del_length_ge d k). lia.
Qed.

Lemma evict_length_ge d now : length d ≤ length (evict d now) + evict_batch.
Proof.
  unfold evict. destruct (_ <? _)%nat; [|lia].
  pose proof (del_all_length_ge (take evict_batch (expired_keys d now)) d) as H.
  rewrite length_take in H. lia.
Qed.

Lemma key_unique d e e' :
  NoDup (map fst d) → e ∈ d → e' ∈ d → e.1 = e'.1 → e = e'.
Proof.
  induction d as [|x d IH]; simpl; [by intros _ ?%elem_of_nil|].
  intros [Hx Hd]%NoDup_cons [->|He]%elem_of_cons [->|He']%elem_of_cons Hk; auto.
  - exfalso. apply Hx. rewrite Hk. apply list_elem_of_In, in_map. by apply list_elem_of_In.
  - exfalso. apply Hx. rewrite <- Hk. apply list_elem_of_In, in_map.
    by apply list_elem_of_In.
Qed.

Lemma expired_keys_elem d now k :
  k ∈ expired_keys d now → ∃ e, e ∈ d ∧ e.1 = k ∧ is_expired now e = true.
Proof.
  unfold expired_keys. rewrite list_elem_of_In, in_map_iff.
  intros (e & <- & He). apply list_elem_of_In, list_elem_of_filter in He as [H1 H2].
  eauto.
Qed.

Lemma evict_dropped d now e :
  NoDup (map fst d) → e ∈ d → e ∉ evict d now →
  cache_limit < length d ∧ is_expired now e = true.
Proof.
  intros Hd He Hout. unfold evict in Hout.
  destruct (cache_limit <? length d)%nat eqn:El; [|done].
  apply Nat.ltb_lt in El. split; [done|].
  destruct (decide (e.1 ∈ take evict_batch (expired_keys d now))) as [Hin|Hnot].
  - apply elem_of_take in Hin as (i & Hin & _).
    apply list_elem_of_lookup_2, expired_keys_elem in Hin as (e' & He' & Hk & Hexp).
    by rewrite (key_unique d e e').
  - exfalso. apply Hout. by apply del_all_keeps.
Qed.

(** C10 (amended): the cache is not bounded by 1000.  A call keeps the keys
    distinct, adds at most one entry and removes at most 100; a cached tree is
    returned exactly while its age is under the TTL; and an entry of another
    file leaves the cache only when the size has passed 1000 and the entry has
    expired. *)
Theorem parse_file_with_cache_spec d file_path now parsed :
  NoDup (map fst d) →
  let r := (_parse_file_with_cache d file_path now parsed).1 in
  let d' := (_parse_file_with_cache d file_path now parsed).2 in
  NoDup (map fst d') ∧
  length d' ≤ S (length d) ∧
  length d ≤ length d' + evict_batch ∧
  (∀ tree ts, dict_get d file_path = Some (tree, ts) →
     if PrimFloat.ltb (now - ts) cache_ttl then r = Some tree ∧ d' = d
     else r = parsed) ∧
  (∀ e, e ∈ d → e.1 ≠ file_path → e ∉ d' →
     cache_limit < S (length d) ∧ is_expired now e = true).
Proof.
  intros Hd r d'. subst r d'. unfold _parse_file_with_cache.
  assert (Hstore : ∀ tree,
    let d1 := dict_set d file_path (tree, now) in
    NoDup (map fst (evict d1 now)) ∧
    length (evict d1 now) ≤ S (length d) ∧
    length d ≤ length (evict d1 now) + evict_batch ∧
    (∀ e, e ∈ d → e.1 ≠ file_path → e ∉ evict d1 now →
       cache_limit < S (length d) ∧ is_expired now e = true)).
  { intros tree d1.
    pose proof (dict_set_length d file_path (tree, now)) as Hle.
    pose proof (dict_set_length_ge d file_path (tree, now)) as Hge.
    pose proof (evict_length_ge d1 now) as Hev. fold d1 in Hle, Hge.
    split; [|split; [|split]].
    - unfold evict. destruct (_ <? _)%nat; [apply del_all_NoDup|];
        by apply dict_set_NoDup.
    - unfold evict. destruct (_ <? _)%nat; [|done].
      etrans; [apply del_all_length|done].
    - lia.
    - intros e He Hk Hout.
      apply evict_dropped in Hout as [Hl Hx];
        [|by apply dict_set_NoDup|by apply dict_set_other].
      split; [lia|done]. }
  destruct (dict_get d file_path) as [[cached_tree cache_time]|] eqn:Eg.
  - destruct (PrimFloat.ltb (now - cache_time) cache_ttl) eqn:Et; simpl.
    + split; [done|]. split; [lia|]. split; [lia|]. split.
      * intros tree ts [= -> ->]. by rewrite Et.
      * intros e He _ Hout. done.
    + destruct parsed as [tree|]; simpl.
      * destruct (Hstore tree) as (H1 & H2 & H3 & H4).
        split; [done|]. split; [done|]. split; [done|]. split; [|done].
        intros tree' ts [= -> ->]. by rewrite Et.
      * split; [done|]. split; [lia|]. split; [lia|]. split.
        -- intros tree' ts [= -> ->]. by rewrite Et.
        -- intros e He _ Hout. done.
  - destruct parsed as [tree|]; simpl.
    + destruct (Hstore tree) as (H1 & H2 & H3 & H4). done.
    + split; [done|]. split; [lia|]. split; [lia|]. split; [done|].
      intros e He _ Hout. done.
Qed.

End Facts.

(** 1001 distinct files, all parsed at the same clock value. *)
Definition java_file (i : nat) : string := "F" +:+ pretty i +:+ ".java".

Definition burst : list (string * float * option unit) :=
  map (λ i, (java_file i, 0.0, Some tt)) (seq 0%nat 1001%nat).

(** C10, as stated, fails: after 1001 files parsed within the TTL the cache
    holds 1001 entries. *)
Lemma cache_exceeds_1000 : length (parse_all burst []) = 1001%nat.
Proof. vm_compute. reflexivity. Qed.

Lemma parse_file_with_cache_spec_witness :
  let r := (_parse_file_with_cache [("A.java", (tt, 0.0))] "B.java" 400.0 (Some tt)).1 in
  let d' := (_parse_file_with_cache [("A.java", (tt, 0.0))] "B.java" 400.0 (Some tt)).2 in
  NoDup (map fst d') ∧
  (length d' ≤ 2)%nat ∧
  (1 ≤ length d' + evict_batch)%nat ∧
  (∀ tree ts, dict_get [("A.java", (tt, 0.0))] "B.java" = Some (tree, ts) →
     if PrimFloat.ltb (400.0 - ts) cache_ttl then r = Some tree ∧ d' = [("A.java", (tt, 0.0))]
     else r = Some tt) ∧
  (∀ e, e ∈ [("A.java", (tt, 0.0))] → e.1 ≠ "B.java" → e ∉ d' →
     (cache_limit < 2)%nat ∧ is_expired 400.0 e = true).
Proof.
  apply (parse_file_with_cache_spec unit [("A.java", (tt, 0.0))] "B.java" 400.0 (Some tt)).
  simpl. apply NoDup_singleton.
Defined.

End AstCacheFacts.

Module TemplateScannerFacts.
Import Heuristics TemplateScanner.

#[local] Open Scope float_scope.

(** The dedup keys of a finding. *)
Definition line_keys (x : finding) : list (option string * string * nat) :=
  map (λ ln, (f_sink x, f_file_path x, ln)) (f_group_lines x).

Definition file_vul (x : finding) : string * option string :=
  (f_file_path x, f_vul_type x).

Definition rule_file (x : finding) : option string * string :=
  (f_sink x, f_file_path x).

Definition count_for (k : option string * string) (fs : list finding) : nat :=
  length (filter (λ x, rule_file x = k) fs).

Lemma loop_inv {S A : Type} (P : S → Prop) (body : S → A → S * flow) :
  (∀ st x, P st → P (body st x).1) → ∀ l st, P st → P (loop body st l).
Proof.
  intros Hbody l. induction l as [|x l IH]; intros st Hst; simpl; [done|].
  specialize (Hbody st x Hst). destruct (body st x) as [st' [|]]; simpl in *; auto.
Qed.

Lemma loop_inv_elem {S A : Type} (P : S → Prop) (body : S → A → S * flow) (l : list A) :
  (∀ st x, x ∈ l → P st → P (body st x).1) → ∀ st, P st → P (loop body st l).
Proof.
  induction l as [|x l IH]; intros Hbody st Hst; simpl; [done|].
  pose proof (Hbody st x (list_elem_of_here x l) Hst) as Hx.
  destruct (body st x) as [st' [|]]; simpl in *; [|done].
  apply IH; [|done]. intros st1 y Hy. apply Hbody. by right.
Qed.

Section ScanInvariant.
Variable re_ok : string → bool.
Variable re_search : string → string → bool.
Variable should_stop : nat → bool.
Variable cfg : config.

Definition counted (st : scan) (k : option string * string) : nat :=
  default 0%nat (per_file_rule_count st !! k).

(** The dedup invariant of the scanner state. *)
Record inv (st : scan) : Prop := Inv {
  inv_file_vul : NoDup (map file_vul (findings st));
  inv_file_vul_seen : ∀ x, x ∈ findings st → file_vul x ∈ file_vul_type_seen st;
  inv_lines : NoDup (concat (map line_keys (findings st)));
  inv_lines_seen : ∀ k, k ∈ concat (map line_keys (findings st)) → k ∈ seen st;
  inv_count : ∀ k, (count_for k (findings st) ≤ counted st k)%nat;
  inv_cap : ∀ k, (counted st k ≤ PER_FILE_RULE_CAP cfg)%nat }.

Lemma inv_tick st : inv st → inv (tick st).
Proof. intros []. by split. Qed.

Lemma inv_set_regex_evals n st : inv st → inv (set_regex_evals n st).
Proof. intros []. by split. Qed.

Lemma inv_notify st : inv st → inv (notify st).
Proof. intros []. by split. Qed.

Lemma inv_set_partial_since_last n st : inv st → inv (set_partial_since_last n st).
Proof. intros []. by split. Qed.

Lemma inv_mark_seen key st : inv st → inv (mark_seen key st).
Proof.
  intros []. split; try done. simpl. intros k Hk.
  apply elem_of_union. right. auto.
Qed.

Lemma count_for_snoc k fs x :
  count_for k (fs ++ [x]) = (count_for k fs + (if decide (rule_file x = k) then 1 else 0))%nat.
Proof.
  unfold count_for. rewrite filter_app, length_app. f_equal.
  rewrite filter_cons, filter_nil. by destruct (decide (rule_file x = k)).
Qed.

(** Appending an item whose keys are new keeps the invariant. *)
Lemma inv_emit st item :
  inv st →
  file_vul item ∉ file_vul_type_seen st →
  (counted st (rule_file item) < PER_FILE_RULE_CAP cfg)%nat →
  NoDup (line_keys item) →
  (∀ k, k ∈ line_keys item → k ∈ seen st ∧ k ∉ concat (map line_keys (findings st))) →
  inv (publish cfg item
         (mark_emitted (rule_file item) (counted st (rule_file item)) (file_vul item) st)).
Proof.
  intros [H1 H2 H3 H4 H5 H6] Hfv Hcount Hnd Hkeys.
  assert (Hinv : inv (append_item item
            (mark_emitted (rule_file item) (counted st (rule_file item)) (file_vul item) st))).
  { split; simpl.
    - rewrite map_app. simpl. apply NoDup_app. split; [done|]. split.
      + intros y Hy ->%list_elem_of_singleton. apply Hfv.
        apply list_elem_of_In, in_map_iff in Hy as (x & <- & Hx).
        apply H2. by apply list_elem_of_In.
      + apply NoDup_singleton.
    - intros x [Hx| ->%list_elem_of_singleton]%elem_of_app; apply elem_of_union.
      + right. auto.
      + left. by apply elem_of_singleton.
    - rewrite map_app, concat_app. simpl. rewrite app_nil_r.
      apply NoDup_app. split; [done|]. split; [|done].
      intros k Hk Hk'. by destruct (Hkeys k Hk').
    - intros k. rewrite map_app, concat_app. simpl. rewrite app_nil_r.
      intros [Hk|Hk]%elem_of_app; [auto|]. by destruct (Hkeys k Hk).
    - intros k. rewrite count_for_snoc. unfold counted. simpl.
      destruct (decide (rule_file item = k)) as [<-|Hne].
      + rewrite lookup_insert_eq. simpl. specialize (H5 (rule_file item)).
        unfold counted in H5. lia.
      + rewrite lookup_insert_ne by done. specialize (H5 k). unfold counted in H5. lia.
    - intros k. unfold counted in *. simpl.
      destruct (decide (rule_file item = k)) as [<-|Hne].
      + rewrite lookup_insert_eq. simpl. lia.
      + rewrite lookup_insert_ne by done. apply H6. }
  unfold publish. destruct (_ && _); [|done].
  by apply inv_set_partial_since_last, inv_notify.
Qed.

(** *** The FORM_NO_CSRF block *)

Lemma inv_form_line rule f lines st il :
  inv st → inv (form_line cfg rule f lines st il).1.
Proof.
  intros Hst. unfold form_line.
  destruct (_ && _); [|done]. destruct (_ && _); [|done].
  destruct (negb (bool_decide _) && _ && negb (bool_decide _)) eqn:E; [|done].
  apply andb_true_iff in E as [[E1 E2]%andb_true_iff E3].
  apply negb_true_iff, bool_decide_eq_false in E1, E3. apply Nat.ltb_lt in E2.
  unfold after_publish. set (key := (name rule, rel f, (il.1 + 1)%nat)) in *.
  assert (Hgoal : inv (publish cfg (form_item cfg rule f il.1)
            (mark_emitted (name rule, rel f)
               (default 0%nat (per_file_rule_count st !! (name rule, rel f)))
               (rel f, rule_vul_type rule) (mark_seen key st)))).
  { apply (inv_emit (mark_seen key st) (form_item cfg rule f il.1)).
    - by apply inv_mark_seen.
    - done.
    - done.
    - apply NoDup_singleton.
    - intros k ->%list_elem_of_singleton. split.
      + apply elem_of_union. left. by apply elem_of_singleton.
      + intros Hk. apply E1. by apply (inv_lines_seen st Hst). }
  by destruct (max_findings_reached _).
Qed.

(** *** The line pass of an ordinary rule *)

Section LinePass.
Variable rule : template_rule.
Variable f : file.
Variable found : list finding.

(** During the line pass the findings stay as they were, and every hit
    line has a fresh key. *)
Record pass_inv (sh : scan * list (nat * float)) : Prop := PassInv {
  pass_scan : inv sh.1;
  pass_findings : findings sh.1 = found;
  pass_nodup : NoDup (map fst sh.2);
  pass_keys : ∀ ln, ln ∈ map fst sh.2 →
      (name rule, rel f, ln) ∈ seen sh.1 ∧
      (name rule, rel f, ln) ∉ concat (map line_keys found) }.

Lemma pass_inv_tick st hits : pass_inv (st, hits) → pass_inv (tick st, hits).
Proof. intros [[] ? ? ?]. split; [by split|done..]. Qed.

Lemma pass_inv_evals n st hits : pass_inv (st, hits) → pass_inv (set_regex_evals n st, hits).
Proof. intros [[] ? ? ?]. split; [by split|done..]. Qed.

Lemma pass_try_pattern ext lines i line sh pat :
  pass_inv sh → pass_inv (try_pattern re_search should_stop cfg rule f ext lines i line sh pat).1.
Proof.
  destruct sh as [st hits]. intros Hsh. unfold try_pattern. simpl.
  apply pass_inv_tick in Hsh.
  destruct (should_stop (polls st)); [done|].
  destruct (_ <=? _)%nat; [done|].
  apply (pass_inv_evals (S (regex_evals st))) in Hsh.
  set (st1 := set_regex_evals _ _) in *.
  destruct (negb (re_search pat line)); [done|].
  destruct (apply_must_substrings cfg && _); [done|].
  destruct (_ && PrimFloat.ltb _ 0.3); [done|].
  destruct (PrimFloat.ltb (_analyze_context _ _ _ _) _); [done|].
  case_bool_decide as Hkey; [done|]. simpl.
  destruct Hsh as [Hinv Hf Hnd Hk]. simpl in *.
  split; simpl.
  - by apply inv_mark_seen.
  - done.
  - rewrite map_app. simpl. apply NoDup_app. split; [done|]. split; [|apply NoDup_singleton].
    intros ln Hln ->%list_elem_of_singleton. by destruct (Hk _ Hln).
  - intros ln. rewrite map_app. simpl.
    intros [Hln| ->%list_elem_of_singleton]%elem_of_app.
    + destruct (Hk _ Hln). split; [|done]. apply elem_of_union. by right.
    + split; [apply elem_of_union; left; by apply elem_of_singleton|].
      intros Hin. apply Hkey. apply (inv_lines_seen _ Hinv).
      by assert (findings st1 = found) as -> by exact Hf.
Qed.

Lemma pass_scan_line ext lines pats hints sh il :
  pass_inv sh →
  pass_inv (scan_line re_search should_stop cfg rule f ext lines pats hints sh il).1.
Proof.
  destruct sh as [st hits]. intros Hsh. unfold scan_line. simpl.
  apply pass_inv_tick in Hsh.
  destruct (should_stop (polls st)); [done|].
  destruct (_ <? _)%Z; [done|].
  destruct (_ && negb (any_in _ _)); [done|].
  destruct (_ <=? _)%nat; [done|]. simpl.
  apply (loop_inv pass_inv); [|done].
  intros sh' pat. apply pass_try_pattern.
Qed.

(** Emitting the groups of the sorted hit lines [nums]: once an item is
    out, its file and type are marked and every further group breaks off. *)
Variable nums : list nat.
Hypothesis nums_nodup : NoDup nums.
Hypothesis nums_fresh :
  ∀ ln, ln ∈ nums → (name rule, rel f, ln) ∉ concat (map line_keys found).

Record emit_inv (st : scan) : Prop := EmitInv {
  emit_scan : inv st;
  emit_seen : ∀ ln, ln ∈ nums → (name rule, rel f, ln) ∈ seen st;
  emit_once : findings st = found ∨ (rel f, rule_vul_type rule) ∈ file_vul_type_seen st }.

Lemma emit_group_inv st g :
  emit_inv st → emit_inv (emit_group cfg rule f nums st g).1.
Proof.
  intros [Hinv Hseen Honce]. unfold emit_group.
  destruct (_ <=? _)%nat eqn:Ecap; [done|]. apply Nat.leb_gt in Ecap.
  case_bool_decide as Hfv; [done|].
  destruct Honce as [Hfound|Hmarked]; [|done].
  unfold after_publish.
  set (item := group_item cfg rule f nums g).
  assert (Hgoal : inv (publish cfg item
            (mark_emitted (rule_file item) (counted st (rule_file item)) (file_vul item) st))).
  { apply inv_emit; try done.
    - unfold item, group_item, line_keys. simpl.
      apply NoDup_fmap_2; [by intros ?? [= ->]|]. by apply NoDup_filter.
    - intros k Hk. unfold item, group_item, line_keys in Hk. simpl in Hk.
      apply list_elem_of_In, in_map_iff in Hk as (ln & <- & Hln).
      apply list_elem_of_In, list_elem_of_filter in Hln as [_ Hln].
      split; [by apply Hseen|]. rewrite Hfound. by apply nums_fresh. }
  assert (Hafter : emit_inv (publish cfg item
            (mark_emitted (rule_file item) (counted st (rule_file item)) (file_vul item) st))).
  { split; [done| |].
    - intros ln Hln. unfold publish. destruct (_ && _); simpl; by apply Hseen.
    - right. unfold publish. destruct (_ && _); simpl;
        apply elem_of_union; left; by apply elem_of_singleton. }
  change (emit_inv
            (if max_findings_reached (publish cfg item
                  (mark_emitted (rule_file item) (counted st (rule_file item))
                     (file_vul item) st))
             then (publish cfg item
                     (mark_emitted (rule_file item) (counted st (rule_file item))
                        (file_vul item) st), Break)
             else (publish cfg item
                     (mark_emitted (rule_file item) (counted st (rule_file item))
                        (file_vul item) st), Next)).1).
  by destruct (max_findings_reached _).
Qed.

End LinePass.

Lemma inv_scan_rule f ext lines st rule :
  inv st → inv (scan_rule re_ok re_search should_stop cfg f ext lines st rule).1.
Proof.
  intros Hst. unfold scan_rule. destruct (String.eqb _ "FORM_NO_CSRF").
  - assert (inv (loop (form_line cfg rule f lines) st (imap pair lines))) as Hloop.
    { apply (loop_inv inv); [|done]. intros st' il. apply inv_form_line. }
    by destruct (max_findings_reached _).
  - set (sh := loop _ (st, []) _).
    assert (Hsh : pass_inv rule f (findings st) sh).
    { apply (loop_inv (pass_inv rule f (findings st))).
      - intros sh' il. apply pass_scan_line.
      - split; simpl; [done|done|apply NoDup_nil_2|by intros ln ?%elem_of_nil]. }
    destruct Hsh as [Hinv Hf Hnd Hk].
    destruct (sh.2) as [|h hits] eqn:Ehits; [done|]. simpl.
    rewrite <- Ehits in *.
    assert (Hperm : hit_lines_nums sh.2 ≡ₚ map fst sh.2)
      by apply merge_sort_Permutation.
    apply (emit_scan rule f (findings st) (hit_lines_nums sh.2)).
    apply (loop_inv (emit_inv rule f (findings st) (hit_lines_nums sh.2))).
    + intros st' g. apply emit_group_inv.
      * by rewrite Hperm.
      * intros ln Hln. rewrite Hperm in Hln. by destruct (Hk _ Hln).
    + split; [done| |by left].
      intros ln Hln. rewrite Hperm in Hln. by destruct (Hk _ Hln).
Qed.

Lemma scan_line_stopped rule f ext lines pats hints sh il :
  (∀ n, should_stop n = true) →
  scan_line re_search should_stop cfg rule f ext lines pats hints sh il
  = (tick sh.1, sh.2, Break).
Proof. intros Hstop. unfold scan_line. by rewrite Hstop. Qed.

(** With the stop predicate raised, an ordinary rule reports nothing: its
    line loop breaks at the first line. *)
Lemma line_rule_respects_stop f ext lines st rule :
  (∀ n, should_stop n = true) →
  String.eqb (PyStr.upper (or_else (name rule) "")) "FORM_NO_CSRF" = false →
  findings (scan_rule re_ok re_search should_stop cfg f ext lines st rule).1 = findings st.
Proof.
  intros Hstop Hname. unfold scan_rule. rewrite Hname.
  destruct lines as [|l lines]; [done|]. simpl.
  rewrite scan_line_stopped by done. done.
Qed.

Lemma inv_scan_file st f :
  inv st → inv (scan_file re_ok re_search should_stop cfg st f).1.
Proof.
  intros Hst. unfold scan_file. destruct (_ && _); [done|].
  destruct (content f) as [lines|]; [|done].
  set (rules_to_check := if java_related _ then _ else _).
  assert (inv (loop (scan_rule re_ok re_search should_stop cfg f (ext_of (file_name f)) lines)
                 (set_regex_evals 0 st) rules_to_check)) as Hloop.
  { apply (loop_inv inv); [|by apply inv_set_regex_evals].
    intros st' rule. apply inv_scan_rule. }
  by destruct (max_findings_reached _).
Qed.

Lemma inv_scan_dir st d :
  inv st → inv (scan_dir re_ok re_search should_stop cfg st d).
Proof.
  intros Hst. unfold scan_dir. destruct (any_in _ _); [done|].
  apply (loop_inv inv); [|done]. intros st' f. apply inv_scan_file.
Qed.

Lemma inv_scan_template_files walk partial0 :
  inv (_scan_template_files re_ok re_search should_stop cfg walk partial0).
Proof.
  assert (Hinit : inv (Scan [] partial0 ∅ ∅ ∅ 0 0 0 0)).
  { split; simpl.
    - apply NoDup_nil_2.
    - by intros x ?%elem_of_nil.
    - apply NoDup_nil_2.
    - by intros k ?%elem_of_nil.
    - intros k. unfold count_for. simpl. lia.
    - intros k. unfold counted. simpl. rewrite lookup_empty. simpl. lia. }
  unfold _scan_template_files. destruct (template_rules cfg); [done|].
  assert (Hwalk : ∀ ds st, inv st →
            inv (foldl (scan_dir re_ok re_search should_stop cfg) st ds)).
  { induction ds as [|d ds IH]; intros st Hst; simpl; [done|].
    apply IH. by apply inv_scan_dir. }
  specialize (Hwalk walk _ Hinit).
  destruct (on_partial cfg); simpl; [|done].
  destruct (0 <? _)%nat; by repeat apply inv_notify.
Qed.

(** C7: in one run of the template scanner no two findings share a
    (file, vul_type) pair, no two findings share a (rule, file, line) key, and
    a (rule, file) pair has at most 5 findings in full mode, 1 in lite mode. *)
Theorem scan_dedup (walk : list directory) (partial0 : list finding) :
  let result := findings (_scan_template_files re_ok re_search should_stop cfg walk partial0) in
  NoDup (map file_vul result) ∧
  NoDup (concat (map line_keys result)) ∧
  ∀ k, (count_for k result ≤ if lite_fast cfg then 1 else 5)%nat.
Proof.
  destruct (inv_scan_template_files walk partial0) as [H1 _ H3 _ H5 H6].
  repeat split; [done..|].
  intros k. etrans; [apply H5|]. etrans; [apply H6|].
  unfold PER_FILE_RULE_CAP, is_lite_mode. by destruct (lite_fast cfg).
Qed.

(** *** Where the findings come from *)

(** A finding is an item of the FORM_NO_CSRF block or an item built for a
    group of hit lines of one of the template rules. *)
Definition from_rule (x : finding) : Prop :=
  (∃ rule f i, x = form_item cfg rule f i) ∨
  (∃ rule f nums g, rule ∈ template_rules cfg ∧ x = group_item cfg rule f nums g).

Definition sourced (st : scan) : Prop := Forall from_rule (findings st).

Lemma sourced_publish item st :
  from_rule item → sourced st → sourced (publish cfg item st).
Proof.
  intros Hitem Hst. unfold sourced, publish.
  destruct (_ && _); simpl; apply Forall_app; split; try done;
    by apply Forall_singleton.
Qed.

Lemma sourced_form_line rule f lines st il :
  sourced st → sourced (form_line cfg rule f lines st il).1.
Proof.
  intros Hst. unfold form_line.
  destruct (_ && _); [|done]. destruct (_ && _); [|done].
  destruct (_ && _); [|done]. unfold after_publish.
  assert (sourced (publish cfg (form_item cfg rule f il.1)
            (mark_emitted (name rule, rel f)
               (default 0%nat (per_file_rule_count st !! (name rule, rel f)))
               (rel f, rule_vul_type rule)
               (mark_seen (name rule, rel f, (il.1 + 1)%nat) st)))) as Hgoal.
  { apply sourced_publish; [|done]. left. eauto. }
  by destruct (max_findings_reached _).
Qed.

Lemma try_pattern_findings rule f ext lines i line sh pat :
  findings (try_pattern re_search should_stop cfg rule f ext lines i line sh pat).1.1
  = findings sh.1.
Proof.
  unfold try_pattern. destruct (should_stop _); [done|].
  destruct (_ <=? _)%nat; [done|]. destruct (negb _); [done|].
  destruct (apply_must_substrings cfg && _); [done|].
  destruct (_ && PrimFloat.ltb _ 0.3); [done|].
  destruct (PrimFloat.ltb (_analyze_context _ _ _ _) _); [done|].
  by case_bool_decide.
Qed.

Lemma scan_line_findings rule f ext lines pats hints sh il :
  findings (scan_line re_search should_stop cfg rule f ext lines pats hints sh il).1.1
  = findings sh.1.
Proof.
  unfold scan_line. destruct (should_stop _); [done|].
  destruct (_ <? _)%Z; [done|]. destruct (_ && negb (any_in _ _)); [done|].
  destruct (_ <=? _)%nat; [done|]. simpl.
  apply (loop_inv (λ sh', findings sh'.1 = findings sh.1)); [|done].
  intros sh' pat Hsh'. by rewrite try_pattern_findings.
Qed.

Lemma sourced_emit_group rule f nums st g :
  rule ∈ template_rules cfg → sourced st → sourced (emit_group cfg rule f nums st g).1.
Proof.
  intros Hrule Hst. unfold emit_group.
  destruct (_ <=? _)%nat; [done|]. case_bool_decide; [done|]. unfold after_publish.
  assert (sourced (publish cfg (group_item cfg rule f nums g)
            (mark_emitted (name rule, rel f)
               (default 0%nat (per_file_rule_count st !! (name rule, rel f)))
               (rel f, rule_vul_type rule) st))) as Hgoal.
  { apply sourced_publish; [|done]. right. eauto 6. }
  by destruct (max_findings_reached _).
Qed.

Lemma sourced_scan_rule f ext lines st rule :
  rule ∈ template_rules cfg → sourced st →
  sourced (scan_rule re_ok re_search should_stop cfg f ext lines st rule).1.
Proof.
  intros Hrule Hst. unfold scan_rule. destruct (String.eqb _ "FORM_NO_CSRF").
  - assert (sourced (loop (form_line cfg rule f lines) st (imap pair lines))) as Hloop.
    { apply (loop_inv sourced); [|done]. intros st' il. apply sourced_form_line. }
    by destruct (max_findings_reached _).
  - set (sh := loop _ (st, []) _).
    assert (Hsh : findings sh.1 = findings st).
    { apply (loop_inv (λ sh', findings sh'.1 = findings st)); [|done].
      intros sh' il Hsh'. by rewrite scan_line_findings. }
    assert (Hsrc : sourced sh.1) by (unfold sourced; by rewrite Hsh).
    destruct (sh.2) as [|h hits]; [done|]. simpl.
    apply (loop_inv sourced); [|done]. intros st' g. by apply sourced_emit_group.
Qed.

Lemma ext_map_rules ext rule : rule ∈ ext_map cfg ext → rule ∈ template_rules cfg.
Proof.
  unfold ext_map. rewrite list_elem_of_In, in_concat.
  intros (l & Hl & Hr). apply in_map_iff in Hl as (r & <- & Hr').
  apply in_concat in Hr as (l' & Hl' & Hr).
  apply in_map_iff in Hl' as (e & <- & _).
  destruct (String.eqb e ext); [|done]. destruct Hr as [<-|[]].
  by apply list_elem_of_In.
Qed.

Lemma sourced_scan_file st f :
  sourced st → sourced (scan_file re_ok re_search should_stop cfg st f).1.
Proof.
  intros Hst. unfold scan_file. destruct (_ && _); [done|].
  destruct (content f) as [lines|]; [|done].
  set (rules_to_check := if java_related _ then _ else _).
  assert (sourced (loop (scan_rule re_ok re_search should_stop cfg f (ext_of (file_name f)) lines)
                 (set_regex_evals 0 st) rules_to_check)) as Hloop.
  { apply (loop_inv_elem sourced); [|done].
    intros st' rule Hrule. apply sourced_scan_rule.
    unfold rules_to_check in Hrule. destruct (java_related _); [done|].
    by apply ext_map_rules in Hrule. }
  by destruct (max_findings_reached _).
Qed.

Lemma sourced_scan_template_files walk partial0 :
  sourced (_scan_template_files re_ok re_search should_stop cfg walk partial0).
Proof.
  unfold _scan_template_files.
  destruct (template_rules cfg); [apply Forall_nil_2|].
  assert (Hwalk : ∀ ds st, sourced st →
            sourced (foldl (scan_dir re_ok re_search should_stop cfg) st ds)).
  { induction ds as [|d ds IH]; intros st Hst; simpl; [done|].
    apply IH. unfold scan_dir. destruct (any_in _ _); [done|].
    apply (loop_inv sourced); [|done]. intros st' f. apply sourced_scan_file. }
  specialize (Hwalk walk (Scan [] partial0 ∅ ∅ ∅ 0 0 0 0) (Forall_nil_2 _)).
  destruct (on_partial cfg); simpl; [|done].
  by destruct (0 <? _)%nat.
Qed.

(** C6 (amended): a finding of the scanner that comes from the grouped-line
    path belongs to a template rule and carries the group confidence; below
    0.5 a High rule is emitted as Medium, and below 0.3 a rule that is not
    High is emitted as Low. *)
Theorem grouped_severity (walk : list directory) (partial0 : list finding) (x : finding) :
  x ∈ findings (_scan_template_files re_ok re_search should_stop cfg walk partial0) →
  (∃ rule f i, x = form_item cfg rule f i) ∨
  (∃ rule, rule ∈ template_rules cfg ∧ f_sink x = name rule ∧
     (PrimFloat.ltb (f_confidence x) 0.5 = true →
      or_else (severity rule) "Medium" = "High" → f_severity x = "Medium") ∧
     (PrimFloat.ltb (f_confidence x) 0.3 = true →
      or_else (severity rule) "Medium" ≠ "High" → f_severity x = "Low")).
Proof.
  intros Hx. pose proof (sourced_scan_template_files walk partial0) as Hsrc.
  unfold sourced in Hsrc. rewrite Forall_forall in Hsrc.
  destruct (Hsrc x Hx) as [Hform|(rule & f & nums & g & Hrule & ->)]; [by left|].
  right. exists rule. split; [done|]. split; [done|].
  unfold group_item, adjust_severity. simpl. split.
  - intros -> ->. done.
  - intros H3 Hne. apply String.eqb_neq in Hne. rewrite Hne, andb_false_r, H3. done.
Qed.

End ScanInvariant.

End TemplateScannerFacts.

(** ** Runs of the scanner on small projects *)
Module ScannerRuns.
Import Heuristics TemplateScanner TemplateScannerFacts.

#[local] Open Scope float_scope.

Definition nl : string := String (ascii_of_nat 10) EmptyString.

(** The scanner with word patterns, in full mode, no flags, no callback. *)
Definition run (should_stop : nat → bool) (rules : list template_rule)
    (project : list file) : scan :=
  _scan_template_files (λ _, true) word_search should_stop
    (Config rules false [] false false false) [Directory "/project" project] [].

Definition never : nat → bool := λ _, false.
Definition always : nat → bool := λ _, true.

(** *** Commented-out sinks (scenario S5) *)

Definition rce_rule : template_rule :=
  TemplateRule (Some "RCE_EXEC") (Some "RCE") None (Some "High") ["java"] ["exec"]
    [] [] false "".

Definition sqli_rule : template_rule :=
  TemplateRule (Some "SQL_EXEC") (Some "SQLI") None (Some "High") ["java"] ["executeQuery"]
    [] [] false "".

Definition exec_comment : string := "// runtime.getRuntime().exec(userCmd)" +:+ nl.
Definition query_comment : string := "// sqlStmt.executeQuery(userInput)" +:+ nl.

Definition cmd_java : file := File "Cmd.java" "Cmd.java" "/project/Cmd.java" (Some [exec_comment]).
Definition dao_java : file := File "Dao.java" "Dao.java" "/project/Dao.java" (Some [query_comment]).

(** C5 fails on the code: both comment lines are recognised by
    [_is_false_positive], and both are reported all the same, because the
    scanner drops a false positive only when [_calculate_confidence], started
    from 0.5 or 0.6, falls below 0.3. *)
Theorem comment_lines_are_reported :
  _is_false_positive exec_comment [exec_comment] 1 CONTEXT_WINDOW rce_rule = true ∧
  _is_false_positive query_comment [query_comment] 1 CONTEXT_WINDOW sqli_rule = true ∧
  map (λ x, (f_vul_type x, f_call_chains x)) (findings (run never [rce_rule] [cmd_java]))
    = [(Some "RCE", [["Cmd.java:1"]])] ∧
  map (λ x, (f_vul_type x, f_call_chains x)) (findings (run never [sqli_rule] [dao_java]))
    = [(Some "SQLI", [["Dao.java:1"]])].
Proof. repeat split; vm_compute; reflexivity. Qed.

(** *** A weak hit of a High rule in a JSP page *)

Definition el_rule : template_rule :=
  TemplateRule (Some "EL_EXPR") (Some "EL_INJECTION") None (Some "High") ["jsp"]
    ["userinput"] [] [] false "".

Definition page_jsp : file :=
  File "page.jsp" "page.jsp" "/project/page.jsp"
    (Some ["${userInput}" +:+ nl; "filter quote" +:+ nl]).

(** C6, as stated, fails: the finding has group confidence 0.25, below 0.3,
    and is emitted as Medium, not Low, because its rule is High. *)
Lemma weak_high_hit_is_medium :
  map (λ x, (f_severity x, f_confidence x, PrimFloat.ltb (f_confidence x) 0.3))
    (findings (run never [el_rule] [page_jsp]))
  = [("Medium", 0.25, true)].
Proof. vm_compute. reflexivity. Qed.

Lemma grouped_severity_witness :
  let x := group_item (Config [el_rule] false [] false false false) el_rule page_jsp
             [1%nat] (1%nat, 1%nat, 0.25) in
  (∃ rule f i, x = form_item (Config [el_rule] false [] false false false) rule f i) ∨
  (∃ rule, rule ∈ [el_rule] ∧ f_sink x = name rule ∧
     (PrimFloat.ltb (f_confidence x) 0.5 = true →
      or_else (severity rule) "Medium" = "High" → f_severity x = "Medium") ∧
     (PrimFloat.ltb (f_confidence x) 0.3 = true →
      or_else (severity rule) "Medium" ≠ "High" → f_severity x = "Low")).
Proof.
  apply (grouped_severity (λ _, true) word_search never
           (Config [el_rule] false [] false false false)
           [Directory "/project" [page_jsp]] []).
  vm_compute. left.
Defined.

(** *** Stop raised before the scan reaches a page with a form *)

Definition csrf_rule : template_rule :=
  TemplateRule (Some "FORM_NO_CSRF") (Some "CSRF") None (Some "Medium") ["jsp"] []
    [] [] false "".

Definition form_jsp : file :=
  File "form.jsp" "form.jsp" "/project/form.jsp"
    (Some ["<form method=" +:+ quoted "post" +:+ ">" +:+ nl;
           "${userInput}" +:+ nl; "filter quote" +:+ nl; "</form>" +:+ nl]).

(** C9 fails on the code: the stop predicate is true from its first poll, made
    while [page.jsp] is scanned.  The line rule then reports nothing in either
    file, but the FORM_NO_CSRF block of the next file, [form.jsp], never polls
    it and appends its finding to the results and to [partial_results]; with
    the predicate false both rules report. *)
Theorem form_rule_ignores_stop :
  let stopped := run always [el_rule; csrf_rule] [page_jsp; form_jsp] in
  (0 < polls (run always [el_rule; csrf_rule] [page_jsp]))%nat ∧
  findings (run always [el_rule; csrf_rule] [page_jsp]) = [] ∧
  map (λ x, (f_sink x, f_file_path x)) (findings stopped)
    = [(Some "FORM_NO_CSRF", "form.jsp")] ∧
  partial_results stopped = findings stopped ∧
  map (λ x, (f_sink x, f_file_path x))
    (findings (run never [el_rule; csrf_rule] [page_jsp; form_jsp]))
    = [(Some "EL_EXPR", "page.jsp"); (Some "EL_EXPR", "form.jsp");
       (Some "FORM_NO_CSRF", "form.jsp")].
Proof. repeat split; vm_compute; first [reflexivity | lia]. Qed.

End ScannerRuns.

(** ** Facts about the string operations *)
Module PyStrFacts.

Lemma rev_acc_rev_acc y : ∀ z, PyStr.rev_acc (PyStr.rev_acc y z) "" = PyStr.rev_acc z y.
Proof. induction y as [|d y IH]; intros z; simpl; [done|]. by rewrite IH. Qed.

Lemma rev_rev x : PyStr.rev (PyStr.rev x) = x.
Proof. unfold PyStr.rev. by rewrite rev_acc_rev_acc. Qed.

Lemma split_acc_nonempty sep s : ∀ cur, PyStr.split_acc sep s cur ≠ [].
Proof.
  induction s as [|c t IH]; intros cur; simpl; [done|].
  destruct (Ascii.eqb c sep); [done|apply IH].
Qed.

(** A string without the separator is a single piece. *)
Lemma split_acc_single sep t : ∀ cur b,
  PyStr.split_acc sep t cur = [b] → b = PyStr.rev (PyStr.rev_acc t cur).
Proof.
  induction t as [|c t IH]; intros cur b; simpl.
  - by intros [= <-].
  - destruct (Ascii.eqb c sep); [|apply IH].
    intros [= _ H]. by apply split_acc_nonempty in H.
Qed.

Lemma split_acc_free sep t : ∀ cur,
  PyStr.count_char sep t = 0 →
  PyStr.split_acc sep t cur = [PyStr.rev (PyStr.rev_acc t cur)].
Proof.
  induction t as [|c t IH]; intros cur; simpl; [done|].
  destruct (Ascii.eqb c sep); [done|]. simpl. apply IH.
Qed.

Lemma split_acc_app sep x y : ∀ cur,
  PyStr.count_char sep x = 0 →
  PyStr.split_acc sep (x +:+ y) cur = PyStr.split_acc sep y (PyStr.rev_acc x cur).
Proof.
  induction x as [|c x IH]; intros cur; simpl; [done|].
  destruct (Ascii.eqb c sep); [done|]. simpl. apply IH.
Qed.

(** [(cls + ':' + mtd).split(':')] when neither name holds a colon. *)
Lemma split_join sep cls mtd :
  PyStr.count_char sep cls = 0 → PyStr.count_char sep mtd = 0 →
  PyStr.split sep (cls +:+ String sep mtd) = [cls; mtd].
Proof.
  intros Hc Hm. unfold PyStr.split. rewrite split_acc_app by done. simpl.
  rewrite Ascii.eqb_refl, (split_acc_free _ _ _ Hm). simpl.
  fold (PyStr.rev cls) (PyStr.rev mtd). by rewrite !rev_rev.
Qed.

(** When [s.split(sep)] has two pieces, [s.split(sep, 1)] has the same two. *)
Lemma split_two_split1 sep s a b :
  PyStr.split sep s = [a; b] → PyStr.split1 sep s = [a; b].
Proof.
  unfold PyStr.split, PyStr.split1. generalize EmptyString.
  induction s as [|c t IH]; intros cur; simpl; [done|].
  destruct (Ascii.eqb c sep); [|apply IH].
  intros [= <- Ht]. apply split_acc_single in Ht. simpl in Ht.
  fold (PyStr.rev t) in Ht. by rewrite rev_rev in Ht; subst.
Qed.

End PyStrFacts.

(** ** More on the backtracking search *)
Module ChainFinderPaths.
Import ChainFinder ChainFinderFacts.

(** A caller signature as [_trace_back] needs it: one colon, so that both
    [caller.split(':', 1)] and [method.split(':')] unpack into two names. *)
Definition well_formed (sig : string) : Prop :=
  ∃ cls mtd, PyStr.split ":" sig = [cls; mtd].

Definition callers_well_formed (a : analyzer) : Prop :=
  ∀ callee caller,
    caller ∈ CallGraph.get_list (reverse_call_graph a) callee → well_formed caller.

(** [caller] passes the pruning of callers without parameters. *)
Definition takes_parameters (a : analyzer) (caller : string) : Prop :=
  ∃ cls mtd, PyStr.split1 ":" caller = [cls; mtd] ∧ is_has_parameters a cls mtd = true.

(** A chain in which every element is a recorded caller of the next one and
    was not pruned. *)
Fixpoint call_path (a : analyzer) (chain : list string) : Prop :=
  match chain with
  | caller :: (callee :: _) as rest =>
      caller ∈ CallGraph.get_list (reverse_call_graph a) callee ∧
      takes_parameters a caller ∧ call_path a rest
  | _ => True
  end.

Section Paths.
Variable a : analyzer.

Definition path_inv (st : search) : Prop :=
  Forall (λ e, call_path a (current_path e)) (queue st) ∧
  Forall (call_path a) (paths st).

Lemma visit_caller_path cur st caller st' current_sink rest :
  current_path cur = current_sink :: rest →
  caller ∈ CallGraph.get_list (reverse_call_graph a) current_sink →
  call_path a (current_path cur) → path_inv st →
  visit_caller a cur st caller = Some st' → path_inv st'.
Proof.
  intros Hp Hc Hcur [Hq Hch]. unfold visit_caller.
  case_bool_decide; [by intros [= <-]|].
  case_bool_decide; [by intros [= <-]|].
  destruct (PyStr.split1 ":" caller) as [|cls [|mtd [|? ?]]] eqn:Es; try done.
  destruct (is_has_parameters a cls mtd) eqn:Ehp; simpl; [|by intros [= <-]].
  assert (Hnew : call_path a (caller :: current_path cur)).
  { rewrite Hp. simpl. split; [done|]. split; [by exists cls, mtd|].
    by rewrite Hp in Hcur. }
  destruct (is_entry_point a caller) as [[|]|]; [| |done]; intros [= <-]; split; simpl;
    try done; apply Forall_app; split; try done; by apply Forall_singleton.
Qed.

Lemma for_each_path cur current_sink rest callers : ∀ st st',
  current_path cur = current_sink :: rest →
  (∀ c, c ∈ callers → c ∈ CallGraph.get_list (reverse_call_graph a) current_sink) →
  call_path a (current_path cur) → path_inv st →
  for_each (visit_caller a cur) st callers = Some st' → path_inv st'.
Proof.
  induction callers as [|c cs IH]; intros st st' Hp Hc Hcur Hst; simpl.
  - by intros [= <-].
  - destruct (visit_caller a cur st c) as [st1|] eqn:E; [|done].
    apply IH; try done.
    + intros c' Hc'. apply Hc. by right.
    + eapply visit_caller_path; [exact Hp|apply Hc; left|done..].
Qed.

Lemma search_loop_path should_stop eff fuel : ∀ polls st chains,
  path_inv st → search_loop a should_stop eff fuel polls st = Returned chains →
  Forall (call_path a) chains.
Proof.
  induction fuel as [|fuel IH]; intros polls st chains [Hq Hch]; simpl.
  - destruct (queue st); [by intros [= <-]|done].
  - destruct (queue st) as [|cur rest] eqn:Eq; [by intros [= <-]|].
    destruct (should_stop polls); [by intros [= <-]|].
    apply Forall_cons in Hq as [Hcur Hrest].
    destruct (eff <=? current_depth cur)%Z; [apply IH; by split|].
    destruct (current_path cur) as [|current_sink ?] eqn:Ep; [done|].
    destruct (for_each _ _ _) as [st'|] eqn:Ef; [|done].
    apply IH. eapply for_each_path; [exact Ep| |by rewrite Ep| |exact Ef]; [done|].
    by split.
Qed.

End Paths.

(** X1: Every chain returned by [_trace_back] is a path of the reverse call
    graph: each element is a recorded caller of the next one, and every caller
    on it takes parameters as far as the class index knows. *)
Theorem trace_back_chains_are_call_paths a should_stop sink max_depth fuel chains chain :
  _trace_back a should_stop sink max_depth fuel = Returned chains →
  chain ∈ chains → call_path a chain.
Proof.
  unfold _trace_back. intros Hrun Hin.
  apply search_loop_path in Hrun.
  - rewrite Forall_forall in Hrun. by apply Hrun.
  - split; [by apply Forall_singleton|apply Forall_nil_2].
Qed.

Lemma trace_back_chains_are_call_paths_witness : call_path s1_project s1_chain.
Proof.
  apply (trace_back_chains_are_call_paths s1_project (λ _, false)
           "Statement:executeQuery" 15 (enough_fuel s1_project 15) [s1_chain]).
  - vm_compute. reflexivity.
  - left.
Defined.

(** *** Well-formed callers: the search does not raise *)

Lemma visit_caller_total a cur st caller :
  well_formed caller → ∃ st', visit_caller a cur st caller = Some st'.
Proof.
  intros (cls & mtd & Hs). unfold visit_caller, is_entry_point.
  case_bool_decide; [eauto|]. case_bool_decide; [eauto|].
  rewrite (PyStrFacts.split_two_split1 _ _ _ _ Hs), Hs.
  destruct (is_has_parameters a cls mtd); simpl; [|eauto].
  destruct (class_methods a !! cls) as [info|]; [|eauto].
  destruct (methods info !! mtd) as [m|]; [|eauto].
  destruct (has_mapping_annotation m); eauto.
Qed.

Lemma for_each_total a cur callers : ∀ st,
  (∀ c, c ∈ callers → well_formed c) →
  ∃ st', for_each (visit_caller a cur) st callers = Some st'.
Proof.
  induction callers as [|c cs IH]; intros st Hwf; simpl; [eauto|].
  destruct (visit_caller_total a cur st c) as [st1 ->]; [apply Hwf; left|].
  apply IH. intros c' Hc'. apply Hwf. by right.
Qed.

Lemma search_loop_no_raise a sink should_stop eff fuel : ∀ polls st,
  callers_well_formed a → search_inv a sink eff st →
  search_loop a should_stop eff fuel polls st ≠ Raised.
Proof.
  induction fuel as [|fuel IH]; intros polls st Hwf [Hq Hp]; simpl.
  - by destruct (queue st).
  - destruct (queue st) as [|cur rest] eqn:Eq; [done|].
    destruct (should_stop polls); [done|].
    apply Forall_cons in Hq as [Hcur Hrest].
    destruct (eff <=? current_depth cur)%Z eqn:Hd; [apply IH; [done|by split]|].
    apply Z.leb_gt in Hd.
    destruct (current_path cur) as [|current_sink ?] eqn:Ep.
    { destruct Hcur as (_ & Hl & _). by rewrite Ep in Hl. }
    destruct (for_each_total a cur
                (CallGraph.get_list (reverse_call_graph a) current_sink)
                (Search (paths st) (visited_states st) rest)) as [st' Ef].
    { intros c Hc. by apply (Hwf current_sink). }
    rewrite Ef. apply IH; [done|].
    eapply for_each_inv; [exact Hcur|exact Hd| |exact Ef]. by split.
Qed.

Lemma trace_back_outcome a should_stop sink max_depth :
  callers_well_formed a →
  ∃ chains, _trace_back a should_stop sink max_depth (enough_fuel a max_depth)
            = Returned chains.
Proof.
  intros Hwf.
  pose proof (search_loop_no_raise a sink should_stop (effective_max_depth max_depth)
                (enough_fuel a max_depth) 0 _ Hwf (initial_inv a sink _)) as Hnr.
  pose proof (search_loop_fuel a sink (effective_max_depth max_depth) should_stop
                (enough_fuel a max_depth) 0 _ (initial_inv a sink _)) as Hnf.
  unfold _trace_back.
  destruct (search_loop _ _ _ _ _ _) as [chains| |]; [eauto|done|].
  exfalso. apply Hnf; [|done].
  unfold measure, enough_fuel. simpl. rewrite difference_empty_L. lia.
Qed.

(** X2: When every recorded caller is a [Class:method] signature with exactly one
    colon, a call of [_trace_back] raises exactly when the configured
    [max_seconds] does not convert to an [int]; otherwise it returns its list
    of chains. *)
Theorem trace_back_returns max_seconds a should_stop sink max_depth :
  callers_well_formed a →
  match max_seconds with
  | Some _ =>
      ∃ chains, trace_back_call max_seconds a should_stop sink max_depth
                  (enough_fuel a max_depth) = Returned chains
  | None =>
      trace_back_call max_seconds a should_stop sink max_depth
        (enough_fuel a max_depth) = Raised
  end.
Proof.
  intros Hwf. destruct max_seconds as [n|]; [|done]. by apply trace_back_outcome.
Qed.

(** A check of [callers_well_formed] that can be run. *)
Definition callers_ok (a : analyzer) : bool :=
  forallb (λ c, bool_decide (length (PyStr.split ":" c) = 2)) (all_callers a).

Lemma callers_ok_well_formed a : callers_ok a = true → callers_well_formed a.
Proof.
  unfold callers_ok. rewrite forallb_forall. intros Hok callee caller Hc.
  apply callers_known in Hc. apply list_elem_of_In in Hc. apply Hok in Hc.
  apply bool_decide_eq_true in Hc. unfold well_formed.
  destruct (PyStr.split ":" caller) as [|cls [|mtd [|? ?]]]; try done.
  by exists cls, mtd.
Qed.

Lemma s1_callers_well_formed : callers_well_formed s1_project.
Proof. apply callers_ok_well_formed. vm_compute. reflexivity. Qed.

Lemma trace_back_returns_witness :
  (∃ chains, trace_back_call (Some 600%Z) s1_project (λ _, false)
               "Statement:executeQuery" 15 (enough_fuel s1_project 15)
             = Returned chains) ∧
  trace_back_call None s1_project (λ _, false) "Statement:executeQuery" 15
    (enough_fuel s1_project 15) = Raised.
Proof.
  split.
  - apply (trace_back_returns (Some 600%Z) s1_project (λ _, false)
             "Statement:executeQuery" 15).
    exact s1_callers_well_formed.
  - apply (trace_back_returns None s1_project (λ _, false) "Statement:executeQuery" 15).
    exact s1_callers_well_formed.
Defined.

(** *** An entry point that calls the sink directly is reported *)

Lemma visit_caller_keeps a cur st caller st' x :
  visit_caller a cur st caller = Some st' → x ∈ paths st → x ∈ paths st'.
Proof.
  unfold visit_caller.
  case_bool_decide; [by intros [= <-]|]. case_bool_decide; [by intros [= <-]|].
  destruct (PyStr.split1 ":" caller) as [|cls [|mtd [|? ?]]]; try done.
  destruct (is_has_parameters a cls mtd); simpl; [|by intros [= <-]].
  destruct (is_entry_point a caller) as [[|]|]; [| |done]; intros [= <-]; simpl; [|done].
  intros Hx. apply elem_of_app. by left.
Qed.

Lemma for_each_keeps a cur callers x : ∀ st st',
  for_each (visit_caller a cur) st callers = Some st' → x ∈ paths st → x ∈ paths st'.
Proof.
  induction callers as [|c cs IH]; intros st st'; simpl; [by intros [= <-]|].
  destruct (visit_caller a cur st c) as [st1|] eqn:E; [|done].
  intros Hf Hx. eapply IH; [exact Hf|]. by eapply visit_caller_keeps.
Qed.

Lemma search_loop_keeps a should_stop eff fuel x : ∀ polls st chains,
  search_loop a should_stop eff fuel polls st = Returned chains →
  x ∈ paths st → x ∈ chains.
Proof.
  induction fuel as [|fuel IH]; intros polls st chains; simpl.
  - destruct (queue st); [by intros [= <-]|done].
  - destruct (queue st) as [|cur rest]; [by intros [= <-]|].
    destruct (should_stop polls); [by intros [= <-]|].
    destruct (eff <=? current_depth cur)%Z.
    { intros Hrun Hx. eapply IH; [exact Hrun|exact Hx]. }
    destruct (current_path cur) as [|current_sink ?]; [done|].
    destruct (for_each _ _ _) as [st'|] eqn:Ef; [|done].
    intros Hrun Hx. eapply IH; [exact Hrun|].
    eapply for_each_keeps; [exact Ef|exact Hx].
Qed.

Section Direct.
Variable a : analyzer.
Variables sink c : string.
Hypothesis c_not_sink : c ≠ sink.
Hypothesis c_takes_parameters : takes_parameters a c.
Hypothesis c_entry_point : is_entry_point a c = Some true.

Let first : entry := Entry [sink] 0 {[sink]}.

Lemma visit_direct st st' :
  ([c; sink] ∈ paths st ∨ (c, 1%Z) ∉ visited_states st) →
  visit_caller a first st c = Some st' → [c; sink] ∈ paths st'.
Proof.
  intros Hst. unfold visit_caller. simpl.
  case_bool_decide as Hin; [by apply elem_of_singleton in Hin|].
  case_bool_decide as Hvis.
  { intros [= <-]. by destruct Hst. }
  destruct c_takes_parameters as (cls & mtd & -> & ->). simpl.
  rewrite c_entry_point. intros [= <-]. simpl.
  apply elem_of_app. right. by apply list_elem_of_singleton.
Qed.

Lemma visit_other x st st' :
  x ≠ c → (c, 1%Z) ∉ visited_states st →
  visit_caller a first st x = Some st' → (c, 1%Z) ∉ visited_states st'.
Proof.
  intros Hx Hst. unfold visit_caller. simpl.
  case_bool_decide; [by intros [= <-]|]. case_bool_decide; [by intros [= <-]|].
  assert (Hnew : (c, 1%Z) ∉ ({[(x, 1%Z)]} ∪ visited_states st : gset (string * Z))).
  { rewrite elem_of_union, elem_of_singleton. intros [[= ->]|H']; done. }
  destruct (PyStr.split1 ":" x) as [|cls [|mtd [|? ?]]]; try done.
  destruct (is_has_parameters a cls mtd); simpl; [|by intros [= <-]].
  destruct (is_entry_point a x) as [[|]|]; [| |done]; by intros [= <-].
Qed.

Lemma for_each_direct callers : ∀ st st',
  c ∈ callers →
  ([c; sink] ∈ paths st ∨ (c, 1%Z) ∉ visited_states st) →
  for_each (visit_caller a first) st callers = Some st' → [c; sink] ∈ paths st'.
Proof.
  induction callers as [|x xs IH]; intros st st' Hc Hst; simpl.
  { by apply elem_of_nil in Hc. }
  destruct (visit_caller a first st x) as [st1|] eqn:E; [|done]. intros Hf.
  destruct (decide (x = c)) as [->|Hne].
  - eapply for_each_keeps; [exact Hf|]. by eapply visit_direct.
  - apply elem_of_cons in Hc as [->|Hc]; [done|].
    eapply IH; [exact Hc| |exact Hf].
    destruct Hst as [Hst|Hst].
    + left. by eapply visit_caller_keeps.
    + right. by eapply visit_other.
Qed.

End Direct.

Lemma search_loop_unfold a should_stop eff fuel polls st cur rest current_sink p st' :
  queue st = cur :: rest → should_stop polls = false →
  (current_depth cur < eff)%Z → current_path cur = current_sink :: p →
  for_each (visit_caller a cur) (Search (paths st) (visited_states st) rest)
    (CallGraph.get_list (reverse_call_graph a) current_sink) = Some st' →
  search_loop a should_stop eff (S fuel) polls st
  = search_loop a should_stop eff fuel (S polls) st'.
Proof.
  intros Hq Hs Hd Hp Hf. simpl. rewrite Hq, Hs.
  destruct (Z.leb_spec eff (current_depth cur)); [lia|]. by rewrite Hp, Hf.
Qed.

Lemma effective_max_depth_pos max_depth : (0 < effective_max_depth max_depth)%Z.
Proof. unfold effective_max_depth. destruct (max_depth <? 10)%Z eqn:E; lia. Qed.

(** X3: A handler that calls the sink itself is found whenever the call returns:
    if a call of [_trace_back] returns a list of chains, the stop predicate is
    false when the search starts, and [c] is a recorded caller of the sink,
    other than the sink, that takes parameters and is an entry point, then
    [[c; sink]] is among the chains. *)
Theorem direct_entry_point_is_reported max_seconds a should_stop sink max_depth fuel
    chains c :
  trace_back_call max_seconds a should_stop sink max_depth fuel = Returned chains →
  should_stop 0 = false →
  c ∈ CallGraph.get_list (reverse_call_graph a) sink →
  c ≠ sink →
  takes_parameters a c →
  is_entry_point a c = Some true →
  [c; sink] ∈ chains.
Proof.
  intros Hrun Hstop Hc Hne Htp Hep.
  destruct max_seconds as [n|]; [|done]. unfold trace_back_call, _trace_back in Hrun.
  destruct fuel as [|fuel]; [done|].
  pose proof (effective_max_depth_pos max_depth) as Hpos.
  destruct (for_each (visit_caller a (Entry [sink] 0 {[sink]})) (Search [] ∅ [])
              (CallGraph.get_list (reverse_call_graph a) sink)) as [st'|] eqn:Ef.
  - rewrite (search_loop_unfold a should_stop _ _ 0 _ (Entry [sink] 0 {[sink]}) [] sink []
               st') in Hrun; try done.
    eapply search_loop_keeps; [exact Hrun|].
    eapply for_each_direct; [exact Hne|exact Htp|exact Hep|exact Hc| |exact Ef].
    right. simpl. apply not_elem_of_empty.
  - simpl in Hrun. rewrite Hstop in Hrun.
    destruct (Z.leb_spec (effective_max_depth max_depth) 0); [lia|].
    simpl in Hrun. by rewrite Ef in Hrun.
Qed.

(** A handler calling the sink of scenario S1 directly. *)
Definition direct_project : analyzer :=
  Analyzer
    {[ "A" := ClassRecord "A.java" {[ "h" := MethodInfo true true ]} ]}
    {[ "Statement:executeQuery" := ["A:h"] ]}.

Lemma direct_entry_point_is_reported_witness :
  trace_back_call (Some 600%Z) direct_project (λ _, false) "Statement:executeQuery" 15
    (enough_fuel direct_project 15) = Returned [["A:h"; "Statement:executeQuery"]] ∧
  ["A:h"; "Statement:executeQuery"] ∈ [["A:h"; "Statement:executeQuery"]].
Proof.
  assert (Hrun : trace_back_call (Some 600%Z) direct_project (λ _, false)
                   "Statement:executeQuery" 15 (enough_fuel direct_project 15)
                 = Returned [["A:h"; "Statement:executeQuery"]])
    by (vm_compute; reflexivity).
  split; [exact Hrun|].
  apply (direct_entry_point_is_reported (Some 600%Z) direct_project (λ _, false)
           "Statement:executeQuery" 15 (enough_fuel direct_project 15)
           [["A:h"; "Statement:executeQuery"]] "A:h").
  - exact Hrun.
  - reflexivity.
  - vm_compute. left.
  - discriminate.
  - exists "A", "h". split; vm_compute; reflexivity.
  - vm_compute. reflexivity.
Defined.

End ChainFinderPaths.

(** ** ChainFinder: termination and the stop predicate *)
Module ChainFinderStop.
Import ChainFinder ChainFinderFacts.

Lemma visit_caller_grows a cur st caller st' :
  visit_caller a cur st caller = Some st' → paths st `prefix_of` paths st'.
Proof.
  unfold visit_caller.
  case_bool_decide; [by intros [= <-]|]. case_bool_decide; [by intros [= <-]|].
  destruct (PyStr.split1 ":" caller) as [|cls [|mtd [|? ?]]]; try done.
  destruct (is_has_parameters a cls mtd); simpl; [|by intros [= <-]].
  destruct (is_entry_point a caller) as [[|]|]; [| |done]; intros [= <-]; simpl; [|done].
  by apply prefix_app_r.
Qed.

Lemma for_each_grows a cur callers : ∀ st st',
  for_each (visit_caller a cur) st callers = Some st' → paths st `prefix_of` paths st'.
Proof.
  induction callers as [|c cs IH]; intros st st'; simpl; [by intros [= <-]|].
  destruct (visit_caller a cur st c) as [st1|] eqn:E; [|done].
  intros Hf. etrans; [by eapply visit_caller_grows|by apply IH].
Qed.

Lemma search_loop_grows a should_stop eff fuel : ∀ polls st chains,
  search_loop a should_stop eff fuel polls st = Returned chains →
  paths st `prefix_of` chains.
Proof.
  induction fuel as [|fuel IH]; intros polls st chains; simpl.
  - destruct (queue st); [by intros [= <-]|done].
  - destruct (queue st) as [|cur rest]; [by intros [= <-]|].
    destruct (should_stop polls); [by intros [= <-]|].
    destruct (eff <=? current_depth cur)%Z.
    { intros Hrun. by apply IH in Hrun. }
    destruct (current_path cur) as [|current_sink ?]; [done|].
    destruct (for_each _ _ _) as [st'|] eqn:Ef; [|done].
    intros Hrun. apply IH in Hrun. apply for_each_grows in Ef.
    simpl in *. by etrans.
Qed.

Lemma search_loop_stop_prefix a should_stop eff : ∀ fuel fuel' polls polls' st found all,
  search_loop a should_stop eff fuel polls st = Returned found →
  search_loop a (λ _, false) eff fuel' polls' st = Returned all →
  found `prefix_of` all.
Proof.
  induction fuel as [|fuel IH]; intros fuel' polls polls' st found all.
  - simpl. destruct (queue st) eqn:Eq; [|done]. intros [= <-] Hall.
    by apply search_loop_grows in Hall.
  - destruct fuel' as [|fuel'].
    { simpl. destruct (queue st) eqn:Eq; [|done]. by intros [= <-] [= <-]. }
    simpl. destruct (queue st) as [|cur rest]; [by intros [= <-] [= <-]|].
    destruct (should_stop polls).
    { intros [= <-] Hall.
      change (paths st) with
        (paths (Search (paths st) (visited_states st) rest)).
      destruct (eff <=? current_depth cur)%Z.
      { by apply search_loop_grows in Hall. }
      destruct (current_path cur) as [|current_sink ?]; [done|].
      destruct (for_each _ _ _) as [st'|] eqn:Ef; [|done].
      apply search_loop_grows in Hall. apply for_each_grows in Ef. by etrans. }
    destruct (eff <=? current_depth cur)%Z; [apply IH|].
    destruct (current_path cur) as [|current_sink ?]; [done|].
    destruct (for_each _ _ _) as [st'|]; [apply IH|done].
Qed.

(** X4: Cancelling a search only truncates its result: the chains [_trace_back]
    returns under any stop predicate are an initial segment of the chains it
    returns when it is never stopped. *)
Theorem stop_only_truncates a should_stop sink max_depth fuel fuel' found all :
  _trace_back a should_stop sink max_depth fuel = Returned found →
  _trace_back a (λ _, false) sink max_depth fuel' = Returned all →
  found `prefix_of` all.
Proof. unfold _trace_back. apply search_loop_stop_prefix. Qed.

(** A sink called by a handler and by a service that a second handler calls. *)
Definition two_handlers : analyzer :=
  Analyzer
    {[ "A" := ClassRecord "A.java" {[ "h" := MethodInfo true true ]};
       "B" := ClassRecord "B.java" {[ "m" := MethodInfo true false ]};
       "C" := ClassRecord "C.java" {[ "h" := MethodInfo true true ]} ]}
    {[ "S:s" := ["A:h"; "B:m"]; "B:m" := ["C:h"] ]}.

Lemma stop_only_truncates_witness :
  [["A:h"; "S:s"]] `prefix_of` [["A:h"; "S:s"]; ["C:h"; "B:m"; "S:s"]].
Proof.
  apply (stop_only_truncates two_handlers (λ n, bool_decide (1 ≤ n)) "S:s" 15
           (enough_fuel two_handlers 15) (enough_fuel two_handlers 15)).
  - vm_compute. reflexivity.
  - vm_compute. reflexivity.
Defined.

Lemma search_loop_more_fuel a should_stop eff : ∀ fuel k polls st,
  search_loop a should_stop eff fuel polls st ≠ OutOfFuel →
  search_loop a should_stop eff (fuel + k) polls st
  = search_loop a should_stop eff fuel polls st.
Proof.
  induction fuel as [|fuel IH]; intros k polls st.
  - simpl. destruct (queue st) eqn:Eq; [|done]. intros _.
    destruct k; simpl; by rewrite Eq.
  - simpl. destruct (queue st) as [|cur rest]; [done|].
    destruct (should_stop polls); [done|].
    destruct (eff <=? current_depth cur)%Z; [apply IH|].
    destruct (current_path cur) as [|current_sink ?]; [done|].
    destruct (for_each _ _ _) as [st'|]; [apply IH|done].
Qed.

(** X5: [_trace_back] terminates: the loop body runs at most [enough_fuel] times
    (one more than the number of [(caller, depth)] states below the cap, plus
    the start entry), and allowing more iterations changes nothing. *)
Theorem trace_back_terminates_within_bound a should_stop sink max_depth k :
  _trace_back a should_stop sink max_depth (enough_fuel a max_depth + k)
  = _trace_back a should_stop sink max_depth (enough_fuel a max_depth) ∧
  _trace_back a should_stop sink max_depth (enough_fuel a max_depth) ≠ OutOfFuel.
Proof.
  pose proof (trace_back_terminates a should_stop sink max_depth) as Hne.
  split; [|exact Hne]. unfold _trace_back in *. by apply search_loop_more_fuel.
Qed.

End ChainFinderStop.

(** ** ChainFinder: one chain for an entry point and a length *)
Module ChainFinderKeys.
Import ChainFinder ChainFinderFacts.

(** The state under which a chain was emitted: its first signature and its
    depth. *)
Definition chain_key (chain : list string) : string * Z :=
  (hd "" chain, Z.of_nat (length chain) - 1)%Z.

Section Keys.
Variable a : analyzer.
Variable sink : string.
Variable eff : Z.

(** Emitted chains have distinct keys, all of them marked as visited. *)
Definition keyed (st : search) : Prop :=
  NoDup (map chain_key (paths st)) ∧
  ∀ chain, chain ∈ paths st → chain_key chain ∈ visited_states st.

Lemma visit_caller_keyed cur st caller st' :
  good_entry sink cur → keyed st →
  visit_caller a cur st caller = Some st' → keyed st'.
Proof.
  intros (_ & _ & _ & Hlen) [Hnd Hvis]. unfold visit_caller.
  case_bool_decide as Hin; [by intros [= <-]|].
  case_bool_decide as Hseen; [by intros [= <-]|].
  assert (Hgrow : ∀ chain, chain ∈ paths st →
            chain_key chain ∈ ({[(caller, (current_depth cur + 1)%Z)]} ∪ visited_states st
                               : gset (string * Z))).
  { intros chain Hc. apply elem_of_union. right. by apply Hvis. }
  destruct (PyStr.split1 ":" caller) as [|cls [|mtd [|? ?]]]; try done.
  destruct (is_has_parameters a cls mtd); simpl; [|by intros [= <-]].
  assert (Hkey : chain_key (caller :: current_path cur)
                 = (caller, (current_depth cur + 1)%Z)).
  { unfold chain_key. simpl hd. f_equal. simpl length. lia. }
  destruct (is_entry_point a caller) as [[|]|]; [| |done]; intros [= <-];
    unfold keyed; simpl.
  - split.
    + rewrite map_app. simpl. apply NoDup_app. split; [done|].
      split; [|apply NoDup_singleton].
      intros k Hk ->%list_elem_of_singleton. rewrite Hkey in Hk.
      apply list_elem_of_fmap in Hk as (chain & Hck & Hc).
      apply Hseen. rewrite Hck. by apply Hvis.
    + intros chain [Hc| ->%list_elem_of_singleton]%elem_of_app; [by apply Hgrow|].
      rewrite Hkey. apply elem_of_union. left. by apply elem_of_singleton.
  - by split.
Qed.

Lemma for_each_keyed cur callers : ∀ st st',
  good_entry sink cur → (current_depth cur < eff)%Z →
  search_inv a sink eff st → keyed st →
  for_each (visit_caller a cur) st callers = Some st' → keyed st'.
Proof.
  induction callers as [|c cs IH]; intros st st' Hc Hd Hi Hk; simpl.
  - by intros [= <-].
  - destruct (visit_caller a cur st c) as [st1|] eqn:E; [|done].
    apply IH; [done|done| |].
    + by eapply visit_caller_inv.
    + by eapply visit_caller_keyed.
Qed.

Lemma search_loop_keyed should_stop fuel : ∀ polls st chains,
  search_inv a sink eff st → keyed st →
  search_loop a should_stop eff fuel polls st = Returned chains →
  NoDup (map chain_key chains).
Proof.
  induction fuel as [|fuel IH]; intros polls st chains [Hq Hp] Hk; simpl.
  - destruct (queue st); [intros [= <-]; apply Hk|done].
  - destruct (queue st) as [|cur rest] eqn:Eq; [intros [= <-]; apply Hk|].
    destruct (should_stop polls); [intros [= <-]; apply Hk|].
    apply Forall_cons in Hq as [Hcur Hrest].
    destruct (eff <=? current_depth cur)%Z eqn:Hd.
    + apply IH; [by split|done].
    + apply Z.leb_gt in Hd.
      destruct (current_path cur) as [|current_sink ?] eqn:Ep; [done|].
      destruct (for_each _ _ _) as [st'|] eqn:Ef; [|done].
      apply IH.
      * eapply for_each_inv; [exact Hcur|exact Hd| |exact Ef]. by split.
      * eapply for_each_keyed; [exact Hcur|exact Hd| | |exact Ef]; [by split|done].
Qed.

End Keys.

(** X6: [_trace_back] returns at most one chain for an entry point and a chain
    length: no two of the chains it returns have the same first signature and
    the same number of elements.  In particular no chain is returned twice. *)
Theorem one_chain_per_entry_and_length a should_stop sink max_depth fuel chains :
  _trace_back a should_stop sink max_depth fuel = Returned chains →
  NoDup (map (λ chain, (hd "" chain, length chain)) chains) ∧ NoDup chains.
Proof.
  unfold _trace_back. intros Hrun.
  apply (search_loop_keyed a sink) in Hrun.
  - assert (Hnd : NoDup (map (λ chain : list string, (hd "" chain, length chain)) chains)).
    { assert (Hmap : map chain_key chains
                     = map (λ p : string * nat, (p.1, Z.of_nat p.2 - 1)%Z)
                         (map (λ chain : list string, (hd "" chain, length chain)) chains)).
      { rewrite map_map. done. }
      rewrite Hmap in Hrun. by apply NoDup_fmap_1 in Hrun. }
    split; [done|]. by apply NoDup_fmap_1 in Hnd.
  - apply initial_inv.
  - split; [apply NoDup_nil_2|]. by intros chain ?%elem_of_nil.
Qed.

Lemma one_chain_per_entry_and_length_witness :
  NoDup (map (λ chain, (hd "" chain, length chain)) [s1_chain]) ∧ NoDup [s1_chain].
Proof.
  apply (one_chain_per_entry_and_length s1_project (λ _, false)
           "Statement:executeQuery" 15 (enough_fuel s1_project 15)).
  vm_compute. reflexivity.
Defined.

End ChainFinderKeys.

(** ** ChainFinder: a chain ends at the first entry point reached *)
Module ChainFinderEntries.
Import ChainFinder ChainFinderFacts.

Section Inner.
Variable a : analyzer.
Variable sink : string.

(** A path from the sink up through callers that are no entry points. *)
Definition plain_path (path : list string) : Prop :=
  ∃ mid, path = mid ++ [sink] ∧ Forall (λ x, is_entry_point a x = Some false) mid.

Definition plain (st : search) : Prop :=
  Forall (λ e, plain_path (current_path e)) (queue st) ∧
  Forall (λ chain, ∃ first rest, chain = first :: rest ∧ plain_path rest) (paths st).

Lemma visit_caller_plain cur st caller st' :
  plain_path (current_path cur) → plain st →
  visit_caller a cur st caller = Some st' → plain st'.
Proof.
  intros Hcur [Hq Hp]. unfold visit_caller.
  case_bool_decide; [by intros [= <-]|]. case_bool_decide; [by intros [= <-]|].
  destruct (PyStr.split1 ":" caller) as [|cls [|mtd [|? ?]]]; try done.
  destruct (is_has_parameters a cls mtd); simpl; [|by intros [= <-]].
  destruct (is_entry_point a caller) as [[|]|] eqn:Hep; [| |done]; intros [= <-];
    unfold plain; simpl.
  - split; [done|]. apply Forall_app. split; [done|].
    apply Forall_singleton. by exists caller, (current_path cur).
  - split; [|done]. apply Forall_app. split; [done|].
    apply Forall_singleton. simpl. destruct Hcur as (mid & -> & Hmid).
    exists (caller :: mid). split; [done|]. by apply Forall_cons.
Qed.

Lemma for_each_plain cur callers : ∀ st st',
  plain_path (current_path cur) → plain st →
  for_each (visit_caller a cur) st callers = Some st' → plain st'.
Proof.
  induction callers as [|c cs IH]; intros st st' Hc Hst; simpl.
  - by intros [= <-].
  - destruct (visit_caller a cur st c) as [st1|] eqn:E; [|done].
    apply IH; [done|]. by eapply visit_caller_plain.
Qed.

Lemma search_loop_plain should_stop eff fuel : ∀ polls st chains,
  plain st → search_loop a should_stop eff fuel polls st = Returned chains →
  Forall (λ chain, ∃ first rest, chain = first :: rest ∧ plain_path rest) chains.
Proof.
  induction fuel as [|fuel IH]; intros polls st chains [Hq Hp]; simpl.
  - destruct (queue st); [by intros [= <-]|done].
  - destruct (queue st) as [|cur rest] eqn:Eq; [by intros [= <-]|].
    destruct (should_stop polls); [by intros [= <-]|].
    apply Forall_cons in Hq as [Hcur Hrest].
    destruct (eff <=? current_depth cur)%Z.
    + apply IH. by split.
    + destruct (current_path cur) as [|current_sink l] eqn:Ep; [done|].
      destruct (for_each _ _ _) as [st'|] eqn:Ef; [|done].
      apply IH.
      apply (for_each_plain cur
               (CallGraph.get_list (reverse_call_graph a) current_sink)
               (Search (paths st) (visited_states st) rest) st');
        [by rewrite Ep|split; [exact Hrest|exact Hp]|exact Ef].
Qed.

End Inner.

(** X7: The search never looks above an entry point: every chain
    [_trace_back] returns is [first :: mid ++ [sink]] where no signature of
    [mid] is an entry point, so a handler that reaches the sink only through
    another handler is not reported. *)
Theorem chains_stop_at_first_entry_point a should_stop sink max_depth fuel chains chain :
  _trace_back a should_stop sink max_depth fuel = Returned chains →
  chain ∈ chains →
  ∃ first mid,
    chain = first :: mid ++ [sink] ∧
    Forall (λ x, is_entry_point a x = Some false) mid.
Proof.
  unfold _trace_back. intros Hrun Hin.
  apply (search_loop_plain a sink) in Hrun.
  - rewrite Forall_forall in Hrun.
    destruct (Hrun chain Hin) as (first & rest & -> & mid & -> & Hmid).
    by exists first, mid.
  - split; [|apply Forall_nil_2]. apply Forall_singleton. simpl.
    exists []. split; [done|apply Forall_nil_2].
Qed.

Lemma chains_stop_at_first_entry_point_witness :
  ∃ first mid,
    s1_chain = first :: mid ++ ["Statement:executeQuery"] ∧
    Forall (λ x, is_entry_point s1_project x = Some false) mid.
Proof.
  apply (chains_stop_at_first_entry_point s1_project (λ _, false)
           "Statement:executeQuery" 15 (enough_fuel s1_project 15) [s1_chain]).
  - vm_compute. reflexivity.
  - left.
Defined.

End ChainFinderEntries.

(** ** AstBuilder: what the parsing pass guarantees the search *)
Module AstBuilderFacts.
Import ChainFinder AstBuilder.

(** A Java identifier holds no colon. *)
Definition clean_name (name : string) : Prop := PyStr.count_char ":" name = 0.

Definition clean_node (n : node) : Prop := clean_name (declared_name n).

(** Every declaration above a node of the tree has a colon-free name. *)
Definition clean_tree (t : tree) : Prop := Forall (λ pn, Forall clean_node pn.1) t.

Definition keys_well_formed (cg : gmap string (list string)) : Prop :=
  ∀ caller callees, cg !! caller = Some callees → ChainFinderPaths.well_formed caller.

Lemma find_Some_elem {A} (p : A → bool) l x : List.find p l = Some x → x ∈ l.
Proof. intros H. apply find_some in H as [H _]. by apply list_elem_of_In. Qed.

Lemma unknown_clean : clean_name "unknown".
Proof. reflexivity. Qed.

Lemma current_method_well_formed path :
  Forall clean_node path →
  ChainFinderPaths.well_formed (_get_current_method_from_path path).
Proof.
  intros Hp. rewrite Forall_forall in Hp. unfold _get_current_method_from_path.
  destruct (List.find is_method_declaration (reverse path)) as [n|] eqn:En.
  - apply find_Some_elem, elem_of_reverse, Hp in En.
    assert (Hc : clean_name (match find_parent_class path with
                             | Some class_node => declared_name class_node
                             | None => "unknown" end)).
    { unfold find_parent_class.
      destruct (List.find is_type_declaration (reverse path)) as [c|] eqn:Ec;
        [|apply unknown_clean].
      by apply find_Some_elem, elem_of_reverse, Hp in Ec. }
    eexists _, _. apply PyStrFacts.split_join; [exact Hc|exact En].
  - exists "unknown", "unknown". reflexivity.
Qed.

Lemma record_call_keys cg caller callee :
  keys_well_formed cg → ChainFinderPaths.well_formed caller →
  keys_well_formed (record_call cg caller callee).
Proof.
  intros Hk Hc k v. unfold record_call.
  destruct (decide (caller = k)) as [<-|Hne]; [done|].
  rewrite lookup_insert_ne by done. apply Hk.
Qed.

Lemma record_calls_keys symbols nodes : ∀ cg,
  clean_tree nodes → keys_well_formed cg →
  keys_well_formed (record_calls symbols cg nodes).1.
Proof.
  induction nodes as [|[path n] rest IH]; intros cg Ht Hk; [done|].
  apply Forall_cons in Ht as [Hp Ht]. simpl in Hp.
  destruct n; simpl; try by apply IH.
  destruct (callee_of _ _ _ _ _ _) as [callee|]; [|done].
  apply IH; [done|]. apply record_call_keys; [done|].
  by apply current_method_well_formed.
Qed.

Lemma extract_class_info_call_graph code_tree file_path : ∀ ix,
  call_graph (_extract_class_info ix code_tree file_path) = call_graph ix.
Proof.
  unfold _extract_class_info.
  induction code_tree as [|[path n] rest IH]; intros ix; [done|].
  simpl. rewrite IH. by destruct n.
Qed.

Lemma parse_single_file_keys ix file_path code_tree :
  clean_tree code_tree → keys_well_formed (call_graph ix) →
  keys_well_formed (call_graph (parse_single_file ix file_path code_tree)).
Proof.
  intros Ht Hk. unfold parse_single_file, _build_call_graph.
  pose proof (record_calls_keys (get_variable_symbols code_tree) code_tree
                (call_graph (_extract_class_info ix code_tree file_path)) Ht) as H.
  rewrite extract_class_info_call_graph in *.
  destruct (record_calls _ _ _) as [cg completed]. simpl in *. by apply H.
Qed.

Lemma parse_all_keys parsed : ∀ ix,
  Forall (λ ft, clean_tree ft.2) parsed → keys_well_formed (call_graph ix) →
  keys_well_formed (call_graph (parse_all ix parsed)).
Proof.
  unfold parse_all.
  induction parsed as [|[f t] rest IH]; intros ix Hp Hk; [done|].
  apply Forall_cons in Hp as [Ht Hp]. simpl.
  apply IH; [done|]. by apply parse_single_file_keys.
Qed.

(** The callers of the reverse graph are the keys of the forward graph. *)
Lemma reverse_callers_are_keys (cg : gmap string (list string)) callee caller :
  caller ∈ CallGraph.get_list (CallGraph._build_reverse_call_graph cg) callee →
  ∃ callees, cg !! caller = Some callees ∧ callee ∈ callees.
Proof.
  unfold CallGraph._build_reverse_call_graph, CallGraph.get_list at 1.
  rewrite lookup_fmap.
  destruct (CallGraph.invert_edges _ _ !! callee) as [l|] eqn:E; simpl;
    [|by intros ?%elem_of_nil].
  rewrite CallGraphFacts.list_of_set_elem. intros Hin.
  assert (H : caller ∈ CallGraph.get_list
                (CallGraph.invert_edges (map_to_list cg) ∅) callee).
  { unfold CallGraph.get_list. by rewrite E. }
  apply CallGraphFacts.invert_edges_spec in H as [H|(callees & H1 & H2)].
  - unfold CallGraph.get_list in H. rewrite lookup_empty in H. by apply elem_of_nil in H.
  - exists callees. split; [by apply elem_of_map_to_list|done].
Qed.

Lemma build_ast_callers_well_formed parsed :
  Forall (λ ft, clean_tree ft.2) parsed →
  ChainFinderPaths.callers_well_formed (build_ast parsed).
Proof.
  intros Hp callee caller Hc. unfold build_ast in Hc. simpl in Hc.
  apply reverse_callers_are_keys in Hc as (callees & Hk & _).
  eapply (parse_all_keys parsed fresh Hp); [|exact Hk].
  intros k v. simpl. by rewrite lookup_empty.
Qed.

(** X8: On the graph [build_ast] itself builds from parsed Java files, whose
    class and method names hold no colon, every caller [_trace_back] unpacks
    is a [Class:method] signature: a call raises exactly when the configured
    [max_seconds] does not convert to an [int], and otherwise returns its
    chains, for any sink and depth. *)
Theorem search_on_built_graph_returns max_seconds parsed should_stop sink max_depth :
  Forall (λ ft, clean_tree ft.2) parsed →
  match max_seconds with
  | Some _ =>
      ∃ chains,
        trace_back_call max_seconds (build_ast parsed) should_stop sink max_depth
          (enough_fuel (build_ast parsed) max_depth) = Returned chains
  | None =>
      trace_back_call max_seconds (build_ast parsed) should_stop sink max_depth
        (enough_fuel (build_ast parsed) max_depth) = Raised
  end.
Proof.
  intros Hp. destruct max_seconds as [n|]; [|done].
  apply ChainFinderPaths.trace_back_outcome.
  by apply build_ast_callers_well_formed.
Qed.

(** A controller whose handler runs a query through a field of type
    [Statement]. *)
Definition user_controller : tree :=
  let cls := ClassDeclaration "UserController"
               [Method "find" [FormalParameter "id" "String"] ["GetMapping"]] in
  let mtd := MethodDeclaration
               (Method "find" [FormalParameter "id" "String"] ["GetMapping"]) in
  [ ([], cls);
    ([cls; Other], FieldDeclaration "Statement" ["stmt"]);
    ([cls; Other], mtd);
    ([cls; Other; mtd; Other], MethodInvocation (Some "stmt") "executeQuery") ].

Definition clean_tree_ok (t : tree) : bool :=
  forallb (λ pn, forallb (λ n, (PyStr.count_char ":" (declared_name n) =? 0)%nat) pn.1) t.

Lemma clean_tree_ok_spec t : clean_tree_ok t = true → clean_tree t.
Proof.
  unfold clean_tree_ok, clean_tree. rewrite forallb_forall, Forall_forall.
  intros H pn Hin. apply list_elem_of_In, H in Hin.
  rewrite forallb_forall in Hin. apply Forall_forall. intros n Hn.
  apply list_elem_of_In, Hin in Hn. by apply Nat.eqb_eq in Hn.
Qed.

Lemma search_on_built_graph_returns_witness :
  ∃ chains,
    trace_back_call (Some 600%Z) (build_ast [("UserController.java", user_controller)])
      (λ _, false) "Statement:executeQuery" 15
      (enough_fuel (build_ast [("UserController.java", user_controller)]) 15)
    = Returned chains.
Proof.
  apply (search_on_built_graph_returns (Some 600%Z)
           [("UserController.java", user_controller)]).
  apply Forall_singleton. apply clean_tree_ok_spec. vm_compute. reflexivity.
Defined.

(** *** Overloads and redeclarations: the last one decides *)

Lemma methods_info_snoc ms m :
  methods_info (ms ++ [m])
  = <[method_name m := MethodInfo (0 <? length (parameters m))%nat (has_mapping m)]>
      (methods_info ms).
Proof. unfold methods_info. by rewrite foldl_app. Qed.

Lemma methods_info_last ms1 m : ∀ ms2,
  Forall (λ m', method_name m' ≠ method_name m) ms2 →
  methods_info (ms1 ++ m :: ms2) !! method_name m
  = Some (MethodInfo (0 <? length (parameters m))%nat (has_mapping m)).
Proof.
  induction ms2 as [|m2 ms2 IH] using rev_ind; intros Hne.
  - rewrite methods_info_snoc. apply lookup_insert_eq.
  - apply Forall_app in Hne as [Hne H2]. rewrite Forall_singleton in H2.
    replace (ms1 ++ m :: ms2 ++ [m2]) with ((ms1 ++ m :: ms2) ++ [m2])
      by (by rewrite <- app_assoc).
    rewrite methods_info_snoc, lookup_insert_ne by done. by apply IH.
Qed.

Definition declares (class_name : string) (n : node) : bool :=
  match n with
  | ClassDeclaration name _ => bool_decide (name = class_name)
  | _ => false
  end.

Definition redeclared_in (class_name : string) (t : tree) : bool :=
  existsb (λ pn, declares class_name pn.2) t.

Lemma extract_class_info_class_methods_other class_name t file_path : ∀ ix,
  redeclared_in class_name t = false →
  class_methods (_extract_class_info ix t file_path) !! class_name
  = class_methods ix !! class_name.
Proof.
  unfold _extract_class_info, redeclared_in.
  induction t as [|[path n] rest IH]; intros ix; [done|].
  simpl. intros [Hn Hr]%orb_false_elim. rewrite IH by done.
  destruct n; try done. simpl in *. apply bool_decide_eq_false in Hn.
  by rewrite lookup_insert_ne.
Qed.

Lemma parse_single_file_class_methods ix file_path t :
  class_methods (parse_single_file ix file_path t)
  = class_methods (_extract_class_info ix t file_path).
Proof. unfold parse_single_file. by destruct (_build_call_graph _ _). Qed.

Lemma parse_all_class_methods_other class_name parsed : ∀ ix,
  Forall (λ ft, redeclared_in class_name ft.2 = false) parsed →
  class_methods (parse_all ix parsed) !! class_name = class_methods ix !! class_name.
Proof.
  unfold parse_all.
  induction parsed as [|[f t] rest IH]; intros ix Hp; [done|].
  apply Forall_cons in Hp as [Ht Hp]. simpl. rewrite IH by done.
  rewrite parse_single_file_class_methods.
  by apply extract_class_info_class_methods_other.
Qed.

Lemma extract_class_info_app ix t1 t2 file_path :
  _extract_class_info ix (t1 ++ t2) file_path
  = _extract_class_info (_extract_class_info ix t1 file_path) t2 file_path.
Proof. unfold _extract_class_info. apply foldl_app. Qed.

Lemma extract_class_info_class ix path class_name ms t file_path :
  _extract_class_info ix ((path, ClassDeclaration class_name ms) :: t) file_path
  = _extract_class_info
      (Index (<[class_name := file_path]> (class_to_file_map ix))
             (<[class_name := ClassRecord file_path (methods_info ms)]> (class_methods ix))
             (call_graph ix) (_parsed_files ix))
      t file_path.
Proof. reflexivity. Qed.

Lemma parse_all_app ix p1 p2 : parse_all ix (p1 ++ p2) = parse_all (parse_all ix p1) p2.
Proof. unfold parse_all. apply foldl_app. Qed.

Lemma last_declaration_recorded before file_path t1 path class_name ms t2 after :
  redeclared_in class_name t2 = false →
  Forall (λ ft, redeclared_in class_name ft.2 = false) after →
  class_methods
    (parse_all fresh
       (before ++ (file_path, t1 ++ (path, ClassDeclaration class_name ms) :: t2) :: after))
    !! class_name
  = Some (ClassRecord file_path (methods_info ms)).
Proof.
  intros H2 Hafter. rewrite parse_all_app. unfold parse_all at 1. simpl.
  fold (parse_all (parse_single_file (parse_all fresh before) file_path
          (t1 ++ (path, ClassDeclaration class_name ms) :: t2)) after).
  rewrite parse_all_class_methods_other by done.
  rewrite parse_single_file_class_methods, extract_class_info_app.
  rewrite extract_class_info_class, extract_class_info_class_methods_other by done.
  simpl. apply lookup_insert_eq.
Qed.

(** X9: Overloads and classes of the same simple name overwrite each other in
    the class index: whether [Class:method] is an entry point, and whether it
    takes parameters, is decided by the last method of that name in the last
    declaration of the class that was parsed. *)
Theorem last_overload_decides before file_path t1 path class_name ms1 m ms2 t2 after :
  clean_name class_name → clean_name (method_name m) →
  Forall (λ m', method_name m' ≠ method_name m) ms2 →
  redeclared_in class_name t2 = false →
  Forall (λ ft, redeclared_in class_name ft.2 = false) after →
  let a := build_ast (before ++
             (file_path, t1 ++ (path, ClassDeclaration class_name (ms1 ++ m :: ms2)) :: t2)
             :: after) in
  is_entry_point a (class_name +:+ ":" +:+ method_name m) = Some (has_mapping m) ∧
  is_has_parameters a class_name (method_name m) = (0 <? length (parameters m))%nat.
Proof.
  intros Hc Hm Hms H2 Hafter a.
  pose proof (last_declaration_recorded before file_path t1 path class_name
                (ms1 ++ m :: ms2) t2 after H2 Hafter) as Hrec.
  pose proof (methods_info_last ms1 m ms2 Hms) as Hlast.
  unfold is_entry_point, is_has_parameters.
  replace (PyStr.split ":" (class_name +:+ ":" +:+ method_name m))
    with [class_name; method_name m] by (symmetry; by apply PyStrFacts.split_join).
  subst a. unfold build_ast. simpl. rewrite Hrec. simpl. by rewrite Hlast.
Qed.

(** A handler overloaded by a helper that carries no mapping annotation. *)
Definition overloaded : list method_declaration :=
  [Method "find" [FormalParameter "id" "String"] ["GetMapping"];
   Method "find" [] []].

Lemma last_overload_decides_witness :
  let a := build_ast [("C.java", [([], ClassDeclaration "C" overloaded)])] in
  is_entry_point a "C:find" = Some false ∧ is_has_parameters a "C" "find" = false.
Proof.
  apply (last_overload_decides [] "C.java" [] [] "C"
           [Method "find" [FormalParameter "id" "String"] ["GetMapping"]]
           (Method "find" [] []) [] [] []).
  - reflexivity.
  - reflexivity.
  - apply Forall_nil_2.
  - reflexivity.
  - apply Forall_nil_2.
Defined.

Lemma extract_class_info_agree t file_path : ∀ ix,
  (∀ c, class_to_file_map ix !! c = ChainFinder.file_path <$> class_methods ix !! c) →
  ∀ c, class_to_file_map (_extract_class_info ix t file_path) !! c
       = ChainFinder.file_path <$> class_methods (_extract_class_info ix t file_path) !! c.
Proof.
  unfold _extract_class_info.
  induction t as [|[path n] rest IH]; intros ix Hix; [done|].
  simpl. apply IH. destruct n; try done. simpl. intros c.
  destruct (decide (name = c)) as [->|Hne].
  - by rewrite !lookup_insert_eq.
  - rewrite !lookup_insert_ne by done. apply Hix.
Qed.

Lemma parse_single_file_class_to_file_map ix file_path t :
  class_to_file_map (parse_single_file ix file_path t)
  = class_to_file_map (_extract_class_info ix t file_path).
Proof. unfold parse_single_file. by destruct (_build_call_graph _ _). Qed.

(** X10: The class-to-file map and the class index never disagree: after any
    number of parsed files they know the same classes, and the file the map
    gives for a class is the [file_path] stored in its index record. *)
Theorem class_to_file_map_agrees parsed (c : string) :
  class_to_file_map (parse_all fresh parsed) !! c
  = ChainFinder.file_path <$> class_methods (parse_all fresh parsed) !! c.
Proof.
  revert c. unfold parse_all.
  induction parsed as [|[f t] rest IH] using rev_ind; intros c.
  - simpl. by rewrite !lookup_empty.
  - rewrite foldl_app. simpl.
    rewrite parse_single_file_class_to_file_map, parse_single_file_class_methods.
    by apply extract_class_info_agree.
Qed.

End AstBuilderFacts.

(** ** AstBuilder: how a qualified call is resolved *)
Module AstCallFacts.
Import ChainFinder AstBuilder.

(** The names a node declares, with the name of their type, in the order in
    which [get_variable_symbols] stores them. *)
Definition declares_variables (n : node) : list (string * string) :=
  match n with
  | LocalVariableDeclaration var_type declarators
  | FieldDeclaration var_type declarators => map (λ d, (d, var_type)) declarators
  | MethodDeclaration m => map (λ p, (param_name p, param_type p)) (parameters m)
  | _ => []
  end.

Definition declarations (t : tree) : list (string * string) :=
  concat (map (λ pn, declares_variables pn.2) t).

(** [var_type] is the type of the last declaration of [x] in the file, be it
    a field, a local variable or a parameter of any method. *)
Definition last_declared (t : tree) (x var_type : string) : Prop :=
  ∃ before after,
    declarations t = before ++ (x, var_type) :: after ∧ x ∉ map fst after.

Definition store_all (symbols : gmap string string) (l : list (string * string))
  : gmap string string :=
  foldl (λ acc b, <[b.1 := b.2]> acc) symbols l.

Lemma store_all_app symbols l k :
  store_all symbols (l ++ k) = store_all (store_all symbols l) k.
Proof. apply foldl_app. Qed.

Lemma store_all_other l x : ∀ symbols,
  x ∉ map fst l → store_all symbols l !! x = symbols !! x.
Proof.
  induction l as [|[y ty] l IH]; intros symbols Hx; [done|]. simpl in *.
  apply not_elem_of_cons in Hx as [Hne Hx]. rewrite IH by done.
  by rewrite lookup_insert_ne.
Qed.

Lemma symbols_step symbols n :
  match n with
  | LocalVariableDeclaration var_type declarators
  | FieldDeclaration var_type declarators =>
      foldl (λ acc d, <[d := var_type]> acc) symbols declarators
  | MethodDeclaration m =>
      foldl (λ acc p, <[param_name p := param_type p]> acc) symbols (parameters m)
  | _ => symbols
  end = store_all symbols (declares_variables n).
Proof.
  unfold store_all.
  destruct n as [| | |m| |ty ds|ty ds| | |]; simpl; try done.
  - generalize (parameters m). intros ps. revert symbols.
    induction ps as [|p ps IH]; intros symbols; simpl; [done|]. apply IH.
  - revert symbols. induction ds as [|d ds IH]; intros symbols; simpl; [done|]. apply IH.
  - revert symbols. induction ds as [|d ds IH]; intros symbols; simpl; [done|]. apply IH.
Qed.

Lemma variable_symbols_declarations t :
  get_variable_symbols t = store_all ∅ (declarations t).
Proof.
  unfold get_variable_symbols, declarations. generalize (∅ : gmap string string).
  induction t as [|[path n] t IH]; intros symbols; [done|].
  cbn [foldl map concat]. rewrite store_all_app, <- IH. f_equal.
  apply symbols_step.
Qed.

Lemma last_declared_lookup t x var_type :
  last_declared t x var_type → get_variable_symbols t !! x = Some var_type.
Proof.
  intros (before & after & Hd & Hx).
  rewrite variable_symbols_declarations, Hd, store_all_app. simpl.
  rewrite store_all_other by done. apply lookup_insert_eq.
Qed.

Lemma record_call_mono cg caller callee c k :
  c ∈ CallGraph.get_list cg k → c ∈ CallGraph.get_list (record_call cg caller callee) k.
Proof.
  unfold CallGraph.get_list, record_call. intros Hc.
  destruct (decide (caller = k)) as [->|Hne].
  - rewrite lookup_insert_eq. simpl. apply elem_of_app. by left.
  - by rewrite lookup_insert_ne.
Qed.

Lemma record_call_elem cg caller callee :
  callee ∈ CallGraph.get_list (record_call cg caller callee) caller.
Proof.
  unfold CallGraph.get_list, record_call. rewrite lookup_insert_eq. simpl.
  apply elem_of_app. right. left.
Qed.

Lemma record_calls_mono symbols nodes c k : ∀ cg,
  c ∈ CallGraph.get_list cg k →
  c ∈ CallGraph.get_list (record_calls symbols cg nodes).1 k.
Proof.
  induction nodes as [|[path n] nodes IH]; intros cg Hc; [done|].
  destruct n; simpl; try by apply IH.
  destruct (callee_of _ _ _ _ _ _); [|done].
  apply IH. by apply record_call_mono.
Qed.

Lemma callee_of_qualified symbols cg path caller x member var_type callee :
  x ≠ "" → symbols !! x = Some var_type →
  callee_of symbols cg path caller (Some x) member = Some callee →
  callee = hd "" (PyStr.split "<" var_type) +:+ ":" +:+ member.
Proof.
  intros Hx Hs. unfold callee_of.
  destruct x as [|c x']; [done|].
  change (PyStr.truthy (Some (String c x'))) with true. cbv iota.
  change (default "" (Some (String c x'))) with (String c x').
  destruct (qualifier_default (String c x')) as [dflt|]; [|done].
  rewrite Hs. simpl. by intros [= <-].
Qed.

Lemma record_calls_qualified symbols nodes path x member var_type : ∀ cg,
  x ≠ "" → symbols !! x = Some var_type →
  (path, MethodInvocation (Some x) member) ∈ nodes →
  (record_calls symbols cg nodes).2 = true →
  (hd "" (PyStr.split "<" var_type) +:+ ":" +:+ member)
    ∈ CallGraph.get_list (record_calls symbols cg nodes).1
        (_get_current_method_from_path path).
Proof.
  intros cg Hx Hs. revert cg.
  induction nodes as [|[path' n] nodes IH]; intros cg Hin Hdone;
    [by apply elem_of_nil in Hin|].
  apply elem_of_cons in Hin as [Heq|Hin].
  - injection Heq as <- <-. simpl in *.
    destruct (callee_of _ _ _ _ _ _) as [callee|] eqn:Ec; [|done].
    apply (callee_of_qualified _ _ _ _ _ _ var_type) in Ec; [|done..]. subst callee.
    apply record_calls_mono, record_call_elem.
  - destruct n; simpl in *; try by apply IH.
    destruct (callee_of _ _ _ _ _ _) as [callee|]; [|done]. by apply IH.
Qed.

(** X11: Variable types are resolved for the whole file at once: when
    [_build_call_graph] runs to its end, a call [x.member(...)] anywhere in the
    file is recorded for its enclosing method with the type of the last
    declaration of [x] in the file (field, local variable or parameter of any
    method), cut at the first ['<']. *)
Theorem qualified_call_uses_last_declaration (cg : gmap string (list string))
    (t : tree) (path : list node) (x member var_type : string) :
  (_build_call_graph cg t).2 = true →
  (path, MethodInvocation (Some x) member) ∈ t →
  x ≠ "" → last_declared t x var_type →
  (hd "" (PyStr.split "<" var_type) +:+ ":" +:+ member)
    ∈ CallGraph.get_list (_build_call_graph cg t).1 (_get_current_method_from_path path).
Proof.
  intros Hdone Hin Hx Hlast. unfold _build_call_graph in *.
  apply (record_calls_qualified _ _ _ x); try done. by apply last_declared_lookup.
Qed.

(** A method whose parameter shadows a field of another type. *)
Definition shadowing : tree :=
  let cls := ClassDeclaration "Dao" [Method "run" [FormalParameter "db" "List<String>"] []] in
  let mtd := MethodDeclaration (Method "run" [FormalParameter "db" "List<String>"] []) in
  let other := MethodDeclaration (Method "load" [] []) in
  [ ([], cls);
    ([cls; Other], FieldDeclaration "Statement" ["db"]);
    ([cls; Other], other);
    ([cls; Other; other; Other], MethodInvocation (Some "db") "executeQuery");
    ([cls; Other], mtd) ].

Lemma qualified_call_uses_last_declaration_witness :
  "List:executeQuery" ∈ CallGraph.get_list (_build_call_graph ∅ shadowing).1 "Dao:load".
Proof.
  apply (qualified_call_uses_last_declaration ∅ shadowing
           [ClassDeclaration "Dao" [Method "run" [FormalParameter "db" "List<String>"] []];
            Other; MethodDeclaration (Method "load" [] []); Other]
           "db" "executeQuery" "List<String>").
  - vm_compute. reflexivity.
  - unfold shadowing. right. right. right. left.
  - done.
  - exists [("db", "Statement")], []. split; [reflexivity|]. simpl. apply not_elem_of_nil.
Defined.

End AstCallFacts.

(** ** RuleMatcher: the shape of the evidence lists *)
Module RuleMatcherEvidence.
Import RuleMatcher.

(** A list of hits as [_rule_matches] keeps it. *)
Definition tidy (hits : list string) : Prop := NoDup hits ∧ Forall (λ n, n ≠ "") hits.

Lemma add_hit_tidy hits h : tidy hits → tidy (add_hit hits h).
Proof.
  intros [Hnd Hne]. unfold add_hit. destruct h as [n|]; [|done].
  destruct (PyStr.truthy (Some n)) eqn:Et; [|done]. simpl.
  case_bool_decide as Hin; [done|]. simpl. split.
  - apply NoDup_app. split; [done|]. split; [|apply NoDup_singleton].
    intros x Hx ->%list_elem_of_singleton. done.
  - apply Forall_app. split; [done|]. apply Forall_singleton.
    by apply RuleMatcherFacts.truthy_Some.
Qed.

Lemma match_rule_tidy cls mtd key r hits : tidy hits → tidy (match_rule cls mtd key hits r).
Proof.
  unfold match_rule. revert hits.
  induction (rule_items r key) as [|s l IH]; intros hits Hh; [done|].
  simpl. apply IH. unfold match_entry.
  destruct (entry_matches cls mtd s); [by apply add_hit_tidy|done].
Qed.

Lemma match_rules_tidy cls mtd key rs : ∀ hits,
  tidy hits → tidy (foldl (match_rule cls mtd key) hits rs).
Proof.
  induction rs as [|r rs IH]; intros hits Hh; [done|].
  simpl. apply IH. by apply match_rule_tidy.
Qed.

Lemma tidy_nil : tidy [].
Proof. split; [apply NoDup_nil_2|apply Forall_nil_2]. Qed.

(** X12: [_rule_matches] never reports a name twice and never reports an empty
    name, whatever the rules hold. *)
Theorem rule_matches_tidy (sig : string) (rs : list rule) (key : string) :
  NoDup (_rule_matches sig rs key) ∧ Forall (λ n, n ≠ "") (_rule_matches sig rs key).
Proof.
  unfold _rule_matches.
  destruct (_ || _); [apply tidy_nil|].
  destruct (PyStr.split1 ":" sig) as [|cls [|mtd [|? ?]]]; try apply tidy_nil.
  destruct (_ || _); [apply tidy_nil|].
  apply match_rules_tidy, tidy_nil.
Qed.

Lemma rule_matches_empty_sig rs key : _rule_matches "" rs key = [].
Proof. reflexivity. Qed.

Lemma matches_in_chain_elem rs key name chain : ∀ found,
  name ∈ foldl (λ found sig,
                  if negb (PyStr.truthy (Some sig)) then found
                  else found ++ _rule_matches sig rs key) found chain ↔
  name ∈ found ∨ ∃ sig, sig ∈ chain ∧ name ∈ _rule_matches sig rs key.
Proof.
  induction chain as [|sig chain IH]; intros found; simpl.
  - split; [auto|]. intros [H|(s & H & _)]; [done|]. by apply elem_of_nil in H.
  - rewrite IH. split.
    + intros [H|(s & H1 & H2)].
      * destruct sig as [|c t]; simpl in H; [by left|].
        apply elem_of_app in H as [H|H]; [by left|].
        right. exists (String c t). split; [left|done].
      * right. exists s. split; [by right|done].
    + intros [H|(s & H1 & H2)].
      * left. destruct sig; simpl; [done|]. apply elem_of_app. by left.
      * apply elem_of_cons in H1 as [->|H1].
        -- left. destruct sig as [|c t]; simpl.
           ++ rewrite rule_matches_empty_sig in H2. by apply elem_of_nil in H2.
           ++ apply elem_of_app. by right.
        -- right. by exists s.
Qed.

Lemma matches_in_chain_spec rs key name chain :
  name ∈ matches_in_chain rs key chain ↔
  ∃ sig, sig ∈ chain ∧ name ∈ _rule_matches sig rs key.
Proof.
  unfold matches_in_chain. rewrite matches_in_chain_elem.
  split; [|by right]. intros [H|H]; [by apply elem_of_nil in H|done].
Qed.

Lemma is_sanitized_spec rs chain name :
  name ∈ _is_sanitized rs chain ↔
  ∃ sig, sig ∈ chain ∧
    name ∈ _rule_matches sig (sanitizer_rules rs)
             (key_of "sanitizers" (sanitizer_rules rs)).
Proof.
  unfold _is_sanitized. destruct (sanitizer_rules rs) as [|r l] eqn:E.
  - split; [by intros ?%elem_of_nil|]. intros (sig & _ & H).
    unfold _rule_matches in H.
    destruct (_ || _); [done|].
    destruct (PyStr.split1 ":" sig) as [|? [|? [|? ?]]]; try done.
    by destruct (_ || _).
  - by rewrite CallGraphFacts.list_of_set_elem, matches_in_chain_spec.
Qed.

Lemma find_sources_spec rs chain name :
  name ∈ _find_sources rs chain ↔
  ∃ sig, sig ∈ chain ∧
    name ∈ _rule_matches sig (source_rules rs) (key_of "sources" (source_rules rs)).
Proof.
  unfold _find_sources. destruct (source_rules rs) as [|r l] eqn:E.
  - split; [by intros ?%elem_of_nil|]. intros (sig & _ & H).
    unfold _rule_matches in H.
    destruct (_ || _); [done|].
    destruct (PyStr.split1 ":" sig) as [|? [|? [|? ?]]]; try done.
    by destruct (_ || _).
  - by rewrite CallGraphFacts.list_of_set_elem, matches_in_chain_spec.
Qed.

Lemma is_sanitized_NoDup rs chain : NoDup (_is_sanitized rs chain).
Proof.
  unfold _is_sanitized. destruct (sanitizer_rules rs); [apply NoDup_nil_2|].
  apply CallGraphFacts.list_of_set_NoDup.
Qed.

Lemma find_sources_NoDup rs chain : NoDup (_find_sources rs chain).
Proof.
  unfold _find_sources. destruct (source_rules rs); [apply NoDup_nil_2|].
  apply CallGraphFacts.list_of_set_NoDup.
Qed.

Lemma NoDup_subseteq_length (l k : list string) :
  NoDup l → l ⊆ k → length l ≤ length k.
Proof. intros Hl Hs. by apply submseteq_length, NoDup_submseteq. Qed.

(** X13: The evidence of a chain depends only on which signatures occur in it: a
    chain that holds every signature of another one has at least its
    sanitizers and its sources, in membership and in number. *)
Theorem chain_evidence_monotone (rs : rules) (chain chain' : list string) :
  chain ⊆ chain' →
  _is_sanitized rs chain ⊆ _is_sanitized rs chain' ∧
  _find_sources rs chain ⊆ _find_sources rs chain' ∧
  length (_is_sanitized rs chain) ≤ length (_is_sanitized rs chain') ∧
  length (_find_sources rs chain) ≤ length (_find_sources rs chain').
Proof.
  intros Hsub.
  assert (H1 : _is_sanitized rs chain ⊆ _is_sanitized rs chain').
  { intros name. rewrite !is_sanitized_spec. intros (sig & Hin & H).
    exists sig. split; [by apply Hsub|done]. }
  assert (H2 : _find_sources rs chain ⊆ _find_sources rs chain').
  { intros name. rewrite !find_sources_spec. intros (sig & Hin & H).
    exists sig. split; [by apply Hsub|done]. }
  repeat split; try done.
  - apply NoDup_subseteq_length; [apply is_sanitized_NoDup|done].
  - apply NoDup_subseteq_length; [apply find_sources_NoDup|done].
Qed.

Lemma chain_evidence_monotone_witness :
  _is_sanitized ChainScorerFacts.demo_rules ["Encoder:escapeSql"]
    ⊆ _is_sanitized ChainScorerFacts.demo_rules ChainScorerFacts.sanitized_chain ∧
  _find_sources ChainScorerFacts.demo_rules ["Encoder:escapeSql"]
    ⊆ _find_sources ChainScorerFacts.demo_rules ChainScorerFacts.sanitized_chain ∧
  length (_is_sanitized ChainScorerFacts.demo_rules ["Encoder:escapeSql"])
    ≤ length (_is_sanitized ChainScorerFacts.demo_rules ChainScorerFacts.sanitized_chain) ∧
  length (_find_sources ChainScorerFacts.demo_rules ["Encoder:escapeSql"])
    ≤ length (_find_sources ChainScorerFacts.demo_rules ChainScorerFacts.sanitized_chain).
Proof.
  apply (chain_evidence_monotone ChainScorerFacts.demo_rules ["Encoder:escapeSql"]
           ChainScorerFacts.sanitized_chain).
  intros x ->%list_elem_of_singleton. unfold ChainScorerFacts.sanitized_chain.
  right. left.
Defined.

(** *** Pattern rules *)

Lemma pattern_hits_elem (rs : list (string * list string)) name chain : ∀ hits,
  name ∈ foldl (λ hits p,
                  foldl (λ hits sig,
                           if bool_decide (sig ∈ pattern_sigs p.2)
                           then hits ++ [p.1] else hits)
                    hits chain) hits rs ↔
  name ∈ hits ∨
  ∃ sig_list sig, (name, sig_list) ∈ rs ∧ sig ∈ chain ∧ sig ∈ pattern_sigs sig_list.
Proof.
  assert (Hin : ∀ (p : string * list string) l hits,
            name ∈ foldl (λ hits sig,
                            if bool_decide (sig ∈ pattern_sigs p.2)
                            then hits ++ [p.1] else hits) hits l ↔
            name ∈ hits ∨ (name = p.1 ∧ ∃ sig, sig ∈ l ∧ sig ∈ pattern_sigs p.2)).
  { intros p l. induction l as [|sig l IH]; intros hits; simpl.
    - split; [auto|]. intros [H|(_ & s & H & _)]; [done|]. by apply elem_of_nil in H.
    - rewrite IH. case_bool_decide as Hs.
      + rewrite elem_of_app, list_elem_of_singleton. split.
        * intros [[H| ->]|(-> & s & H1 & H2)]; [by left| |].
          -- right. split; [done|]. exists sig. split; [left|done].
          -- right. split; [done|]. exists s. split; [by right|done].
        * intros [H|(-> & s & H1 & H2)]; [by left; left|]. left. by right.
      + split.
        * intros [H|(-> & s & H1 & H2)]; [by left|].
          right. split; [done|]. exists s. split; [by right|done].
        * intros [H|(-> & s & H1 & H2)]; [by left|].
          apply elem_of_cons in H1 as [->|H1]; [done|].
          right. split; [done|]. by exists s. }
  induction rs as [|p rs IH]; intros hits; simpl.
  - split; [auto|]. intros [H|(l & s & H & _)]; [done|]. by apply elem_of_nil in H.
  - rewrite IH, Hin. split.
    + intros [[H|(-> & s & H1 & H2)]|(l & s & H1 & H2 & H3)].
      * by left.
      * right. exists p.2, s. split; [|done]. destruct p. left.
      * right. exists l, s. split; [by right|done].
    + intros [H|(l & s & H1 & H2 & H3)]; [by left; left|].
      apply elem_of_cons in H1 as [<-|H1].
      * left. right. split; [done|]. by exists s.
      * right. by exists l, s.
Qed.

Lemma get_pattern_hits_spec rs t chain name :
  name ∈ _get_pattern_hits rs t chain ↔
  (name = "SQL_CONCAT_TEXT" ∧ t = true) ∨
  ∃ sig_list sig,
    (name, sig_list) ∈ pattern_rules rs ∧ sig ∈ chain ∧ sig ∈ pattern_sigs sig_list.
Proof.
  unfold _get_pattern_hits. rewrite CallGraphFacts.list_of_set_elem.
  destruct t.
  - rewrite elem_of_app, list_elem_of_singleton, pattern_hits_elem. split.
    + intros [[H|H]| ->]; [by apply elem_of_nil in H|by right|by left].
    + intros [[-> _]|H]; [by right|]. left. by right.
  - rewrite pattern_hits_elem. split.
    + intros [H|H]; [by apply elem_of_nil in H|by right].
    + intros [[_ [=]]|H]. by right.
Qed.

(** X14: A pattern rule hits only through its own signature list, and a single
    entry without a colon disables the whole rule: a pattern name other than
    [SQL_CONCAT_TEXT] is reported only if some signature list registered under
    it holds no colon-less entry and holds a chain signature once class names
    are shortened. *)
Theorem pattern_hit_needs_clean_rule rs t chain name :
  name ∈ _get_pattern_hits rs t chain → name ≠ "SQL_CONCAT_TEXT" →
  ∃ sig_list,
    (name, sig_list) ∈ pattern_rules rs ∧
    forallb (PyStr.str_in ":") sig_list = true ∧
    ∃ sig entry, sig ∈ chain ∧ entry ∈ sig_list ∧
      ∃ c m, PyStr.split1 ":" entry = [c; m] ∧ sig = short_name c +:+ ":" +:+ m.
Proof.
  intros Hin Hne. apply get_pattern_hits_spec in Hin as [[-> _]|Hin]; [done|].
  destruct Hin as (sig_list & sig & Hp & Hc & Hs).
  exists sig_list. split; [done|]. unfold pattern_sigs in Hs.
  destruct (forallb (PyStr.str_in ":") sig_list) eqn:Hall; [|by apply elem_of_nil in Hs].
  split; [done|]. apply list_elem_of_fmap in Hs as (entry & -> & He).
  pose proof He as Hcolon. rewrite forallb_forall in Hall.
  apply list_elem_of_In, Hall in Hcolon.
  destruct (RuleMatcherFacts.split1_acc_single ":" entry "" Hcolon) as (c & m & Hcm).
  unfold PyStr.split1 in *. rewrite Hcm in Hc.
  exists (short_name c +:+ ":" +:+ m), entry. split; [done|]. split; [done|].
  by exists c, m.
Qed.

Definition jdbc_patterns : rules :=
  Rules [] [] [("SQL_CONCAT", ["java.sql.Statement:executeQuery"])].

Lemma pattern_hit_needs_clean_rule_witness :
  ∃ sig_list,
    ("SQL_CONCAT", sig_list) ∈ pattern_rules jdbc_patterns ∧
    forallb (PyStr.str_in ":") sig_list = true ∧
    ∃ sig entry, sig ∈ ["A:h"; "Statement:executeQuery"] ∧ entry ∈ sig_list ∧
      ∃ c m, PyStr.split1 ":" entry = [c; m] ∧ sig = short_name c +:+ ":" +:+ m.
Proof.
  apply (pattern_hit_needs_clean_rule jdbc_patterns false
           ["A:h"; "Statement:executeQuery"] "SQL_CONCAT").
  - apply get_pattern_hits_spec. right.
    exists ["java.sql.Statement:executeQuery"], "Statement:executeQuery".
    split; [left|]. split; [right; left|]. vm_compute. left.
  - done.
Defined.

End RuleMatcherEvidence.

(** ** ChainScorer: the values a score can take *)
Module ChainScorerBands.
Import RuleMatcher ChainScorer ChainScorerFacts.

#[local] Open Scope float_scope.

Lemma score_core_floor a b bonus n :
  PrimFloat.leb 0.4 (score_core a b bonus n) = true.
Proof.
  unfold score_core.
  destruct a as [|[|a]]; destruct b as [|[|b]]; destruct bonus; cbn [Nat.leb];
    float_cases.
Qed.

Lemma score_core_sanitized_ceiling a n :
  PrimFloat.leb (score_core (S a) 0 false n) 0.7 = true.
Proof. unfold score_core. destruct a as [|a]; cbn [Nat.leb]; float_cases. Qed.


(** X15: The score of a non-empty chain is never below 0.4, so the lower clamp
    of [_score_chain] never acts; and a chain with a sanitizer hit, no source
    hit and no SQL pattern bonus scores at most 0.7. *)
Theorem score_chain_bands (rs : rules) (t : bool) (chain : list string)
    (sink_name : string) :
  chain ≠ [] →
  PrimFloat.leb 0.4 (_score_chain rs t chain sink_name) = true ∧
  (_is_sanitized rs chain ≠ [] → _find_sources rs chain = [] →
   pattern_bonus sink_name (_get_pattern_hits rs t chain) = false →
   PrimFloat.leb (_score_chain rs t chain sink_name) 0.7 = true).
Proof.
  intros Hne. unfold _score_chain. destruct chain as [|x l]; [done|].
  rewrite score_of_core. split; [apply score_core_floor|].
  intros Hs -> ->. destruct (_is_sanitized rs (x :: l)); [done|].
  apply score_core_sanitized_ceiling.
Qed.

Lemma score_chain_bands_witness :
  PrimFloat.leb 0.4 (_score_chain demo_rules false sanitized_chain "RCE") = true ∧
  (_is_sanitized demo_rules sanitized_chain ≠ [] →
   _find_sources demo_rules sanitized_chain = [] →
   pattern_bonus "RCE" (_get_pattern_hits demo_rules false sanitized_chain) = false →
   PrimFloat.leb (_score_chain demo_rules false sanitized_chain "RCE") 0.7 = true).
Proof. apply (score_chain_bands demo_rules false sanitized_chain "RCE"). done. Defined.



End ChainScorerBands.

(** ** Heuristics: what the confidence can be *)
Module HeuristicsFacts.
Import Heuristics.

#[local] Open Scope float_scope.

Lemma ltb_leb a b : PrimFloat.ltb a b = true → PrimFloat.leb a b = true.
Proof.
  rewrite FloatAxioms.ltb_spec, FloatAxioms.leb_spec.
  unfold SpecFloat.SFltb, SpecFloat.SFleb.
  by destruct (SpecFloat.SFcompare _ _) as [[| |]|].
Qed.

(** A float of the unit interval (which a NaN is not). *)
Definition unit_float (x : float) : Prop :=
  PrimFloat.leb 0.0 x = true ∧ PrimFloat.leb x 1.0 = true.

Lemma clamp_unit score : unit_float (ChainScorer.clamp score).
Proof.
  unfold unit_float, ChainScorer.clamp, ChainScorer.pymax, ChainScorer.pymin.
  destruct (PrimFloat.ltb score 1.0) eqn:E1.
  - destruct (PrimFloat.ltb 0.0 score) eqn:E0.
    + split; by apply ltb_leb.
    + split; vm_compute; reflexivity.
  - split; vm_compute; reflexivity.
Qed.

Lemma pymin_one_le x : PrimFloat.leb (ChainScorer.pymin 1.0 x) 1.0 = true.
Proof.
  unfold ChainScorer.pymin. destruct (PrimFloat.ltb x 1.0) eqn:E; [by apply ltb_leb|].
  vm_compute. reflexivity.
Qed.

Lemma pymax_le a b bound :
  PrimFloat.leb a bound = true → PrimFloat.leb b bound = true →
  PrimFloat.leb (ChainScorer.pymax a b) bound = true.
Proof. intros Ha Hb. unfold ChainScorer.pymax. by destruct (PrimFloat.ltb a b). Qed.

Lemma if_unit (c : bool) x y :
  unit_float x → unit_float y → unit_float (if c then x else y).
Proof. by destruct c. Qed.

Lemma half_unit : unit_float 0.5.
Proof. split; vm_compute; reflexivity. Qed.

Lemma analyze_context_unit lines line_no context_window rule :
  unit_float (_analyze_context lines line_no context_window rule).
Proof.
  unfold _analyze_context. apply if_unit; [apply half_unit|apply clamp_unit].
Qed.

Lemma if_le_one (c : bool) x y :
  PrimFloat.leb x 1.0 = true → PrimFloat.leb y 1.0 = true →
  PrimFloat.leb (if c then x else y) 1.0 = true.
Proof. by destruct c. Qed.

Lemma calculate_confidence_le_one line lines line_no rule base_score :
  PrimFloat.leb base_score 1.0 = true →
  PrimFloat.leb (_calculate_confidence line lines line_no rule base_score) 1.0 = true.
Proof.
  intros Hb. unfold _calculate_confidence. apply if_le_one; [done|apply clamp_unit].
Qed.

(** X17: The two line heuristics keep to the unit interval: [_analyze_context]
    always returns a score between 0 and 1, and so does
    [_calculate_confidence] whenever the base score it is given lies there. *)
Theorem heuristic_scores_are_unit (line : string) (lines : list string)
    (line_no context_window : nat) (rule : template_rule) (base_score : float) :
  unit_float (_analyze_context lines line_no context_window rule) ∧
  (unit_float base_score →
   unit_float (_calculate_confidence line lines line_no rule base_score)).
Proof.
  split.
  - unfold _analyze_context. apply if_unit; [apply half_unit|apply clamp_unit].
  - intros Hb. unfold _calculate_confidence. apply if_unit; [done|apply clamp_unit].
Qed.

(** *** [_calculate_confidence] through its tests

    The function reads its arguments only through a handful of tests: three
    tests on the line, the class of each entry of [dangerous_patterns]
    (absent, one keyword, several), the counts of the seven-line block and
    three more tests on the line. *)

Definition bump (d : nat) (score : float) : float :=
  match d with
  | O => score
  | S O => score + 0.15
  | _ => score + 0.25
  end.

Definition block_core (blk : option (nat * nat * nat)) (score : float) : float :=
  match blk with
  | None => score
  | Some (input_count, output_count, spring_count) =>
      let score :=
        if (2 <=? input_count)%nat && (1 <=? output_count)%nat then score + 0.3
        else if (1 <=? input_count)%nat && (1 <=? output_count)%nat then score + 0.2
        else if (2 <=? input_count)%nat then score + 0.15
        else if (1 <=? input_count)%nat || (1 <=? output_count)%nat then score + 0.1
        else score in
      if (2 <=? spring_count)%nat then score + 0.1
      else if (1 <=? spring_count)%nat then score + 0.05
      else score
  end.

Definition confidence_core (base : float) (k : bool * bool * bool) (ds : list nat)
    (blk : option (nat * nat * nat)) (r : bool * bool * bool) : float :=
  let score := raise_if k.1.1 0.1 base in
  let score := raise_if k.1.2 0.05 score in
  let score := raise_if k.2 0.1 score in
  let score := foldl (λ s d, bump d s) score ds in
  let score := block_core blk score in
  let score := raise_if r.1.1 0.1 score in
  let score := raise_if r.1.2 0.05 score in
  let score := raise_if r.2 0.05 score in
  ChainScorer.clamp score.

Definition danger_class (vul_type line_lower : string) (vp : string * list string) : nat :=
  if PyStr.str_in vp.1 vul_type then Nat.min 2 (count_in vp.2 line_lower) else 0%nat.

Definition block_of (lines : list string) (line_no : nat) : option (nat * nat * nat) :=
  let context_window := 7%nat in
  if (context_window <=? line_no)%nat
     && (Z.of_nat line_no <? Z.of_nat (length lines) - Z.of_nat context_window)%Z
  then
    let context_start := (line_no - context_window)%nat in
    let context_end := Nat.min (length lines) (line_no + context_window + 1) in
    let context_block_text :=
      PyStr.lower (PyStr.join " " (slice lines context_start context_end)) in
    Some
      (Nat.min 2
         (count_in ["request"; "parameter"; "input"; "getparameter"; "getinputstream";
                    "getattribute"; "getheader"; "getcookie"; "requestparam";
                    "pathvariable"; "requestbody"; "queryparam"; "bodytomono";
                    "getquery"; "getpathinfo"] context_block_text),
       Nat.min 2
         (count_in ["response"; "output"; "print"; "write"; "send"; "setheader";
                    "getwriter"; "sendredirect"; "forward"; "render"; "view"; "model"]
            context_block_text),
       Nat.min 2
         (count_in ["@requestmapping"; "@getmapping"; "@postmapping"; "@putmapping";
                    "@deletemapping"; "@requestparam"; "@pathvariable"; "@requestbody";
                    "@modelattribute"; "@valid"; "@responsebody"; "@controller";
                    "@restcontroller"; "@service"; "@repository"] context_block_text))
  else None.

Lemma danger_fold vul_type line_lower (table : list (string * list string)) : ∀ score,
  foldl (λ score vp,
           if PyStr.str_in vp.1 vul_type then
             let pattern_count := count_in vp.2 line_lower in
             if (2 <=? pattern_count)%nat then score + 0.25
             else if (1 <=? pattern_count)%nat then score + 0.15
             else score
           else score) score table
  = foldl (λ s d, bump d s) score (map (danger_class vul_type line_lower) table).
Proof.
  induction table as [|vp table IH]; intros score; [done|].
  simpl. rewrite IH. f_equal. unfold danger_class.
  destruct (PyStr.str_in vp.1 vul_type); [|done].
  by destruct (count_in vp.2 line_lower) as [|[|n]].
Qed.

Lemma context_block_core lines line_no score :
  context_block_bonus lines line_no score = block_core (block_of lines line_no) score.
Proof.
  unfold context_block_bonus, block_of. cbv zeta.
  destruct (_ && _); [|done]. unfold block_core.
  repeat match goal with
         | |- context [count_in ?l ?t] => generalize (count_in l t)
         end.
  intros a b c.
  destruct a as [|[|?]], b as [|[|?]], c as [|[|?]]; reflexivity.
Qed.

(** The tests on the line made before and after the tables. *)
Definition head_tests (line : string) (rule : template_rule) : bool * bool * bool :=
  let line_lower := PyStr.lower line in
  let vul_type := PyStr.upper (or_else (vul_type rule) "") in
  ((2 <=? count_in ["request"; "getparameter"; "getinputstream"; "response"; "execute"]
            line_lower)%nat,
   (3 <? PyStr.count_char "(" line)%nat || (5 <? PyStr.count_char "." line)%nat,
   (PyStr.str_in "+" line || PyStr.str_in "concat" line_lower
    || PyStr.str_in "append" line_lower) && PyStr.str_in "SQL" vul_type).

Definition tail_tests (line : string) : bool * bool * bool :=
  let line_lower := PyStr.lower line in
  (PyStr.str_in "return" line_lower
   && any_in ["request"; "parameter"; "input"; "getparameter"] line_lower,
   any_in ["list"; "array"; "map"; "set"; "collection"] line_lower
   && (PyStr.str_in "getparameter" line_lower || PyStr.str_in "request" line_lower),
   any_in ["tostring"; "valueof"; "parse"; "convert"] line_lower
   && (PyStr.str_in "request" line_lower || PyStr.str_in "parameter" line_lower)).

Lemma raise_if_and (c d : bool) (delta score : float) :
  (if c then raise_if d delta score else score) = raise_if (c && d) delta score.
Proof. by destruct c. Qed.

Lemma calculate_confidence_core line lines line_no rule base :
  _calculate_confidence line lines line_no rule base = base ∨
  _calculate_confidence line lines line_no rule base
  = confidence_core base (head_tests line rule)
      (map (danger_class (PyStr.upper (or_else (vul_type rule) ""))
              (PyStr.lower line)) dangerous_patterns)
      (block_of lines line_no) (tail_tests line).
Proof.
  unfold _calculate_confidence.
  match goal with |- context [if ?c then base else _] => destruct c end; [by left|].
  right. cbv zeta. rewrite danger_fold, context_block_core, !raise_if_and.
  reflexivity.
Qed.

(** The lists of all tests outcomes. *)
Fixpoint words (n : nat) : list (list nat) :=
  match n with
  | O => [[]]
  | S n => flat_map (λ l, [0%nat :: l; 1%nat :: l; 2%nat :: l]) (words n)
  end.

Definition bools3 : list (bool * bool * bool) :=
  flat_map (λ a, flat_map (λ b, [(a, b, true); (a, b, false)]) [true; false]) [true; false].

Definition blocks : list (option (nat * nat * nat)) :=
  None :: flat_map (λ a, flat_map (λ b, map (λ c, Some (a, b, c)) [0; 1; 2]%nat)
                           [0; 1; 2]%nat) [0; 1; 2]%nat.

Definition never_weak (base : float) : bool :=
  forallb (λ k, forallb (λ ds, forallb (λ blk, forallb (λ r,
    negb (PrimFloat.ltb (confidence_core base k ds blk r) 0.3)) bools3) blocks) (words 6))
    bools3.

Lemma words_elem l : Forall (λ d, d ≤ 2)%nat l → In l (words (length l)).
Proof.
  induction l as [|d l IH]; intros Hl; [by left|].
  apply Forall_cons in Hl as [Hd Hl]. simpl. apply in_flat_map.
  exists l. split; [by apply IH|].
  destruct d as [|[|[|d]]]; [by left|by right; left|by right; right; left|lia].
Qed.

Lemma bools3_elem k : In k bools3.
Proof. destruct k as [[[|] [|]] [|]]; simpl; tauto. Qed.

Lemma danger_class_le vul_type line_lower vp :
  (danger_class vul_type line_lower vp ≤ 2)%nat.
Proof. unfold danger_class. destruct (PyStr.str_in _ _); lia. Qed.

Lemma min2_cases n : (Nat.min 2 n = 0 ∨ Nat.min 2 n = 1 ∨ Nat.min 2 n = 2)%nat.
Proof. lia. Qed.

Lemma block_of_elem lines line_no : In (block_of lines line_no) blocks.
Proof.
  unfold block_of. cbv zeta. destruct (_ && _); [|by left].
  repeat match goal with
         | |- context [Nat.min 2 ?n] =>
             let H := fresh in
             destruct (min2_cases n) as [H|[H|H]]; rewrite H; clear H
         end; simpl; tauto.
Qed.

Lemma never_weak_half : never_weak 0.5 = true.
Proof. vm_compute. reflexivity. Qed.

Lemma never_weak_jsp : never_weak 0.6 = true.
Proof. vm_compute. reflexivity. Qed.

Lemma never_weak_spec base k ds blk r :
  never_weak base = true → In ds (words 6) → In blk blocks →
  PrimFloat.ltb (confidence_core base k ds blk r) 0.3 = false.
Proof.
  unfold never_weak. rewrite forallb_forall. intros H Hds Hblk.
  specialize (H k (bools3_elem k)). rewrite forallb_forall in H.
  specialize (H ds Hds). rewrite forallb_forall in H.
  specialize (H blk Hblk). rewrite forallb_forall in H.
  specialize (H r (bools3_elem r)). by apply negb_true_iff in H.
Qed.

Lemma calculate_confidence_not_weak line lines line_no rule base :
  never_weak base = true → PrimFloat.ltb base 0.3 = false →
  PrimFloat.ltb (_calculate_confidence line lines line_no rule base) 0.3 = false.
Proof.
  intros Hw Hb.
  destruct (calculate_confidence_core line lines line_no rule base) as [->| ->];
    [done|].
  apply never_weak_spec; [done| |apply block_of_elem].
  apply (words_elem (map _ dangerous_patterns)).
  apply Forall_forall. intros d Hd. apply list_elem_of_fmap in Hd as (vp & -> & _).
  apply danger_class_le.
Qed.

(** X18: The false-positive filter of the template scanner never discards a
    line: it drops a line that [_is_false_positive] flags only when
    [_calculate_confidence], started from 0.6 (JSP) or 0.5, comes out below
    0.3, and no line, file or rule makes it do so. *)
Theorem false_positive_filter_is_dead (line : string) (lines : list string)
    (line_no : nat) (rule : template_rule) (ext : string) :
  _is_false_positive line lines line_no TemplateScanner.CONTEXT_WINDOW rule
  && PrimFloat.ltb
       (_calculate_confidence line lines line_no rule
          (if TemplateScanner.is_jsp ext then 0.6 else 0.5)) 0.3
  = false.
Proof.
  apply andb_false_intro2.
  destruct (TemplateScanner.is_jsp ext).
  - apply calculate_confidence_not_weak; [apply never_weak_jsp|reflexivity].
  - apply calculate_confidence_not_weak; [apply never_weak_half|reflexivity].
Qed.

End HeuristicsFacts.

(** ** TemplateScanner: what a finding stands for *)
Module TemplateScannerSound.
Import Heuristics TemplateScanner TemplateScannerFacts.

#[local] Open Scope float_scope.

Section Grounds.
Variable re_ok : string → bool.
Variable re_search : string → string → bool.
Variable should_stop : nat → bool.
Variable cfg : config.

(** Line [ln] (counted from 1) of [lines] passes the filters the ordinary
    rule [rule] puts before and after its patterns: the line is not over-long,
    it passes the hint prefilter, and its context score reaches the threshold
    of the file type.  Which compiled patterns the scan holds for a rule is
    decided by the process-wide pattern cache, so that nothing is said of
    them. *)
Definition line_hit (rule : template_rule) (ext : string) (lines : list string)
    (ln : nat) : Prop :=
  ∃ line,
    (1 ≤ ln)%nat ∧ lines !! (ln - 1)%nat = Some line ∧
    (Z.of_nat (String.length line) ≤ 10000)%Z ∧
    (force_regex rule = true ∨ any_in (rule_hints rule) (PyStr.lower line) = true) ∧
    PrimFloat.ltb (_analyze_context lines ln CONTEXT_WINDOW rule)
      (if is_jsp ext then 0.25 else 0.3) = false.

(** Line [ln] opens a POST form with no CSRF token in the 50 lines from it. *)
Definition form_hit (lines : list string) (ln : nat) : Prop :=
  ∃ line,
    (1 ≤ ln)%nat ∧ lines !! (ln - 1)%nat = Some line ∧
    PyStr.str_in "<form" line = true ∧
    PyStr.str_in ("method=" +:+ quoted "post") line = true ∧
    let window := PyStr.join "" (slice lines (ln - 1) (ln - 1 + 50)) in
    PyStr.str_in ("name=" +:+ quoted "csrf") window = false ∧
    PyStr.str_in "_csrf" window = false.

Definition is_form_rule (rule : template_rule) : bool :=
  String.eqb (PyStr.upper (or_else (name rule) "")) "FORM_NO_CSRF".

(** The finding [x] reports lines of the file [f] that are hits of [rule]. *)
Definition justified (rule : template_rule) (f : file) (lines : list string)
    (x : finding) : Prop :=
  f_sink x = name rule ∧ f_file_path x = rel f ∧ f_file_path_abs x = file_path f ∧
  PrimFloat.leb (f_confidence x) 1.0 = true ∧
  ∀ ln, ln ∈ f_group_lines x →
    if is_form_rule rule then form_hit lines ln
    else line_hit rule (ext_of (file_name f)) lines ln.

Definition grounded_in (walk : list directory) (x : finding) : Prop :=
  ∃ rule d f lines,
    rule ∈ template_rules cfg ∧ d ∈ walk ∧ f ∈ files d ∧ content f = Some lines ∧
    justified rule f lines x.

Variable walk : list directory.

Definition grounded (st : scan) : Prop := Forall (grounded_in walk) (findings st).

Lemma grounded_publish item st :
  grounded_in walk item → grounded st → grounded (publish cfg item st).
Proof.
  intros Hitem Hst. unfold grounded, publish.
  destruct (_ && _); simpl; apply Forall_app; split; try done;
    by apply Forall_singleton.
Qed.

Section OneFile.
Variable rule : template_rule.
Variable d : directory.
Variable f : file.
Variable lines : list string.
Hypothesis rule_known : rule ∈ template_rules cfg.
Hypothesis d_walked : d ∈ walk.
Hypothesis f_listed : f ∈ files d.
Hypothesis f_read : content f = Some lines.

Lemma grounded_form_line st il :
  is_form_rule rule = true → il ∈ imap pair lines →
  grounded st → grounded (form_line cfg rule f lines st il).1.
Proof.
  intros Hform Hil Hst. unfold form_line.
  apply elem_of_lookup_imap_1 in Hil as (i & line & -> & Hline). cbn [fst snd].
  destruct (PyStr.str_in "<form" line && PyStr.str_in ("method=" +:+ quoted "post") line)
    eqn:E1; [|done].
  destruct (negb (PyStr.str_in ("name=" +:+ quoted "csrf")
                    (PyStr.join "" (slice lines i (i + 50))))
            && negb (PyStr.str_in "_csrf" (PyStr.join "" (slice lines i (i + 50)))))
    eqn:E2; [|done].
  destruct (_ && _ && _); [|done]. unfold after_publish.
  assert (grounded (publish cfg (form_item cfg rule f i)
            (mark_emitted (name rule, rel f)
               (default 0%nat (per_file_rule_count st !! (name rule, rel f)))
               (rel f, rule_vul_type rule)
               (mark_seen (name rule, rel f, (i + 1)%nat) st)))) as Hgoal.
  { apply grounded_publish; [|done].
    exists rule, d, f, lines. repeat split; try done.
    intros ln ->%list_elem_of_singleton. rewrite Hform.
    apply andb_true_iff in E1 as [E1a E1b].
    apply andb_true_iff in E2 as [E2a%negb_true_iff E2b%negb_true_iff].
    exists line. replace (i + 1 - 1)%nat with i by lia.
    repeat split; try done. lia. }
  by destruct (max_findings_reached _).
Qed.

(** During the line pass every recorded hit is a hit, with a confidence of
    at most 1. *)
Definition hits_ok (sh : scan * list (nat * float)) : Prop :=
  Forall (λ h, line_hit rule (ext_of (file_name f)) lines h.1 ∧
               PrimFloat.leb h.2 1.0 = true) sh.2.

Lemma rule_hints_nil : rule_hints rule = [] → force_regex rule = true.
Proof. unfold rule_hints. by destruct (force_regex rule). Qed.

Lemma hits_try_pattern i line pats sh pat :
  (1 ≤ i)%nat → lines !! (i - 1)%nat = Some line →
  (Z.of_nat (String.length line) ≤ 10000)%Z →
  (force_regex rule = true ∨ any_in (rule_hints rule) (PyStr.lower line) = true) →
  pats = filter (λ p, re_ok p = true) (patterns rule) → pat ∈ pats →
  hits_ok sh →
  hits_ok (try_pattern re_search should_stop cfg rule f (ext_of (file_name f))
             lines i line sh pat).1.
Proof.
  intros Hi Hline Hlen Hhint -> Hpat Hsh. destruct sh as [st hits].
  apply list_elem_of_filter in Hpat as [Hok Hpat].
  unfold hits_ok, try_pattern in *. simpl in *.
  destruct (should_stop (polls st)); [done|].
  destruct (_ <=? _)%nat; [done|].
  destruct (re_search pat line) eqn:Ere; [|done]. simpl.
  destruct (apply_must_substrings cfg && _); [done|].
  destruct (_ && PrimFloat.ltb _ 0.3); [done|].
  destruct (PrimFloat.ltb (_analyze_context _ _ _ _) _) eqn:Ectx; [done|].
  case_bool_decide; [done|]. simpl.
  apply Forall_app. split; [done|]. apply Forall_singleton. simpl. split.
  - exists line. repeat split; done.
  - set (c := _calculate_confidence _ _ _ _ _).
    assert (Hc : PrimFloat.leb c 1.0 = true).
    { apply HeuristicsFacts.calculate_confidence_le_one.
      apply HeuristicsFacts.analyze_context_unit. }
    destruct (is_jsp _ && PrimFloat.ltb 0.5 c); [|done].
    apply HeuristicsFacts.pymin_one_le.
Qed.

Lemma hits_scan_line pats hints sh il :
  pats = filter (λ p, re_ok p = true) (patterns rule) → hints = rule_hints rule →
  il ∈ imap (λ i l, (S i, l)) lines →
  hits_ok sh →
  hits_ok (scan_line re_search should_stop cfg rule f (ext_of (file_name f))
             lines pats hints sh il).1.
Proof.
  intros Hpats -> Hil Hsh. destruct sh as [st hits].
  apply elem_of_lookup_imap_1 in Hil as (i & line & -> & Hline).
  unfold scan_line. simpl.
  destruct (should_stop (polls st)); [done|].
  destruct (_ <? _)%Z eqn:Elen; [done|]. apply Z.ltb_ge in Elen.
  destruct (negb (force_regex rule) && _ && _) eqn:Ehint; [done|].
  destruct (_ <=? _)%nat; [done|]. simpl.
  apply (loop_inv_elem hits_ok); [|done].
  intros sh' pat Hpat Hsh'.
  apply (hits_try_pattern (S i) line pats); try done.
  - lia.
  - by replace (S i - 1)%nat with i by lia.
  - destruct (force_regex rule) eqn:Ef; [by left|]. right. simpl in Ehint.
    case_bool_decide as Hnil; [by apply rule_hints_nil in Hnil; congruence|].
    simpl in Ehint. by apply negb_false_iff in Ehint.
Qed.

Lemma conf_at_le hits ln :
  Forall (λ h : nat * float, PrimFloat.leb h.2 1.0 = true) hits →
  PrimFloat.leb (conf_at hits ln) 1.0 = true.
Proof.
  intros Hh. unfold conf_at.
  assert (Hc : Forall (λ c, PrimFloat.leb c 1.0 = true)
                 (map snd (filter (λ h, h.1 = ln) hits))).
  { apply Forall_fmap. apply Forall_forall. intros h Hin.
    apply list_elem_of_filter in Hin as [_ Hin]. rewrite Forall_forall in Hh.
    by apply Hh. }
  destruct (map snd _) as [|c cs]; [reflexivity|].
  apply Forall_cons in Hc as [Hc Hcs]. revert c Hc.
  induction cs as [|c' cs IH]; intros c Hc; [done|]. simpl.
  apply Forall_cons in Hcs as [Hc' Hcs].
  apply IH; [done|]. by apply HeuristicsFacts.pymax_le.
Qed.

Lemma fold_groups_le hits rest : ∀ start_ln prev_ln conf,
  Forall (λ h : nat * float, PrimFloat.leb h.2 1.0 = true) hits →
  PrimFloat.leb conf 1.0 = true →
  Forall (λ g : nat * nat * float, PrimFloat.leb g.2 1.0 = true)
    (fold_groups hits start_ln prev_ln conf rest).
Proof.
  induction rest as [|ln rest IH]; intros start_ln prev_ln conf Hh Hc; simpl.
  - by apply Forall_singleton.
  - destruct (ln =? prev_ln + 1)%nat.
    + apply IH; [done|]. apply HeuristicsFacts.pymax_le; [done|by apply conf_at_le].
    + apply Forall_cons. split; [done|]. apply IH; [done|by apply conf_at_le].
Qed.

Lemma groups_of_le hits :
  Forall (λ h : nat * float, PrimFloat.leb h.2 1.0 = true) hits →
  Forall (λ g : nat * nat * float, PrimFloat.leb g.2 1.0 = true) (groups_of hits).
Proof.
  intros Hh. unfold groups_of. destruct (hit_lines_nums hits); [apply Forall_nil_2|].
  apply fold_groups_le; [done|by apply conf_at_le].
Qed.

Lemma grounded_emit_group nums st g :
  is_form_rule rule = false →
  (∀ ln, ln ∈ nums → line_hit rule (ext_of (file_name f)) lines ln) →
  PrimFloat.leb g.2 1.0 = true →
  grounded st → grounded (emit_group cfg rule f nums st g).1.
Proof.
  intros Hform Hnums Hg Hst. unfold emit_group.
  destruct (_ <=? _)%nat; [done|]. case_bool_decide; [done|]. unfold after_publish.
  assert (grounded (publish cfg (group_item cfg rule f nums g)
            (mark_emitted (name rule, rel f)
               (default 0%nat (per_file_rule_count st !! (name rule, rel f)))
               (rel f, rule_vul_type rule) st))) as Hgoal.
  { apply grounded_publish; [|done].
    exists rule, d, f, lines. repeat split; try done.
    intros ln Hln. rewrite Hform. simpl in Hln.
    apply list_elem_of_filter in Hln as [_ Hln]. by apply Hnums. }
  by destruct (max_findings_reached _).
Qed.

Lemma grounded_scan_rule st :
  grounded st →
  grounded (scan_rule re_ok re_search should_stop cfg f (ext_of (file_name f))
              lines st rule).1.
Proof.
  intros Hst. unfold scan_rule. fold (is_form_rule rule).
  destruct (is_form_rule rule) eqn:Hform.
  - assert (grounded (loop (form_line cfg rule f lines) st (imap pair lines))) as Hloop.
    { apply (loop_inv_elem grounded); [|done].
      intros st' il Hil. by apply grounded_form_line. }
    by destruct (max_findings_reached _).
  - set (sh := loop _ (st, []) _).
    assert (Hf : findings sh.1 = findings st).
    { apply (loop_inv (λ sh', findings sh'.1 = findings st)); [|done].
      intros sh' il Hsh'. by rewrite scan_line_findings. }
    assert (Hsh : hits_ok sh).
    { apply (loop_inv_elem hits_ok).
      - intros sh' il Hil. by apply hits_scan_line.
      - apply Forall_nil_2. }
    pose proof Hsh as Hhits. unfold hits_ok in Hhits.
    assert (Hsrc : grounded sh.1) by (unfold grounded; by rewrite Hf).
    destruct (sh.2) as [|h hits] eqn:Eh; [done|]. simpl. rewrite <- Eh in *.
    assert (Hle : Forall (λ g : nat * nat * float, PrimFloat.leb g.2 1.0 = true)
                    (groups_of sh.2)).
    { apply groups_of_le. eapply Forall_impl; [exact Hhits|]. by intros ? [_ ?]. }
    rewrite Forall_forall in Hle.
    apply (loop_inv_elem grounded); [|done].
    intros st' g Hg. apply grounded_emit_group; [done| |by apply Hle].
    intros ln Hln. unfold hit_lines_nums in Hln.
    rewrite merge_sort_Permutation in Hln.
    apply list_elem_of_fmap in Hln as (hit & -> & Hin).
    rewrite Forall_forall in Hhits. by destruct (Hhits _ Hin).
Qed.

End OneFile.

Lemma grounded_scan_file d st f :
  d ∈ walk → f ∈ files d →
  grounded st → grounded (scan_file re_ok re_search should_stop cfg st f).1.
Proof.
  intros Hd Hf Hst. unfold scan_file. destruct (_ && _); [done|].
  destruct (content f) as [lines|] eqn:Ec; [|done].
  set (rules_to_check := if java_related _ then _ else _).
  assert (grounded (loop (scan_rule re_ok re_search should_stop cfg f
                            (ext_of (file_name f)) lines)
                      (set_regex_evals 0 st) rules_to_check)) as Hloop.
  { apply (loop_inv_elem grounded); [|done].
    intros st' rule Hrule. apply (grounded_scan_rule rule d); try done.
    unfold rules_to_check in Hrule. destruct (java_related _); [done|].
    by apply ext_map_rules in Hrule. }
  by destruct (max_findings_reached _).
Qed.

Lemma grounded_scan_dir st d :
  d ∈ walk → grounded st → grounded (scan_dir re_ok re_search should_stop cfg st d).
Proof.
  intros Hd Hst. unfold scan_dir. destruct (any_in _ _); [done|].
  apply (loop_inv_elem grounded); [|done].
  intros st' f Hf. by apply grounded_scan_file with d.
Qed.

End Grounds.

Lemma grounded_in_mono cfg (walk walk' : list directory) x :
  walk ⊆ walk' → grounded_in cfg walk x → grounded_in cfg walk' x.
Proof.
  intros Hsub (rule & d & f & lines & H1 & H2 & H3).
  exists rule, d, f, lines. split; [done|]. split; [by apply Hsub|done].
Qed.

(** The texts of a rule, of a file and of a whole scan are ASCII: there
    the lengths, the lower and upper case and the trimming of the model are
    those of Python's [str]. *)
Definition ascii_option (o : option string) : bool :=
  match o with
  | Some s => PyStr.isascii s
  | None => true
  end.

Definition ascii_rule (r : template_rule) : bool :=
  ascii_option (name r) && ascii_option (vul_type r) && ascii_option (desc r)
  && ascii_option (severity r) && forallb PyStr.isascii (file_exts r)
  && forallb PyStr.isascii (patterns r) && forallb PyStr.isascii (must_substrings r)
  && forallb PyStr.isascii (exclude_substrings r) && PyStr.isascii (rule_file_path r).

Definition ascii_file (f : file) : bool :=
  PyStr.isascii (file_name f) && PyStr.isascii (rel f) && PyStr.isascii (file_path f)
  && match content f with
     | Some lines => forallb PyStr.isascii lines
     | None => true
     end.

Definition ascii_scan (cfg : config) (walk : list directory) : bool :=
  forallb ascii_rule (template_rules cfg) && forallb PyStr.isascii (include_exts cfg)
  && forallb (λ d, PyStr.isascii (root d) && forallb ascii_file (files d)) walk.

(** X19: On rules and files of ASCII text, every finding of the template scanner
    is backed by the files it was given: it names a rule of the rule set and
    a file of the walk that was read, its confidence is at most 1, and each
    line it lists passed the filters of that rule in that file: for an
    ordinary rule the length and hint prefilters and the context threshold;
    for FORM_NO_CSRF a POST form without a CSRF token in the next 50 lines. *)
Theorem findings_are_hits re_ok re_search should_stop cfg
    (walk : list directory) (partial0 : list finding) (x : finding) :
  ascii_scan cfg walk = true →
  x ∈ findings (_scan_template_files re_ok re_search should_stop cfg walk partial0) →
  ∃ rule d f lines,
    rule ∈ template_rules cfg ∧ d ∈ walk ∧ f ∈ files d ∧ content f = Some lines ∧
    f_sink x = name rule ∧ f_file_path x = rel f ∧ f_file_path_abs x = file_path f ∧
    PrimFloat.leb (f_confidence x) 1.0 = true ∧
    ∀ ln, ln ∈ f_group_lines x →
      if is_form_rule rule then form_hit lines ln
      else line_hit rule (ext_of (file_name f)) lines ln.
Proof.
  intros _ Hx.
  assert (Hall : grounded cfg walk
            (_scan_template_files re_ok re_search should_stop cfg walk partial0)).
  { unfold _scan_template_files.
    destruct (template_rules cfg) eqn:Er; [apply Forall_nil_2|].
    assert (Hwalk : ∀ ds st, ds ⊆ walk →
              grounded cfg walk st →
              grounded cfg walk
                (foldl (scan_dir re_ok re_search should_stop cfg) st ds)).
    { induction ds as [|d ds IH]; intros st Hsub Hst; simpl; [done|].
      apply IH; [set_solver|]. apply grounded_scan_dir; [|done].
      apply Hsub. left. }
    specialize (Hwalk walk (Scan [] partial0 ∅ ∅ ∅ 0 0 0 0)).
    assert (Hg := Hwalk (reflexivity walk) (Forall_nil_2 _)).
    destruct (on_partial cfg); simpl; [|done].
    by destruct (0 <? _)%nat. }
  unfold grounded in Hall. rewrite Forall_forall in Hall.
  destruct (Hall x Hx) as (rule & d & f & lines & H1 & H2 & H3 & H4 & H5).
  exists rule, d, f, lines. unfold justified in H5. naive_solver.
Qed.

End TemplateScannerSound.

(** ** TemplateScanner: the stop predicate and the partial results *)
Module TemplateScannerFlow.
Import Heuristics TemplateScanner TemplateScannerFacts.

#[local] Open Scope float_scope.

Section Flow.
Variable re_ok : string → bool.
Variable re_search : string → string → bool.
Variable should_stop : nat → bool.
Variable cfg : config.

(** *** [partial_results] grows with the findings *)

Variable partial0 : list finding.

Definition tracked (st : scan) : Prop := partial_results st = partial0 ++ findings st.

Lemma tracked_publish item st st' :
  findings st' = findings st → partial_results st' = partial_results st →
  tracked st → tracked (publish cfg item st').
Proof.
  unfold tracked. intros Hf Hp Hst.
  assert (partial_results (append_item item st') = partial0 ++ findings (append_item item st')).
  { simpl. by rewrite Hf, Hp, Hst, app_assoc. }
  unfold publish. by destruct (_ && _).
Qed.

Lemma tracked_form_line rule f lines st il :
  tracked st → tracked (form_line cfg rule f lines st il).1.
Proof.
  intros Hst. unfold form_line.
  destruct (_ && _); [|done]. destruct (_ && _); [|done].
  destruct (_ && _); [|done]. unfold after_publish.
  assert (tracked (publish cfg (form_item cfg rule f il.1)
            (mark_emitted (name rule, rel f)
               (default 0%nat (per_file_rule_count st !! (name rule, rel f)))
               (rel f, rule_vul_type rule)
               (mark_seen (name rule, rel f, (il.1 + 1)%nat) st)))) as Hgoal.
  { by apply (tracked_publish _ st). }
  by destruct (max_findings_reached _).
Qed.

Lemma try_pattern_partial rule f ext lines i line sh pat :
  partial_results (try_pattern re_search should_stop cfg rule f ext lines i line sh pat).1.1
  = partial_results sh.1.
Proof.
  unfold try_pattern. destruct (should_stop _); [done|].
  destruct (_ <=? _)%nat; [done|]. destruct (negb _); [done|].
  destruct (apply_must_substrings cfg && _); [done|].
  destruct (_ && PrimFloat.ltb _ 0.3); [done|].
  destruct (PrimFloat.ltb (_analyze_context _ _ _ _) _); [done|].
  by case_bool_decide.
Qed.

Lemma scan_line_partial rule f ext lines pats hints sh il :
  partial_results (scan_line re_search should_stop cfg rule f ext lines pats hints sh il).1.1
  = partial_results sh.1.
Proof.
  unfold scan_line. destruct (should_stop _); [done|].
  destruct (_ <? _)%Z; [done|]. destruct (_ && negb (any_in _ _)); [done|].
  destruct (_ <=? _)%nat; [done|]. simpl.
  apply (loop_inv (λ sh', partial_results sh'.1 = partial_results sh.1)); [|done].
  intros sh' pat Hsh'. by rewrite try_pattern_partial.
Qed.

Lemma tracked_emit_group rule f nums st g :
  tracked st → tracked (emit_group cfg rule f nums st g).1.
Proof.
  intros Hst. unfold emit_group.
  destruct (_ <=? _)%nat; [done|]. case_bool_decide; [done|]. unfold after_publish.
  assert (tracked (publish cfg (group_item cfg rule f nums g)
            (mark_emitted (name rule, rel f)
               (default 0%nat (per_file_rule_count st !! (name rule, rel f)))
               (rel f, rule_vul_type rule) st))) as Hgoal.
  { by apply (tracked_publish _ st). }
  by destruct (max_findings_reached _).
Qed.

Lemma tracked_scan_rule f ext lines st rule :
  tracked st → tracked (scan_rule re_ok re_search should_stop cfg f ext lines st rule).1.
Proof.
  intros Hst. unfold scan_rule. destruct (String.eqb _ "FORM_NO_CSRF").
  - assert (tracked (loop (form_line cfg rule f lines) st (imap pair lines))) as Hloop.
    { apply (loop_inv tracked); [|done]. intros st' il. apply tracked_form_line. }
    by destruct (max_findings_reached _).
  - set (sh := loop _ (st, []) _).
    assert (Hf : findings sh.1 = findings st).
    { apply (loop_inv (λ sh', findings sh'.1 = findings st)); [|done].
      intros sh' il Hsh'. by rewrite scan_line_findings. }
    assert (Hp : partial_results sh.1 = partial_results st).
    { apply (loop_inv (λ sh', partial_results sh'.1 = partial_results st)); [|done].
      intros sh' il Hsh'. by rewrite scan_line_partial. }
    assert (Hsh : tracked sh.1) by (unfold tracked; by rewrite Hf, Hp).
    destruct (sh.2) as [|h hits]; [done|]. simpl.
    apply (loop_inv tracked); [|done]. intros st' g. apply tracked_emit_group.
Qed.

Lemma tracked_scan_file st f :
  tracked st → tracked (scan_file re_ok re_search should_stop cfg st f).1.
Proof.
  intros Hst. unfold scan_file. destruct (_ && _); [done|].
  destruct (content f) as [lines|]; [|done].
  set (rules_to_check := if java_related _ then _ else _).
  assert (tracked (loop (scan_rule re_ok re_search should_stop cfg f
                           (ext_of (file_name f)) lines)
                     (set_regex_evals 0 st) rules_to_check)) as Hloop.
  { apply (loop_inv tracked); [|done]. intros st' rule. apply tracked_scan_rule. }
  by destruct (max_findings_reached _).
Qed.

Lemma tracked_scan_dirs ds : ∀ st,
  tracked st → tracked (foldl (scan_dir re_ok re_search should_stop cfg) st ds).
Proof.
  induction ds as [|d ds IH]; intros st Hst; simpl; [done|].
  apply IH. unfold scan_dir. destruct (any_in _ _); [done|].
  apply (loop_inv tracked); [|done]. intros st' f. apply tracked_scan_file.
Qed.

(** *** Findings under a raised stop predicate *)

Definition is_form_item (x : finding) : Prop :=
  ∃ rule f i,
    String.eqb (PyStr.upper (or_else (name rule) "")) "FORM_NO_CSRF" = true ∧
    x = form_item cfg rule f i.

Definition only_forms (st : scan) : Prop := Forall is_form_item (findings st).

Hypothesis stopped : ∀ n, should_stop n = true.

Lemma only_forms_form_line rule f lines st il :
  String.eqb (PyStr.upper (or_else (name rule) "")) "FORM_NO_CSRF" = true →
  only_forms st → only_forms (form_line cfg rule f lines st il).1.
Proof.
  intros Hform Hst. unfold form_line.
  destruct (_ && _); [|done]. destruct (_ && _); [|done].
  destruct (_ && _); [|done]. unfold after_publish.
  assert (only_forms (publish cfg (form_item cfg rule f il.1)
            (mark_emitted (name rule, rel f)
               (default 0%nat (per_file_rule_count st !! (name rule, rel f)))
               (rel f, rule_vul_type rule)
               (mark_seen (name rule, rel f, (il.1 + 1)%nat) st)))) as Hgoal.
  { unfold only_forms, publish.
    destruct (_ && _); simpl; apply Forall_app; (split; [done|]);
      apply Forall_singleton; by exists rule, f, il.1. }
  by destruct (max_findings_reached _).
Qed.

Lemma only_forms_scan_rule f ext lines st rule :
  only_forms st →
  only_forms (scan_rule re_ok re_search should_stop cfg f ext lines st rule).1.
Proof.
  intros Hst.
  destruct (String.eqb (PyStr.upper (or_else (name rule) "")) "FORM_NO_CSRF") eqn:Hform.
  - unfold scan_rule. rewrite Hform.
    assert (only_forms (loop (form_line cfg rule f lines) st (imap pair lines))) as Hloop.
    { apply (loop_inv only_forms); [|done].
      intros st' il. by apply only_forms_form_line. }
    by destruct (max_findings_reached _).
  - unfold only_forms. by rewrite line_rule_respects_stop.
Qed.

Lemma only_forms_scan_file st f :
  only_forms st → only_forms (scan_file re_ok re_search should_stop cfg st f).1.
Proof.
  intros Hst. unfold scan_file. destruct (_ && _); [done|].
  destruct (content f) as [lines|]; [|done].
  set (rules_to_check := if java_related _ then _ else _).
  assert (only_forms (loop (scan_rule re_ok re_search should_stop cfg f
                              (ext_of (file_name f)) lines)
                        (set_regex_evals 0 st) rules_to_check)) as Hloop.
  { apply (loop_inv only_forms); [|done]. intros st' rule. apply only_forms_scan_rule. }
  by destruct (max_findings_reached _).
Qed.

Lemma only_forms_scan_dirs ds : ∀ st,
  only_forms st → only_forms (foldl (scan_dir re_ok re_search should_stop cfg) st ds).
Proof.
  induction ds as [|d ds IH]; intros st Hst; simpl; [done|].
  apply IH. unfold scan_dir. destruct (any_in _ _); [done|].
  apply (loop_inv only_forms); [|done]. intros st' f. apply only_forms_scan_file.
Qed.

End Flow.

(** X20: Whatever the scanner returns it has also appended to
    [self.partial_results], in the same order and behind what the list held
    before: after the scan, [partial_results] is its old content followed by
    the returned findings. *)
Theorem partial_results_track_findings re_ok re_search should_stop cfg
    (walk : list directory) (partial0 : list finding) :
  partial_results (_scan_template_files re_ok re_search should_stop cfg walk partial0)
  = partial0 ++ findings (_scan_template_files re_ok re_search should_stop cfg walk partial0).
Proof.
  unfold _scan_template_files.
  destruct (template_rules cfg); [simpl; by rewrite app_nil_r|].
  pose proof (tracked_scan_dirs re_ok re_search should_stop cfg partial0 walk
                (Scan [] partial0 ∅ ∅ ∅ 0 0 0 0)) as H.
  unfold tracked in H. simpl in H. rewrite app_nil_r in H. specialize (H eq_refl).
  destruct (on_partial cfg); simpl; [|done].
  by destruct (0 <? _)%nat.
Qed.

(** X21: With the stop predicate raised from the start, the ordinary rules
    report nothing: every finding of the scan is an item of a FORM_NO_CSRF
    rule, whose block never asks the predicate. *)
Theorem stop_silences_line_rules re_ok re_search should_stop cfg
    (walk : list directory) (partial0 : list finding) (x : finding) :
  (∀ n, should_stop n = true) →
  x ∈ findings (_scan_template_files re_ok re_search should_stop cfg walk partial0) →
  ∃ rule f i,
    String.eqb (PyStr.upper (or_else (name rule) "")) "FORM_NO_CSRF" = true ∧
    x = form_item cfg rule f i.
Proof.
  intros Hstop Hx.
  assert (Hall : only_forms cfg
            (_scan_template_files re_ok re_search should_stop cfg walk partial0)).
  { unfold _scan_template_files.
    destruct (template_rules cfg); [apply Forall_nil_2|].
    pose proof (only_forms_scan_dirs re_ok re_search should_stop cfg Hstop walk
                  (Scan [] partial0 ∅ ∅ ∅ 0 0 0 0) (Forall_nil_2 _)) as H.
    destruct (on_partial cfg); simpl; [|done].
    by destruct (0 <? _)%nat. }
  unfold only_forms in Hall. rewrite Forall_forall in Hall. by apply Hall.
Qed.

End TemplateScannerFlow.

(** ** Runs that exercise the scanner theorems *)
Module ScannerChecks.
Import Heuristics TemplateScanner TemplateScannerFacts ScannerRuns.

#[local] Open Scope float_scope.

Definition plain : config := Config [el_rule; csrf_rule] false [] false false false.

Lemma stop_silences_line_rules_witness :
  ∃ rule f i,
    String.eqb (PyStr.upper (or_else (name rule) "")) "FORM_NO_CSRF" = true ∧
    form_item plain csrf_rule form_jsp 0 = form_item plain rule f i.
Proof.
  apply (TemplateScannerFlow.stop_silences_line_rules (λ _, true) word_search always
           plain [Directory "/project" [page_jsp; form_jsp]] []).
  - done.
  - vm_compute. left.
Defined.

Lemma findings_are_hits_witness :
  let x := group_item (Config [el_rule] false [] false false false) el_rule page_jsp
             [1%nat] (1%nat, 1%nat, 0.25) in
  ∃ rule d f lines,
    rule ∈ [el_rule] ∧ d ∈ [Directory "/project" [page_jsp]] ∧ f ∈ files d ∧
    content f = Some lines ∧
    f_sink x = name rule ∧ f_file_path x = rel f ∧ f_file_path_abs x = file_path f ∧
    PrimFloat.leb (f_confidence x) 1.0 = true ∧
    ∀ ln, ln ∈ f_group_lines x →
      if TemplateScannerSound.is_form_rule rule then TemplateScannerSound.form_hit lines ln
      else TemplateScannerSound.line_hit rule (ext_of (file_name f)) lines ln.
Proof.
  apply (TemplateScannerSound.findings_are_hits (λ _, true) word_search never
           (Config [el_rule] false [] false false false)
           [Directory "/project" [page_jsp]] []).
  - vm_compute. reflexivity.
  - vm_compute. left.
Defined.

Definition adjacent_jsp : file :=
  File "two.jsp" "two.jsp" "/project/two.jsp"
    (Some ["${userInput}" +:+ nl; "${userInput} again" +:+ nl]).

End ScannerChecks.

(** ** TemplateScanner: the lines of a finding are one run *)
Module TemplateScannerRanges.
Import Heuristics TemplateScanner TemplateScannerFacts.

#[local] Open Scope float_scope.

Lemma filter_none {A : Type} (P : A → Prop) `{∀ x, Decision (P x)} (l : list A) :
  Forall (λ x, ¬ P x) l → filter P l = [].
Proof.
  induction l as [|x l IH]; intros Hl; [done|].
  apply Forall_cons in Hl as [Hx Hl]. rewrite filter_cons_False by done. by apply IH.
Qed.

Lemma filter_all {A : Type} (P : A → Prop) `{∀ x, Decision (P x)} (l : list A) :
  Forall P l → filter P l = l.
Proof.
  induction l as [|x l IH]; intros Hl; [done|].
  apply Forall_cons in Hl as [Hx Hl]. rewrite filter_cons_True by done. by rewrite IH.
Qed.

(** The lines of the run from [s] to [p] inside the sorted line numbers. *)
Lemma run_filter (done rest : list nat) (s p : nat) :
  Forall (λ x, x < s)%nat done → (s ≤ p)%nat → Forall (λ x, p < x)%nat rest →
  filter (λ x, s ≤ x ∧ x ≤ p)%nat (done ++ seq s (p + 1 - s) ++ rest)
  = seq s (p + 1 - s).
Proof.
  intros Hd Hsp Hr. rewrite !filter_app.
  rewrite (filter_none _ done), (filter_none _ rest), app_nil_r; simpl.
  - apply filter_all. apply Forall_forall. intros x Hx%elem_of_seq. lia.
  - eapply Forall_impl; [exact Hr|]. simpl. lia.
  - eapply Forall_impl; [exact Hd|]. simpl. lia.
Qed.

Definition is_run (nums : list nat) (g : nat * nat * float) : Prop :=
  (g.1.1 ≤ g.1.2)%nat ∧
  filter (λ x, g.1.1 ≤ x ∧ x ≤ g.1.2)%nat nums = seq g.1.1 (g.1.2 + 1 - g.1.1).

Lemma fold_groups_runs hits rest : ∀ done s p c,
  Forall (λ x, x < s)%nat done → (s ≤ p)%nat → Forall (λ x, p < x)%nat rest →
  StronglySorted lt rest →
  Forall (is_run (done ++ seq s (p + 1 - s) ++ rest)) (fold_groups hits s p c rest).
Proof.
  induction rest as [|ln rest IH]; intros done s p c Hd Hsp Hr Hs; simpl.
  - apply Forall_singleton. split; [done|]. by apply run_filter.
  - apply Forall_cons in Hr as [Hln Hr].
    apply StronglySorted_inv in Hs as [Hs Hlt].
    destruct (ln =? p + 1)%nat eqn:E.
    + apply Nat.eqb_eq in E.
      assert (Hl : done ++ seq s (p + 1 - s) ++ ln :: rest
                   = done ++ seq s (ln + 1 - s) ++ rest).
      { replace (ln + 1 - s)%nat with (S (p + 1 - s)) by lia.
        rewrite seq_S, <- app_assoc. simpl.
        by replace (s + (p + 1 - s))%nat with ln by lia. }
      rewrite Hl. apply IH; [done|lia|done|done].
    + apply Nat.eqb_neq in E. apply Forall_cons. split.
      * split; [done|]. apply run_filter; [done|done|]. by apply Forall_cons.
      * assert (Hl : done ++ seq s (p + 1 - s) ++ ln :: rest
                     = (done ++ seq s (p + 1 - s)) ++ seq ln (ln + 1 - ln) ++ rest).
        { replace (ln + 1 - ln)%nat with 1%nat by lia. simpl. by rewrite <- app_assoc. }
        rewrite Hl. apply IH; [|done|done|done].
        apply Forall_app. split.
        -- eapply Forall_impl; [exact Hd|]. simpl. lia.
        -- apply Forall_forall. intros x Hx%elem_of_seq. lia.
Qed.

Lemma sorted_nodup_strict (l : list nat) :
  StronglySorted Nat.le l → NoDup l → StronglySorted lt l.
Proof.
  induction l as [|x l IH]; intros Hs Hn; [constructor|].
  apply StronglySorted_inv in Hs as [Hs Hle]. apply NoDup_cons in Hn as [Hx Hn].
  constructor; [by apply IH|].
  rewrite Forall_forall in *. intros y Hy. specialize (Hle y Hy).
  assert (x ≠ y) by (by intros ->). unfold Nat.le in Hle. lia.
Qed.

Lemma groups_of_runs (hits : list (nat * float)) :
  NoDup (map fst hits) → Forall (is_run (hit_lines_nums hits)) (groups_of hits).
Proof.
  intros Hnd. unfold groups_of.
  assert (Hs : StronglySorted lt (hit_lines_nums hits)).
  { apply sorted_nodup_strict.
    - unfold hit_lines_nums. apply (StronglySorted_merge_sort Nat.le); apply _.
    - unfold hit_lines_nums. by rewrite merge_sort_Permutation. }
  destruct (hit_lines_nums hits) as [|ln rest]; [apply Forall_nil_2|].
  apply StronglySorted_inv in Hs as [Hs Hlt].
  pose proof (fold_groups_runs hits rest [] ln ln (conf_at hits ln)
                (Forall_nil_2 _) (le_n ln) Hlt Hs) as H.
  replace (ln + 1 - ln)%nat with 1%nat in H by lia. exact H.
Qed.

(** A finding that reports one run of lines and names it. *)
Definition located (x : finding) : Prop :=
  ∃ first n,
    f_group_lines x = seq first (S n) ∧ f_chain_count x = 1%nat ∧
    f_call_chains x
    = [[f_file_path x +:+ ":" +:+
        match n with
        | O => pretty first
        | S _ => pretty first +:+ "-" +:+ pretty (first + n)%nat
        end]].

Section Ranges.
Variable re_ok : string → bool.
Variable re_search : string → string → bool.
Variable should_stop : nat → bool.
Variable cfg : config.

Definition ranged (st : scan) : Prop :=
  inv cfg st ∧ Forall located (findings st).

Lemma located_publish item st :
  located item → Forall located (findings st) →
  Forall located (findings (publish cfg item st)).
Proof.
  intros Hitem Hst. unfold publish.
  destruct (_ && _); simpl; apply Forall_app; split; try done;
    by apply Forall_singleton.
Qed.

Lemma located_form_item rule f i : located (form_item cfg rule f i).
Proof. exists (i + 1)%nat, 0%nat. done. Qed.

Lemma located_group_item rule f nums g :
  is_run nums g → located (group_item cfg rule f nums g).
Proof.
  destruct g as [[gs ge] c]. intros [Hle Hrun]. cbn [fst snd] in *.
  exists gs, (ge - gs)%nat. unfold group_item.
  cbn [fst snd f_group_lines f_chain_count f_call_chains f_file_path].
  split; [|split; [done|]].
  - rewrite Hrun. by replace (S (ge - gs)) with (ge + 1 - gs)%nat by lia.
  - destruct (gs =? ge)%nat eqn:E.
    + apply Nat.eqb_eq in E. subst ge. by rewrite Nat.sub_diag.
    + apply Nat.eqb_neq in E. destruct (ge - gs)%nat as [|k] eqn:Ek; [lia|].
      by replace (gs + S k)%nat with ge by lia.
Qed.

Lemma ranged_form_line rule f lines st il :
  ranged st → ranged (form_line cfg rule f lines st il).1.
Proof.
  intros [Hinv Hst]. split; [by apply inv_form_line|].
  unfold form_line.
  destruct (_ && _); [|done]. destruct (_ && _); [|done].
  destruct (_ && _); [|done]. unfold after_publish.
  assert (Forall located (findings (publish cfg (form_item cfg rule f il.1)
            (mark_emitted (name rule, rel f)
               (default 0%nat (per_file_rule_count st !! (name rule, rel f)))
               (rel f, rule_vul_type rule)
               (mark_seen (name rule, rel f, (il.1 + 1)%nat) st))))) as Hgoal.
  { apply located_publish; [apply located_form_item|done]. }
  by destruct (max_findings_reached _).
Qed.

Lemma located_emit_group rule f nums st g :
  is_run nums g → Forall located (findings st) →
  Forall located (findings (emit_group cfg rule f nums st g).1).
Proof.
  intros Hg Hst. unfold emit_group.
  destruct (_ <=? _)%nat; [done|]. case_bool_decide; [done|]. unfold after_publish.
  assert (Forall located (findings (publish cfg (group_item cfg rule f nums g)
            (mark_emitted (name rule, rel f)
               (default 0%nat (per_file_rule_count st !! (name rule, rel f)))
               (rel f, rule_vul_type rule) st)))) as Hgoal.
  { apply located_publish; [by apply located_group_item|done]. }
  by destruct (max_findings_reached _).
Qed.

Lemma ranged_scan_rule f ext lines st rule :
  ranged st → ranged (scan_rule re_ok re_search should_stop cfg f ext lines st rule).1.
Proof.
  intros [Hinv Hst]. split; [by apply inv_scan_rule|].
  unfold scan_rule. destruct (String.eqb _ "FORM_NO_CSRF").
  - assert (ranged (loop (form_line cfg rule f lines) st (imap pair lines))) as [_ Hloop].
    { apply (loop_inv ranged); [|by split]. intros st' il. apply ranged_form_line. }
    by destruct (max_findings_reached _).
  - set (sh := loop _ (st, []) _).
    assert (Hsh : pass_inv cfg rule f (findings st) sh).
    { apply (loop_inv (pass_inv cfg rule f (findings st))).
      - intros sh' il. apply pass_scan_line.
      - split; simpl; [done|done|apply NoDup_nil_2|by intros ln ?%elem_of_nil]. }
    destruct Hsh as [_ Hf Hnd _].
    assert (Hloc : Forall located (findings sh.1)) by (by rewrite Hf).
    destruct (sh.2) as [|h hits] eqn:Eh; [done|]. simpl. rewrite <- Eh in *.
    pose proof (groups_of_runs sh.2 Hnd) as Hruns. rewrite Forall_forall in Hruns.
    apply (loop_inv_elem (λ st', Forall located (findings st'))); [|done].
    intros st' g Hg. apply located_emit_group. by apply Hruns.
Qed.

Lemma ranged_scan_file st f :
  ranged st → ranged (scan_file re_ok re_search should_stop cfg st f).1.
Proof.
  intros Hst. unfold scan_file. destruct (_ && _); [done|].
  destruct (content f) as [lines|]; [|done].
  set (rules_to_check := if java_related _ then _ else _).
  assert (ranged (loop (scan_rule re_ok re_search should_stop cfg f
                          (ext_of (file_name f)) lines)
                    (set_regex_evals 0 st) rules_to_check)) as Hloop.
  { apply (loop_inv ranged).
    - intros st' rule. apply ranged_scan_rule.
    - destruct Hst as [Hinv Hloc]. split; [by apply inv_set_regex_evals|done]. }
  by destruct (max_findings_reached _).
Qed.

Lemma ranged_scan_dirs ds : ∀ st,
  ranged st → ranged (foldl (scan_dir re_ok re_search should_stop cfg) st ds).
Proof.
  induction ds as [|d ds IH]; intros st Hst; simpl; [done|].
  apply IH. unfold scan_dir. destruct (any_in _ _); [done|].
  apply (loop_inv ranged); [|done]. intros st' f. apply ranged_scan_file.
Qed.

End Ranges.

(** X22: Every finding of the template scanner reports one run of consecutive
    line numbers and names exactly that run: [group_lines] is
    [first, first+1, ..., last], [chain_count] is 1 and the single call chain
    is the text [file:first], or [file:first-last] when the run has more than
    one line. *)
Theorem findings_report_one_run re_ok re_search should_stop cfg
    (walk : list directory) (partial0 : list finding) (x : finding) :
  x ∈ findings (_scan_template_files re_ok re_search should_stop cfg walk partial0) →
  ∃ first n,
    f_group_lines x = seq first (S n) ∧ f_chain_count x = 1%nat ∧
    f_call_chains x
    = [[f_file_path x +:+ ":" +:+
        match n with
        | O => pretty first
        | S _ => pretty first +:+ "-" +:+ pretty (first + n)%nat
        end]].
Proof.
  intros Hx.
  assert (Hall : Forall located
            (findings (_scan_template_files re_ok re_search should_stop cfg walk partial0))).
  { unfold _scan_template_files.
    destruct (template_rules cfg) eqn:Er; [apply Forall_nil_2|].
    assert (Hinit : ranged cfg (Scan [] partial0 ∅ ∅ ∅ 0 0 0 0)).
    { split; [|apply Forall_nil_2].
      split; simpl.
      - apply NoDup_nil_2.
      - by intros y ?%elem_of_nil.
      - apply NoDup_nil_2.
      - by intros k ?%elem_of_nil.
      - intros k. unfold count_for. simpl. lia.
      - intros k. unfold counted. simpl. rewrite lookup_empty. simpl. lia. }
    destruct (ranged_scan_dirs re_ok re_search should_stop cfg walk _ Hinit) as [_ H].
    destruct (on_partial cfg); simpl; [|done].
    by destruct (0 <? _)%nat. }
  rewrite Forall_forall in Hall. by apply Hall.
Qed.

Lemma findings_report_one_run_witness :
  let x := group_item (Config [ScannerRuns.el_rule] false [] false false false)
             ScannerRuns.el_rule ScannerChecks.adjacent_jsp [1%nat; 2%nat]
             (1%nat, 2%nat, 0.70000000000000007) in
  ∃ first n,
    f_group_lines x = seq first (S n) ∧ f_chain_count x = 1%nat ∧
    f_call_chains x
    = [[f_file_path x +:+ ":" +:+
        match n with
        | O => pretty first
        | S _ => pretty first +:+ "-" +:+ pretty (first + n)%nat
        end]].
Proof.
  apply (findings_report_one_run (λ _, true) word_search ScannerRuns.never
           (Config [ScannerRuns.el_rule] false [] false false false)
           [Directory "/project" [ScannerChecks.adjacent_jsp]] []).
  vm_compute. left.
Defined.

End TemplateScannerRanges.

(** ** TemplateScanner: the regex budget of a file *)
Module TemplateScannerBudget.
Import Heuristics TemplateScanner TemplateScannerFacts.

#[local] Open Scope float_scope.

Section Budget.
Variable re_ok : string → bool.
Variable re_search : string → string → bool.
Variable should_stop : nat → bool.
Variable cfg : config.

Definition within_budget (st : scan) : Prop :=
  (regex_evals st ≤ MAX_REGEX_EVALS_PER_FILE cfg)%nat.

Lemma budget_publish item st : within_budget st → within_budget (publish cfg item st).
Proof. unfold within_budget, publish. by destruct (_ && _). Qed.

Lemma budget_form_line rule f lines st il :
  within_budget st → within_budget (form_line cfg rule f lines st il).1.
Proof.
  intros Hst. unfold form_line.
  destruct (_ && _); [|done]. destruct (_ && _); [|done].
  destruct (_ && _); [|done]. unfold after_publish.
  assert (within_budget (publish cfg (form_item cfg rule f il.1)
            (mark_emitted (name rule, rel f)
               (default 0%nat (per_file_rule_count st !! (name rule, rel f)))
               (rel f, rule_vul_type rule)
               (mark_seen (name rule, rel f, (il.1 + 1)%nat) st)))) as Hgoal.
  { by apply budget_publish. }
  by destruct (max_findings_reached _).
Qed.

Lemma budget_try_pattern rule f ext lines i line sh pat :
  within_budget sh.1 →
  within_budget (try_pattern re_search should_stop cfg rule f ext lines i line sh pat).1.1.
Proof.
  intros Hsh. unfold try_pattern. destruct (should_stop _); [done|].
  simpl. destruct (_ <=? _)%nat eqn:E; [done|]. apply Nat.leb_gt in E.
  assert (Hnext : within_budget (set_regex_evals (S (regex_evals sh.1)) (tick sh.1))).
  { unfold within_budget. simpl. lia. }
  destruct (negb _); [done|].
  destruct (apply_must_substrings cfg && _); [done|].
  destruct (_ && PrimFloat.ltb _ 0.3); [done|].
  destruct (PrimFloat.ltb (_analyze_context _ _ _ _) _); [done|].
  by case_bool_decide.
Qed.

Lemma budget_scan_line rule f ext lines pats hints sh il :
  within_budget sh.1 →
  within_budget (scan_line re_search should_stop cfg rule f ext lines pats hints sh il).1.1.
Proof.
  intros Hsh. unfold scan_line. destruct (should_stop _); [done|].
  destruct (_ <? _)%Z; [done|]. destruct (_ && negb (any_in _ _)); [done|].
  destruct (_ <=? _)%nat; [done|]. simpl.
  apply (loop_inv (λ sh', within_budget sh'.1)); [|done].
  intros sh' pat. apply budget_try_pattern.
Qed.

Lemma budget_emit_group rule f nums st g :
  within_budget st → within_budget (emit_group cfg rule f nums st g).1.
Proof.
  intros Hst. unfold emit_group.
  destruct (_ <=? _)%nat; [done|]. case_bool_decide; [done|]. unfold after_publish.
  assert (within_budget (publish cfg (group_item cfg rule f nums g)
            (mark_emitted (name rule, rel f)
               (default 0%nat (per_file_rule_count st !! (name rule, rel f)))
               (rel f, rule_vul_type rule) st))) as Hgoal.
  { by apply budget_publish. }
  by destruct (max_findings_reached _).
Qed.

Lemma budget_scan_rule f ext lines st rule :
  within_budget st →
  within_budget (scan_rule re_ok re_search should_stop cfg f ext lines st rule).1.
Proof.
  intros Hst. unfold scan_rule. destruct (String.eqb _ "FORM_NO_CSRF").
  - assert (within_budget (loop (form_line cfg rule f lines) st (imap pair lines)))
      as Hloop.
    { apply (loop_inv within_budget); [|done]. intros st' il. apply budget_form_line. }
    by destruct (max_findings_reached _).
  - set (sh := loop _ (st, []) _).
    assert (Hsh : within_budget sh.1).
    { apply (loop_inv (λ sh', within_budget sh'.1)); [|done].
      intros sh' il. apply budget_scan_line. }
    destruct (sh.2) as [|h hits]; [done|]. simpl.
    apply (loop_inv within_budget); [|done]. intros st' g. apply budget_emit_group.
Qed.

Lemma budget_scan_file st f :
  within_budget st → within_budget (scan_file re_ok re_search should_stop cfg st f).1.
Proof.
  intros Hst. unfold scan_file. destruct (_ && _); [done|].
  destruct (content f) as [lines|]; [|done].
  set (rules_to_check := if java_related _ then _ else _).
  assert (within_budget (loop (scan_rule re_ok re_search should_stop cfg f
                                 (ext_of (file_name f)) lines)
                           (set_regex_evals 0 st) rules_to_check)) as Hloop.
  { apply (loop_inv within_budget).
    - intros st' rule. apply budget_scan_rule.
    - unfold within_budget. simpl. lia. }
  by destruct (max_findings_reached _).
Qed.

Lemma budget_scan_dirs ds : ∀ st,
  within_budget st →
  within_budget (foldl (scan_dir re_ok re_search should_stop cfg) st ds).
Proof.
  induction ds as [|d ds IH]; intros st Hst; simpl; [done|].
  apply IH. unfold scan_dir. destruct (any_in _ _); [done|].
  apply (loop_inv within_budget); [|done]. intros st' f. apply budget_scan_file.
Qed.

End Budget.

(** X23: The scanner spends at most 2000 regex searches on a file, 500 in lite
    mode: the counter [regex_evals], reset when a file is opened and raised by
    each search, never passes [MAX_REGEX_EVALS_PER_FILE], however far the walk
    has come. *)
Theorem regex_budget_is_kept re_ok re_search should_stop cfg
    (walk : list directory) (partial0 : list finding) :
  (regex_evals (_scan_template_files re_ok re_search should_stop cfg walk partial0)
   ≤ if lite_fast cfg then 500 else 2000)%nat.
Proof.
  assert (H : within_budget cfg
            (_scan_template_files re_ok re_search should_stop cfg walk partial0)).
  { unfold _scan_template_files.
    assert (Hinit : within_budget cfg (Scan [] partial0 ∅ ∅ ∅ 0 0 0 0)).
    { unfold within_budget. simpl. lia. }
    destruct (template_rules cfg); [done|].
    pose proof (budget_scan_dirs re_ok re_search should_stop cfg walk _ Hinit) as H.
    destruct (on_partial cfg); simpl; [|done].
    by destruct (0 <? _)%nat. }
  unfold within_budget, MAX_REGEX_EVALS_PER_FILE, is_lite_mode in H.
  by destruct (lite_fast cfg).
Qed.

End TemplateScannerBudget.

(** ** CodeBlock: the extracted block is the shortest balanced one *)
Module CodeBlockFacts.
Import CodeBlock.

(** The net number of braces opened by a list of lines. *)
Definition balance (ls : list string) : Z := foldr (λ l acc, brace_delta l + acc)%Z 0%Z ls.

Definition opens (line : string) : Prop := PyStr.str_in "{" line = true.

Lemma balance_cons l ls : balance (l :: ls) = (brace_delta l + balance ls)%Z.
Proof. reflexivity. Qed.

(** Once the first brace has been seen, the loop stops at the first line
    where the depth is back to zero. *)
Lemma block_loop_started lines : ∀ depth,
  let block := block_loop lines depth true in
  block `prefix_of` lines ∧
  (∀ p, p `prefix_of` block → p ≠ [] → p ≠ block → (depth + balance p)%Z ≠ 0%Z) ∧
  (block ≠ lines → block ≠ [] ∧ (depth + balance block)%Z = 0%Z).
Proof.
  induction lines as [|line rest IH]; intros depth; simpl.
  - split; [done|]. split; [|done]. intros p Hp. apply prefix_nil_inv in Hp. done.
  - destruct (depth + brace_delta line =? 0)%Z eqn:E.
    + apply Z.eqb_eq in E. split; [by apply prefix_cons, prefix_nil|]. split.
      * intros p Hp Hne Hneq. destruct p as [|x p]; [done|].
        apply prefix_cons_inv_1 in Hp as Hx. apply prefix_cons_inv_2 in Hp.
        apply prefix_nil_inv in Hp. by subst.
      * intros _. split; [done|]. rewrite balance_cons. simpl. unfold balance. simpl. lia.
    + apply Z.eqb_neq in E.
      destruct (IH (depth + brace_delta line)%Z) as (H1 & H2 & H3).
      split; [by apply prefix_cons|]. split.
      * intros p Hp Hne Hneq. destruct p as [|x p]; [done|].
        apply prefix_cons_inv_1 in Hp as Hx. apply prefix_cons_inv_2 in Hp. subst x.
        rewrite balance_cons. destruct p as [|y p].
        -- unfold balance. simpl. lia.
        -- rewrite Z.add_assoc. apply H2; [done|done|]. congruence.
      * intros Hneq. split; [done|]. rewrite balance_cons, Z.add_assoc.
        apply H3. congruence.
Qed.

(** X24: [_extract_code_block] returns the lines from [start_index] up to and
    including the line that closes the first brace opened: the block is an
    initial segment of the remaining lines, and if it stops before their end
    it consists of lines without an opening brace followed by a body that
    starts on a line with one, whose braces balance, and no shorter body does. *)
Theorem code_block_is_shortest_balanced (lines : list string) (start_index : nat) :
  code_lines lines start_index `prefix_of` drop start_index lines ∧
  (code_lines lines start_index ≠ drop start_index lines →
   ∃ pre first body,
     code_lines lines start_index = pre ++ first :: body ∧
     Forall (λ l, ¬ opens l) pre ∧ opens first ∧
     balance (first :: body) = 0%Z ∧
     ∀ p, p `prefix_of` first :: body → p ≠ [] → p ≠ first :: body → balance p ≠ 0%Z).
Proof.
  unfold code_lines. generalize (drop start_index lines). clear. intros ls.
  induction ls as [|line rest IH]; simpl; [done|].
  destruct (PyStr.str_in "{" line) eqn:Eopen; simpl.
  - rewrite Z.add_0_l.
    destruct (brace_delta line =? 0)%Z eqn:E.
    + apply Z.eqb_eq in E. split; [by apply prefix_cons, prefix_nil|].
      intros _. exists [], line, []. repeat split; try done.
      * unfold balance. simpl. lia.
      * intros p Hp Hne Hneq. destruct p as [|x p]; [done|].
        apply prefix_cons_inv_1 in Hp as Hx. apply prefix_cons_inv_2 in Hp.
        apply prefix_nil_inv in Hp. by subst.
    + apply Z.eqb_neq in E.
      destruct (block_loop_started rest (brace_delta line)) as (H1 & H2 & H3).
      split; [by apply prefix_cons|].
      intros Hneq. destruct H3 as [H3 H4]; [congruence|].
      exists [], line, (block_loop rest (brace_delta line) true).
      repeat split; try done.
      intros p Hp Hne Hnp. destruct p as [|x p]; [done|].
      apply prefix_cons_inv_1 in Hp as Hx. apply prefix_cons_inv_2 in Hp. subst x.
      rewrite balance_cons. destruct p as [|y p].
      * unfold balance. simpl. lia.
      * apply H2; [done|done|]. congruence.
  - destruct IH as [IH1 IH2]. split; [by apply prefix_cons|].
    intros Hneq. destruct IH2 as (pre & first & body & Hb & Hpre & Hfirst & Hbal & Hmin).
    { congruence. }
    exists (line :: pre), first, body. rewrite Hb. repeat split; try done.
    apply Forall_cons. split; [|done]. unfold opens. by rewrite Eopen.
Qed.

End CodeBlockFacts.

(** ** VulnFinder: what the call-chain pass reports *)
Module VulnFinderFacts.
Import ChainFinder VulnFinder.

#[local] Open Scope float_scope.

Lemma configured_effective_depth rules_depth :
  effective_max_depth (configured_depth rules_depth)
  = Z.max (default 15%Z rules_depth) 15.
Proof.
  unfold effective_max_depth, configured_depth.
  destruct (Z.max _ 15 <? 10)%Z eqn:E; [apply Z.ltb_lt in E; lia|done].
Qed.

Lemma score_chain_in_band rs t chain sink_name :
  chain ≠ [] →
  PrimFloat.leb 0.4 (ChainScorer._score_chain rs t chain sink_name) = true ∧
  PrimFloat.leb (ChainScorer._score_chain rs t chain sink_name) 1.0 = true.
Proof.
  intros Hne. unfold ChainScorer._score_chain. destruct chain as [|x l]; [done|].
  rewrite ChainScorerFacts.score_of_core.
  split; [apply ChainScorerBands.score_core_floor|apply ChainScorerFacts.score_core_range].
Qed.

Definition in_band (c : float) : Prop :=
  PrimFloat.leb 0.4 c = true ∧ PrimFloat.leb c 1.0 = true.

Lemma pymax_in_band a b : in_band a → in_band b → in_band (ChainScorer.pymax a b).
Proof. intros Ha Hb. unfold ChainScorer.pymax. by destruct (PrimFloat.ltb a b). Qed.

Lemma max_confidence_in_band scores :
  scores ≠ [] → Forall in_band scores → in_band (max_confidence scores).
Proof.
  intros Hne Hall. destruct scores as [|c cs]; [done|]. simpl.
  apply Forall_cons in Hall as [Hc Hcs]. clear Hne. revert c Hc.
  induction cs as [|c' cs IH]; intros c Hc; [done|]. simpl.
  apply Forall_cons in Hcs as [Hc' Hcs]. apply IH; [done|]. by apply pymax_in_band.
Qed.

Section Pass.
Variable a : analyzer.
Variable rs : RuleMatcher.rules.
Variable sql_concat_text : list string → bool.
Variable should_stop : nat → bool.
Variable rules_depth : option Z.
Variable fast : bool.
Variable on_partial : bool.
Variable sink_rules : list sink_rule.

(** What holds of an item of the pass. *)
Definition reported (x : item) : Prop :=
  ∃ rule entry cls methods method,
    rule ∈ sink_rules ∧ entry ∈ sinks rule ∧
    PyStr.split ":" entry = [cls; methods] ∧ method ∈ PyStr.split "|" methods ∧
    sink x = RuleMatcher.short_name cls +:+ ":" +:+ method ∧
    vul_type x = sink_name rule ∧
    call_chains x ≠ [] ∧ chain_count x = length (call_chains x) ∧
    (∀ chain, chain ∈ call_chains x →
       NoDup chain ∧
       (∃ first, head chain = Some first ∧ is_entry_point a first = Some true) ∧
       last chain = Some (sink x) ∧
       (Z.of_nat (length chain) ≤ Z.max (default 15%Z rules_depth) 15 + 1)%Z) ∧
    match enriched x with
    | None => fast = true
    | Some e => fast = false ∧ in_band (confidence e)
    end.

Definition all_reported (st : progress) : Prop := Forall reported (results st).

Lemma reported_visit_method rule entry cls methods st method :
  rule ∈ sink_rules → entry ∈ sinks rule →
  PyStr.split ":" entry = [cls; methods] → method ∈ PyStr.split "|" methods →
  all_reported st →
  all_reported
    (visit_method a rs sql_concat_text should_stop rules_depth fast on_partial
       rule (RuleMatcher.short_name cls) st method).1.
Proof.
  intros Hrule Hentry Hsplit Hmethod Hst. unfold visit_method.
  destruct (should_stop (polls st)); [done|].
  cbv zeta. set (stop_from := λ n, should_stop _).
  set (sink_point := RuleMatcher.short_name cls +:+ ":" +:+ method).
  destruct (_trace_back a stop_from sink_point (depth rules_depth)
              (enough_fuel a (depth rules_depth))) as [paths| |] eqn:Erun; try done.
  destruct paths as [|p ps]; [done|].
  unfold all_reported, publish. simpl. apply Forall_app. split; [done|].
  apply Forall_singleton.
  apply ChainFinderFacts.trace_back_good in Erun.
  exists rule, entry, cls, methods, method. simpl.
  do 8 (split; [done|]). split.
  - intros chain Hin. rewrite Forall_forall in Erun.
    destruct (Erun chain Hin) as (H1 & H2 & H3 & H4).
    split; [done|]. split; [done|]. split; [done|].
    unfold depth in H4. by rewrite configured_effective_depth in H4.
  - destruct fast; [done|]. split; [done|]. unfold enrich. cbn [confidence].
    apply max_confidence_in_band; [done|].
    apply Forall_fmap, Forall_forall. intros chain Hin.
    apply score_chain_in_band. rewrite Forall_forall in Erun.
    destruct (Erun chain Hin) as (_ & (first & Hh & _) & _). by intros ->.
Qed.

Lemma reported_visit_sink rule st entry :
  rule ∈ sink_rules → entry ∈ sinks rule →
  all_reported st →
  all_reported
    (visit_sink a rs sql_concat_text should_stop rules_depth fast on_partial rule st entry).1.
Proof.
  intros Hrule Hentry Hst. unfold visit_sink.
  destruct (should_stop (polls st)); [done|].
  destruct (PyStr.split ":" entry) as [|cls [|methods [|? ?]]] eqn:Hsplit; try done.
  simpl. apply (TemplateScannerFacts.loop_inv_elem all_reported); [|done].
  intros st' method Hm. by apply reported_visit_method with entry methods.
Qed.

Lemma reported_visit_rule st rule :
  rule ∈ sink_rules →
  all_reported st →
  all_reported
    (visit_rule a rs sql_concat_text should_stop rules_depth fast on_partial st rule).1.
Proof.
  intros Hrule Hst. unfold visit_rule.
  destruct (should_stop (polls st)); [done|]. simpl.
  apply (TemplateScannerFacts.loop_inv_elem all_reported); [|done].
  intros st' entry He. by apply reported_visit_sink.
Qed.

End Pass.

(** X25: Every item of the call-chain pass of [find_vulnerabilities] stands for
    a sink point [Class:method] taken from a sink rule (short class name, one
    of the methods between the bars), carries that rule's name, lists at least
    one chain and counts them, each chain being duplicate-free, from an entry
    point to that sink point and within the depth cap; in full mode its
    confidence lies between 0.4 and 1, in fast mode it has none. *)
Theorem chain_items_are_reported a rs sql_concat_text should_stop rules_depth fast
    on_partial (sink_rules : list sink_rule) (partial0 : list item) (x : item) :
  x ∈ results (find_chains a rs sql_concat_text should_stop rules_depth fast on_partial
                 sink_rules partial0) →
  ∃ rule entry cls methods method,
    rule ∈ sink_rules ∧ entry ∈ sinks rule ∧
    PyStr.split ":" entry = [cls; methods] ∧ method ∈ PyStr.split "|" methods ∧
    sink x = RuleMatcher.short_name cls +:+ ":" +:+ method ∧
    vul_type x = sink_name rule ∧
    call_chains x ≠ [] ∧ chain_count x = length (call_chains x) ∧
    (∀ chain, chain ∈ call_chains x →
       NoDup chain ∧
       (∃ first, head chain = Some first ∧ is_entry_point a first = Some true) ∧
       last chain = Some (sink x) ∧
       (Z.of_nat (length chain) ≤ Z.max (default 15%Z rules_depth) 15 + 1)%Z) ∧
    match enriched x with
    | None => fast = true
    | Some e =>
        fast = false ∧ PrimFloat.leb 0.4 (confidence e) = true ∧
        PrimFloat.leb (confidence e) 1.0 = true
    end.
Proof.
  intros Hx.
  assert (Hall : all_reported a rules_depth fast sink_rules
            (find_chains a rs sql_concat_text should_stop rules_depth fast on_partial
               sink_rules partial0)).
  { unfold find_chains.
    apply (TemplateScannerFacts.loop_inv_elem
             (all_reported a rules_depth fast sink_rules)); [|apply Forall_nil_2].
    intros st rule Hrule. by apply reported_visit_rule. }
  unfold all_reported in Hall. rewrite Forall_forall in Hall. by apply Hall.
Qed.

(** A rule set with the JDBC sink of scenario S1. *)
Definition jdbc_rule : sink_rule :=
  SinkRule (Some "SQLI") (Some "JDBC query") (Some "High")
    ["java.sql.Statement:executeQuery|executeUpdate"].

Definition s1_item : item :=
  Item (Some "SQLI") (Some "JDBC query") (Some "High") "Statement:executeQuery"
    [ChainFinderFacts.s1_chain] 1 None.

Lemma chain_items_are_reported_witness :
  ∃ rule entry cls methods method,
    rule ∈ [jdbc_rule] ∧ entry ∈ sinks rule ∧
    PyStr.split ":" entry = [cls; methods] ∧ method ∈ PyStr.split "|" methods ∧
    sink s1_item = RuleMatcher.short_name cls +:+ ":" +:+ method ∧
    vul_type s1_item = sink_name rule ∧
    call_chains s1_item ≠ [] ∧ chain_count s1_item = length (call_chains s1_item) ∧
    (∀ chain, chain ∈ call_chains s1_item →
       NoDup chain ∧
       (∃ first, head chain = Some first ∧
                 is_entry_point ChainFinderFacts.s1_project first = Some true) ∧
       last chain = Some (sink s1_item) ∧
       (Z.of_nat (length chain) ≤ Z.max (default 15%Z None) 15 + 1)%Z) ∧
    match enriched s1_item with
    | None => true = true
    | Some e =>
        true = false ∧ PrimFloat.leb 0.4 (confidence e) = true ∧
        PrimFloat.leb (confidence e) 1.0 = true
    end.
Proof.
  apply (chain_items_are_reported ChainFinderFacts.s1_project
           ChainScorerFacts.demo_rules (λ _, false) (λ _, false) None true false
           [jdbc_rule] []).
  vm_compute. left.
Defined.

(** *** The pass when it is never stopped *)

Section Unstopped.
Variable a : analyzer.
Variable rs : RuleMatcher.rules.
Variable sql_concat_text : list string → bool.
Variable rules_depth : option Z.
Variable fast : bool.
Variable on_partial : bool.

Definition never : nat → bool := λ _, false.













End Unstopped.


End VulnFinderFacts.

(** ** CacheManager: size bound and round trip *)
Module CacheManagerFacts.
Import CacheManager.

#[local] Open Scope float_scope.

Section Facts.
Variable Value : Type.
Implicit Types (d : AstCache.cache Value) (m : manager Value).

Lemma oldest_candidate (rest : AstCache.cache Value) : ∀ best : string * float,
  (foldl (λ best e, if PrimFloat.ltb e.2.2 best.2 then (e.1, e.2.2) else best)
     best rest).1 ∈ best.1 :: map fst rest.
Proof.
  induction rest as [|[k [v t]] rest IH]; intros best; simpl; [left|].
  destruct (PrimFloat.ltb t best.2).
  - specialize (IH (k, t)). simpl in IH. by right.
  - specialize (IH best). apply elem_of_cons in IH as [->|IH]; [left|by right; right].
Qed.

Lemma oldest_key_elem d k : oldest_key d = Some k → k ∈ map fst d.
Proof.
  destruct d as [|[k0 [v0 t0]] rest]; simpl; [done|]. intros [= <-].
  apply (oldest_candidate rest (k0, t0)).
Qed.

Lemma oldest_key_None d : oldest_key d = None ↔ d = [].
Proof. destruct d as [|[k0 [v0 t0]] rest]; simpl; split; done. Qed.

Lemma dict_del_present d k :
  k ∈ map fst d → S (length (AstCache.dict_del d k)) = length d.
Proof.
  induction d as [|[k' v'] d IH]; simpl; [by intros ?%elem_of_nil|].
  destruct (String.eqb_spec k' k) as [->|Hne]; [done|].
  intros [?|H]%elem_of_cons; [done|]. simpl. by rewrite IH.
Qed.

Lemma dict_get_set d k v : AstCache.dict_get (AstCache.dict_set d k v) k = Some v.
Proof.
  induction d as [|[k' v'] d IH]; simpl.
  - by rewrite String.eqb_refl.
  - destruct (String.eqb k' k) eqn:E; simpl; by rewrite E.
Qed.

Lemma set_within m key value ttl_arg now :
  (1 ≤ max_size m)%Z → (Z.of_nat (length (cache m)) ≤ max_size m)%Z →
  let out := set m key value ttl_arg now in
  max_size out.1 = max_size m ∧ ttl out.1 = ttl m ∧
  (Z.of_nat (length (cache out.1)) ≤ max_size m)%Z ∧
  out.2 = match float_of_int (ttl_or ttl_arg (ttl m)) with
          | Some _ => None
          | None => Some OverflowError
          end.
Proof.
  intros Hpos Hlen. unfold set.
  destruct (max_size m <=? Z.of_nat (length (cache m)))%Z eqn:E.
  - apply Z.leb_le in E.
    destruct (oldest_key (cache m)) as [oldest|] eqn:Eo.
    + apply oldest_key_elem, dict_del_present in Eo.
      destruct (float_of_int _) as [seconds|]; simpl; (split; [done|]); (split; [done|]); (split; [|done]); [|lia].
      pose proof (AstCacheFacts.dict_set_length Value
                    (AstCache.dict_del (cache m) oldest) key (value, now + seconds)).
      lia.
    + apply oldest_key_None in Eo. rewrite Eo in E. simpl in E. lia.
  - apply Z.leb_gt in E.
    destruct (float_of_int _) as [seconds|]; simpl;
      (split; [done|]); (split; [done|]); (split; [|done]); [|lia].
    pose proof (AstCacheFacts.dict_set_length Value (cache m) key (value, now + seconds)).
    lia.
Qed.

Lemma step_within m c :
  (1 ≤ max_size m)%Z → (Z.of_nat (length (cache m)) ≤ max_size m)%Z →
  let out := step m c in
  max_size out.1 = max_size m ∧ ttl out.1 = ttl m ∧
  (Z.of_nat (length (cache out.1)) ≤ max_size m)%Z ∧
  (out.2 = None ∨ out.2 = Some OverflowError) ∧
  (ttl_converts (ttl m) c = true → out.2 = None).
Proof.
  intros Hpos Hlen. destruct c as [key now|key value ttl_arg now| |key]; cbn zeta.
  - unfold step, get.
    destruct (AstCache.dict_get (cache m) key) as [[value expire_time]|];
      [|simpl; repeat split; auto].
    destruct (PrimFloat.ltb expire_time now); simpl; repeat split; auto.
    pose proof (AstCacheFacts.dict_del_length Value (cache m) key). lia.
  - destruct (set_within m key value ttl_arg now Hpos Hlen) as (H1 & H2 & H3 & H4).
    unfold step. repeat split; try done.
    + rewrite H4. destruct (float_of_int _); auto.
    + simpl. intros Hc. apply bool_decide_eq_true in Hc as [seconds Hc].
      by rewrite H4, Hc.
  - simpl. repeat split; auto. lia.
  - pose proof (AstCacheFacts.dict_del_length Value (cache m) key).
    simpl. repeat split; auto. lia.
Qed.

End Facts.

(** X27: A manager created with [max_size >= 1] never holds more than [max_size]
    entries, whatever calls of [get], [set], [clear] and [delete] are made on
    it.  The only exception it raises is the [OverflowError] of a [set] whose
    time-to-live is too large for a float; when every time-to-live converts,
    no call raises. *)
Theorem cache_stays_within_max_size (Value : Type) (size ttl : Z)
    (calls : list (call Value)) :
  (1 ≤ size)%Z →
  let out := run (Manager [] size ttl) calls in
  (Z.of_nat (length (cache out.1)) ≤ size)%Z ∧
  (out.2 = None ∨ out.2 = Some OverflowError) ∧
  (forallb (ttl_converts ttl) calls = true → out.2 = None).
Proof.
  intros Hpos.
  assert (H : ∀ m : manager Value,
            max_size m = size → CacheManager.ttl m = ttl →
            (Z.of_nat (length (cache m)) ≤ size)%Z →
            let out := run m calls in
            (Z.of_nat (length (cache out.1)) ≤ size)%Z ∧
            (out.2 = None ∨ out.2 = Some OverflowError) ∧
            (forallb (ttl_converts ttl) calls = true → out.2 = None)).
  { induction calls as [|c calls IH]; intros m Hm Ht Hlen; simpl; [by auto|].
    destruct (step_within Value m c) as (H1 & H2 & H3 & H4 & H5); [lia|lia|].
    destruct (step m c) as [m1 [e|]] eqn:Es; simpl in *.
    - split; [lia|]. split; [done|].
      intros [Hc _]%andb_true_iff. rewrite Ht in H5. by apply H5.
    - destruct (IH m1) as (I1 & I2 & I3); [congruence|congruence|lia|].
      split; [done|]. split; [done|]. intros [_ Hc]%andb_true_iff. by apply I3. }
  apply H; [done|done|simpl; lia].
Qed.

Lemma cache_stays_within_max_size_witness :
  let out := run (Manager [] 1 600)
               [CallSet "regex_1" 1%nat (Some 3600%Z) 0.0; CallSet "regex_2" 2%nat None 1.0;
                CallGet "regex_1" 2.0] in
  (1 ≤ 1)%Z ∧ (Z.of_nat (length (cache out.1)) ≤ 1)%Z ∧ out.2 = None.
Proof.
  destruct (cache_stays_within_max_size nat 1 600
              [CallSet "regex_1" 1%nat (Some 3600%Z) 0.0; CallSet "regex_2" 2%nat None 1.0;
               CallGet "regex_1" 2.0]) as (Hsize & _ & Hquiet); [lia|].
  split; [lia|]. split; [exact Hsize|]. apply Hquiet. vm_compute. reflexivity.
Defined.

(** X28: What [set] stores, [get] gives back until the entry expires: after a
    [set] at time [now] that returns, with time-to-live [ttl_arg] (the
    manager's own when it is absent or zero), the time-to-live has a float
    value [seconds], and a [get] of the same key at time [later] returns the
    value unless [later] is past [now + seconds], when it returns nothing. *)
Theorem get_after_set (Value : Type) (m m' : manager Value) (key : string)
    (value : Value) (ttl_arg : option Z) (now later : float) :
  set m key value ttl_arg now = (m', None) →
  ∃ seconds,
    float_of_int (ttl_or ttl_arg (ttl m)) = Some seconds ∧
    (get m' key later).1
    = if PrimFloat.ltb (now + seconds) later then None else Some value.
Proof.
  unfold set. intros Hset.
  destruct (if (max_size m <=? _)%Z then _ else _) as [d|]; [|done].
  destruct (float_of_int _) as [seconds|]; [|done].
  injection Hset as <-. exists seconds. split; [done|].
  unfold get. simpl. rewrite dict_get_set.
  by destruct (PrimFloat.ltb _ later).
Qed.

Lemma get_after_set_witness :
  ∃ seconds,
    float_of_int (ttl_or (Some 3600%Z) 600) = Some seconds ∧
    (get (Manager [("regex_1", (7%nat, 3600.0))] 2000 600) "regex_1" 4000.0).1
    = if PrimFloat.ltb (0.0 + seconds) 4000.0 then None else Some 7%nat.
Proof.
  apply (get_after_set nat (cache_manager nat) _ "regex_1" 7%nat (Some 3600%Z) 0.0 4000.0).
  vm_compute. reflexivity.
Defined.

(** X29: When [set] raises: a [ValueError] exactly on an empty cache whose
    [max_size] is zero or less, where the eviction takes [min] of an empty
    sequence; an [OverflowError] exactly when that is not so and the
    time-to-live is too large for a float, as [2 ** 1024] is and [2 ** 1023]
    is not. *)
Theorem set_raises_iff (Value : Type) (m : manager Value) (key : string)
    (value : Value) (ttl_arg : option Z) (now : float) :
  match (set m key value ttl_arg now).2 with
  | Some ValueError => cache m = [] ∧ (max_size m ≤ 0)%Z
  | Some OverflowError =>
      ¬ (cache m = [] ∧ (max_size m ≤ 0)%Z) ∧
      float_of_int (ttl_or ttl_arg (ttl m)) = None
  | None =>
      ¬ (cache m = [] ∧ (max_size m ≤ 0)%Z) ∧
      is_Some (float_of_int (ttl_or ttl_arg (ttl m)))
  end ∧
  float_of_int (2 ^ 1024) = None ∧
  float_of_int (2 ^ 1023) = Some 0x1p+1023 ∧
  float_of_int 3600 = Some 3600.0 ∧
  float_of_int (2 ^ 53 + 1) = Some 9007199254740992.0.
Proof.
  split; [|repeat split; vm_compute; reflexivity].
  unfold set. destruct (max_size m <=? Z.of_nat (length (cache m)))%Z eqn:E.
  - apply Z.leb_le in E. destruct (oldest_key (cache m)) as [k|] eqn:Eo.
    + assert (Hne : ¬ (cache m = [] ∧ (max_size m ≤ 0)%Z)).
      { intros [Hc _]. apply oldest_key_None in Hc. congruence. }
      destruct (float_of_int _); simpl; split; done.
    + apply oldest_key_None in Eo. rewrite Eo in *. simpl in E. simpl.
      split; [done|lia].
  - apply Z.leb_gt in E.
    assert (Hne : ¬ (cache m = [] ∧ (max_size m ≤ 0)%Z)).
    { intros [Hc H]. rewrite Hc in E. simpl in E. lia. }
    destruct (float_of_int _); simpl; split; done.
Qed.

End CacheManagerFacts.
